(** * Roommate finder: compatibility scoring and candidate ranking

    A shallow embedding of [calculate_compatibility], of the two
    [User] helpers it calls and of the [browse_roommates] pipeline of
    [app.py], with the properties of the scoring and ranking engine
    proved about them.

    Numbers.  Python [int]s are [Z].  Python [float]s are IEEE 754
    binary64 values, embedded as [spec_float] with the operations of the
    reference specification [SpecFloat] at precision 53 and maximal
    exponent 1024 (round to nearest, ties to even).  The [int]s that the
    source mixes into float arithmetic ([0], [1], [3], [2], [5], [10]) are
    converted as Python converts them, and an [int] result ([0] or [5]
    when no float was added) is represented by the float equal to it.

    Text.  Python [str] values are embedded as [string]; the case and
    white space functions are those of ASCII text.

    Sets.  Python [set]s of strings are [gset string]. *)

From stdpp Require Import gmap strings list sorting.
From Stdlib Require Import ZArith Ascii String Floats.SpecFloat Lia.

Local Open Scope Z_scope.

(** ** Exceptions *)

Inductive exn : Type :=
| OverflowError
| ZeroDivisionError.

Inductive result (A : Type) : Type :=
| Ok (a : A)
| Raise (e : exn).

Arguments Ok {A} a.
Arguments Raise {A} e.

Definition bind {A B : Type} (r : result A) (k : A -> result B) : result B :=
  match r with
  | Ok a => k a
  | Raise e => Raise e
  end.

Notation "'let*' x ':=' r 'in' k" := (bind r (fun x => k))
  (at level 10, x name, r at level 100, k at level 200).

(** ** Python floats *)

Module PyFloat.

Definition float : Type := spec_float.

Definition prec : Z := 53.
Definition emax : Z := 1024.

Definition add : float -> float -> float := SFadd prec emax.
Definition sub : float -> float -> float := SFsub prec emax.
Definition mul : float -> float -> float := SFmul prec emax.
Definition div : float -> float -> float := SFdiv prec emax.
Definition ltb : float -> float -> bool := SFltb.
Definition leb : float -> float -> bool := SFleb.
Definition eqb : float -> float -> bool := SFeqb.

(** An integer as an exact (unrounded) binary number. *)
Definition exact (z : Z) : float :=
  match z with
  | Z0 => S754_zero false
  | Zpos p => S754_finite false p 0
  | Zneg p => S754_finite true p 0
  end.

(** [float(n)], the conversion applied to an [int] operand of a float
    operation: the nearest binary64 value.  The numbers converted here
    are literals and lengths, all below 2^63, so the [OverflowError] of
    the conversion cannot occur. *)
Definition of_int (z : Z) : float := binary_normalize prec emax z 0 false.

(** [a / b] on two [int]s: the correctly rounded quotient;
    [ZeroDivisionError] when [b] is zero and [OverflowError] when the
    quotient is too large for a float. *)
Definition int_truediv (a b : Z) : result float :=
  if b =? 0 then Raise ZeroDivisionError
  else
    match div (exact a) (exact b) with
    | S754_infinity _ => Raise OverflowError
    | q => Ok q
    end.

(** [min(x, y)] and [max(x, y)] of the builtins: the first argument is
    kept unless the second is strictly smaller (resp. larger). *)
Definition py_min (x y : float) : float := if ltb y x then y else x.
Definition py_max (x y : float) : float := if ltb x y then y else x.

(** Integer quotient rounded to nearest, ties to even ([0 < d]). *)
Definition rne_div (n d : Z) : Z :=
  let q := n / d in
  match 2 * (n mod d) ?= d with
  | Lt => q
  | Gt => q + 1
  | Eq => if Z.even q then q else q + 1
  end.

(** [round(x, 1)]: the exact value of [x] is rounded to a whole number
    of tenths, ties to even, and the decimal result is converted back
    to the nearest float.  Infinities and NaN are returned as they
    are. *)
Definition round1 (x : float) : float :=
  match x with
  | S754_finite s m e =>
      let tenths :=
        if 0 <=? e then 10 * Zpos m * 2 ^ e
        else rne_div (10 * Zpos m) (2 ^ (- e)) in
      match tenths with
      | Zpos t => div (S754_finite s t 0) (exact 10)
      | _ => S754_zero s
      end
  | _ => x
  end.

Definition zero : float := S754_zero false.
Definition one : float := Eval vm_compute in of_int 1.
Definition two : float := Eval vm_compute in of_int 2.
Definition three : float := Eval vm_compute in of_int 3.
Definition five : float := Eval vm_compute in of_int 5.
Definition ten : float := Eval vm_compute in of_int 10.
(** The literal [2.5]. *)
Definition two_and_half : float := Eval vm_compute in div (exact 25) (exact 10).

(** The float written [k/10] in decimal, for the examples. *)
Definition tenths (k : Z) : float := div (exact k) (exact 10).

End PyFloat.

Import PyFloat.

Declare Scope pyfloat_scope.
Delimit Scope pyfloat_scope with F.
Infix "+" := add : pyfloat_scope.
Infix "-" := sub : pyfloat_scope.
Infix "*" := mul : pyfloat_scope.

(** ** Python strings *)

Definition is_space (c : ascii) : bool :=
  let n := N_of_ascii c in
  ((9 <=? n) && (n <=? 13) || (28 <=? n) && (n <=? 32))%N.

Definition lower_ascii (c : ascii) : ascii :=
  let n := N_of_ascii c in
  if ((65 <=? n) && (n <=? 90))%N then ascii_of_N (n + 32) else c.

(** [s.lower()] *)
Fixpoint lower (s : string) : string :=
  match s with
  | EmptyString => EmptyString
  | String c r => String (lower_ascii c) (lower r)
  end.

Fixpoint lstrip (s : string) : string :=
  match s with
  | EmptyString => EmptyString
  | String c r => if is_space c then lstrip r else s
  end.

Fixpoint rstrip (s : string) : string :=
  match s with
  | EmptyString => EmptyString
  | String c r =>
      match rstrip r with
      | EmptyString => if is_space c then EmptyString else String c EmptyString
      | r' => String c r'
      end
  end.

(** [s.strip()] *)
Definition strip (s : string) : string := rstrip (lstrip s).

(** [s.split(',')]: the segments between commas, empty ones included;
    there is always at least one segment. *)
Fixpoint split_comma (s : string) : list string :=
  match s with
  | EmptyString => [EmptyString]
  | String c r =>
      if Ascii.eqb c ","%char then EmptyString :: split_comma r
      else
        match split_comma r with
        | seg :: segs => String c seg :: segs
        | [] => [String c EmptyString]
        end
  end.

(** Truth value of an optional string column: [None] and [''] are false. *)
Definition str_truthy (s : option string) : bool :=
  match s with
  | Some (String _ _) => true
  | _ => false
  end.

(** Truth value of an optional integer column: [None] and [0] are false. *)
Definition int_truthy (z : option Z) : bool :=
  match z with
  | Some z => negb (z =? 0)
  | None => false
  end.

(** Truth value of a set: only the empty set is false. *)
Definition set_truthy (X : gset string) : bool := negb (bool_decide (X = ∅)).

(** ** The [User] model *)

Record User : Type := mkUser {
  id : Z;
  budget : option Z;
  preferred_locations : option string;
  lifestyle : option string;
  created_at : Z
}.

Definition comma_list (column : option string) : list string :=
  if str_truthy column then strip <$> split_comma (default EmptyString column)
  else [].

Definition get_lifestyle_list (self : User) : list string :=
  comma_list (lifestyle self).

Definition get_locations_list (self : User) : list string :=
  comma_list (preferred_locations self).

(** [set([x.lower() for x in l])] *)
Definition lower_set (l : list string) : gset string := list_to_set (lower <$> l).

Definition locations_set (u : User) : gset string := lower_set (get_locations_list u).
Definition lifestyle_set (u : User) : gset string := lower_set (get_lifestyle_list u).

(** [len(X)] *)
Definition len (X : gset string) : Z := Z.of_nat (size X).

(** ** The scorer *)

Definition calculate_compatibility (user1 user2 : User) : result float :=
  let score := zero in
  (* Location match *)
  let locations1 := locations_set user1 in
  let locations2 := locations_set user2 in
  let score :=
    if set_truthy locations1 && set_truthy locations2 then
      let common_locations := locations1 ∩ locations2 in
      if set_truthy common_locations then
        let location_score := py_min (of_int (len common_locations) * two_and_half)%F five in
        (score + location_score)%F
      else score
    else score in
  (* Budget closeness *)
  let* score :=
    (if int_truthy (budget user1) && int_truthy (budget user2) then
       let b1 := default 0 (budget user1) in
       let b2 := default 0 (budget user2) in
       let budget_diff := Z.abs (b1 - b2) in
       let max_budget := Z.max b1 b2 in
       if 0 <? max_budget then
         let* diff_percent := int_truediv budget_diff max_budget in
         let budget_score := py_max zero (three * (one - diff_percent))%F in
         Ok (score + budget_score)%F
       else Ok score
     else Ok score) in
  (* Lifestyle match *)
  let lifestyle1 := lifestyle_set user1 in
  let lifestyle2 := lifestyle_set user2 in
  let* score :=
    (if set_truthy lifestyle1 && set_truthy lifestyle2 then
       let common_lifestyle := lifestyle1 ∩ lifestyle2 in
       let total_lifestyle := lifestyle1 ∪ lifestyle2 in
       if set_truthy total_lifestyle then
         let* ratio := int_truediv (len common_lifestyle) (len total_lifestyle) in
         let lifestyle_score := (ratio * two)%F in
         Ok (score + lifestyle_score)%F
       else Ok score
     else Ok score) in
  Ok (round1 (py_min score ten)).

(** The three amounts that [calculate_compatibility] adds to [score],
    each taken alone; a guard that fails adds nothing, written [zero]. *)

Definition location_component (user1 user2 : User) : float :=
  let locations1 := locations_set user1 in
  let locations2 := locations_set user2 in
  if set_truthy locations1 && set_truthy locations2 then
    let common_locations := locations1 ∩ locations2 in
    if set_truthy common_locations then
      py_min (of_int (len common_locations) * two_and_half)%F five
    else zero
  else zero.

Definition budget_component (user1 user2 : User) : result float :=
  if int_truthy (budget user1) && int_truthy (budget user2) then
    let b1 := default 0 (budget user1) in
    let b2 := default 0 (budget user2) in
    let budget_diff := Z.abs (b1 - b2) in
    let max_budget := Z.max b1 b2 in
    if 0 <? max_budget then
      let* diff_percent := int_truediv budget_diff max_budget in
      Ok (py_max zero (three * (one - diff_percent))%F)
    else Ok zero
  else Ok zero.

Definition lifestyle_component (user1 user2 : User) : result float :=
  let lifestyle1 := lifestyle_set user1 in
  let lifestyle2 := lifestyle_set user2 in
  if set_truthy lifestyle1 && set_truthy lifestyle2 then
    let common_lifestyle := lifestyle1 ∩ lifestyle2 in
    let total_lifestyle := lifestyle1 ∪ lifestyle2 in
    if set_truthy total_lifestyle then
      let* ratio := int_truediv (len common_lifestyle) (len total_lifestyle) in
      Ok (ratio * two)%F
    else Ok zero
  else Ok zero.

(** ** The ranking pipeline of [browse_roommates] *)

(** [list.sort(key=key, reverse=True)]: a stable sort by descending key
    that compares keys with [<] only; of two entries with keys that do
    not compare, the one supplied first stays first. *)
Section SortDesc.
Context {A K : Type} (key : A -> K) (lt : K -> K -> bool).

Fixpoint insert_desc (x : A) (l : list A) : list A :=
  match l with
  | [] => [x]
  | y :: l' =>
      if lt (key x) (key y) then y :: insert_desc x l' else x :: y :: l'
  end.

Definition sort_desc (l : list A) : list A := foldr insert_desc [] l.

(** [a] may stand before [b]: the key of [a] is not smaller. *)
Definition desc (a b : A) : Prop := lt (key a) (key b) = false.

(** The key of [a] ties with [v]: neither is smaller. *)
Definition tied (v : K) (a : A) : Prop :=
  lt (key a) v = false /\ lt v (key a) = false.

#[global] Instance tied_dec v a : Decision (tied v a).
Proof. unfold tied. apply _. Defined.
End SortDesc.

(** SQL [text LIKE pattern] as SQLite evaluates [ilike]: [%] matches any
    run of characters, [_] any one character, and letters match without
    regard to case. *)
Fixpoint like_match (pattern : list ascii) : list ascii -> bool :=
  match pattern with
  | [] => fun text => match text with [] => true | _ => false end
  | p :: pattern' =>
      if Ascii.eqb p "%"%char then
        fix skip (text : list ascii) : bool :=
          like_match pattern' text
          || match text with [] => false | _ :: text' => skip text' end
      else
        fun text =>
          match text with
          | [] => false
          | c :: text' =>
              (Ascii.eqb p "_"%char || Ascii.eqb (lower_ascii p) (lower_ascii c))
              && like_match pattern' text'
          end
  end.

Definition ilike (column : option string) (pattern : string) : bool :=
  match column with
  | Some text => like_match (list_ascii_of_string pattern) (list_ascii_of_string text)
  | None => false
  end.

(** [column >= bound] and [column <= bound] in a SQL filter: a NULL column
    satisfies neither. *)
Definition sql_ge (column : option Z) (bound : Z) : bool :=
  match column with Some v => bound <=? v | None => false end.

Definition sql_le (column : option Z) (bound : Z) : bool :=
  match column with Some v => v <=? bound | None => false end.

(** An entry of [roommates_with_scores]. *)
Record Roommate : Type := mkRoommate {
  user : User;
  score : float
}.

(** The query built by [browse_roommates], run on the rows of the [user]
    table.  Rows with equal [created_at] are returned in table order. *)
Definition roommates_query (table : list User) (current_user : option User)
    (location : string) (min_budget max_budget : option Z) : list User :=
  let query := table in
  let query :=
    match current_user with
    | Some cu => filter (fun u => id u ≠ id cu) query
    | None => query
    end in
  let query :=
    if str_truthy (Some location) then
      filter (fun u => ilike (preferred_locations u) ("%" ++ location ++ "%")%string = true) query
    else query in
  let query :=
    if int_truthy min_budget then
      filter (fun u => sql_ge (budget u) (default 0 min_budget) = true) query
    else query in
  let query :=
    if int_truthy max_budget then
      filter (fun u => sql_le (budget u) (default 0 max_budget) = true) query
    else query in
  sort_desc created_at Z.ltb query.

(** The scoring loop. *)
Fixpoint score_users (current_user : option User) (users : list User)
    : result (list Roommate) :=
  match users with
  | [] => Ok []
  | u :: users' =>
      let* s :=
        match current_user with
        | Some cu => calculate_compatibility cu u
        | None => Ok zero
        end in
      let* rest := score_users current_user users' in
      Ok (mkRoommate u s :: rest)
  end.

(** Scoring followed by the sort that a logged-in user gets. *)
Definition rank (current_user : option User) (users : list User)
    : result (list Roommate) :=
  let* roommates_with_scores := score_users current_user users in
  match current_user with
  | Some _ => Ok (sort_desc score ltb roommates_with_scores)
  | None => Ok roommates_with_scores
  end.

Definition browse_roommates (table : list User) (current_user : option User)
    (location : string) (min_budget max_budget : option Z)
    : result (list Roommate) :=
  let location := strip location in
  let users := roommates_query table current_user location min_budget max_budget in
  rank current_user users.

(** ** Auxiliary definitions for the rounding lemmas *)

Abbreviation fexp := (SpecFloat.fexp 53 1024).
Abbreviation bra := (binary_round_aux 53 1024).

(** The float built from a rounded mantissa and its exponent. *)
Definition pack (sx : bool) (m e : Z) : spec_float :=
  match m with
  | Z0 => S754_zero sx
  | Zpos p => if e <=? 1024 - 53 then S754_finite sx p e else S754_infinity sx
  | Zneg _ => S754_nan
  end.

Definition shift_of (m e : Z) : Z := Z.max 0 (fexp (Zdigits2 m + e) - e).

(** A float is [shaped sx] when it is a zero, an infinity or a finite
    number of sign [sx] whose mantissa fits the 53 bits of the format. *)
Definition shaped (sx : bool) (x : spec_float) : Prop :=
  match x with
  | S754_zero s | S754_infinity s => s = sx
  | S754_finite s m e => s = sx /\ Zdigits2 (Zpos m) <= 53 /\ e <= 971
  | S754_nan => False
  end.

(** ** Bounds, ranges and well-formed users *)

(** Whatever the operands, a finite product has a mantissa of the format. *)
Definition bounded (x : float) : Prop :=
  match x with
  | S754_finite _ m e => Zdigits2 (Zpos m) <= 53 /\ e <= 971
  | _ => True
  end.

Fixpoint all_upto (f : positive -> bool) (n : nat) : bool :=
  match n with
  | O => true
  | S n' => f (Pos.of_succ_nat n') && all_upto f n'
  end.

Definition in_range (x : float) : bool := leb zero x && leb x ten.

(** A user is well formed when the budget is absent or not negative. *)
Definition well_formed (u : User) : Prop :=
  match budget u with
  | Some z => 0 <= z
  | None => True
  end.

(** Example profiles. *)
Definition alice : User :=
  mkUser 1 (Some 800) (Some "Mumbai, Pune") (Some "non-smoker,early-riser") 10.
Definition bob : User :=
  mkUser 2 (Some 600) (Some "pune,delhi") (Some "non-smoker,night-owl") 20.
Definition carol : User :=
  mkUser 3 None (Some "Pune") None 30.
(** Both budgets present and zero. *)
Definition zero_budget : User := mkUser 4 (Some 0) None None 40.
(** One location, a budget and one lifestyle tag. *)
Definition one_location : User :=
  mkUser 5 (Some 800) (Some "pune") (Some "non-smoker") 50.
(** Location text made of a comma only. *)
Definition comma_only : User := mkUser 6 None (Some ",") None 60.

(** Non-negative floats are ordered by kind, then exponent, then
    mantissa. *)
Definition ord (x : float) : Z * Z * Z :=
  match x with
  | S754_zero _ => (0, 0, 0)
  | S754_finite _ m e => (1, e, Zpos m)
  | S754_infinity _ => (2, 0, 0)
  | S754_nan => (3, 0, 0)
  end.

Definition lex_lt (a b : Z * Z * Z) : Prop :=
  a.1.1 < b.1.1
  \/ (a.1.1 = b.1.1 /\ (a.1.2 < b.1.2 \/ (a.1.2 = b.1.2 /\ a.2 < b.2))).
(** Candidates whose scores against [alice] are 3.2, 7.1, 7.1 and 0.0. *)
Definition cand0 : User :=
  mkUser 11 None (Some "Pune") (Some "non-smoker,night-owl") 110.
Definition cand1 : User :=
  mkUser 12 (Some 560) (Some "pune, mumbai") None 120.
Definition cand2 : User :=
  mkUser 13 (Some 560) (Some "MUMBAI,PUNE") None 130.
Definition cand3 : User :=
  mkUser 14 None (Some "Delhi") None 140.

(** Floats are compared for equality field by field. *)
#[global] Instance float_eq_dec : EqDecision float.
Proof. solve_decision. Defined.

(** Text made of commas and white space only. *)
Fixpoint only_commas_and_spaces (s : string) : bool :=
  match s with
  | EmptyString => true
  | String c r => (Ascii.eqb c ","%char || is_space c) && only_commas_and_spaces r
  end.

(** The set that the scorer derives from a text column. *)
Definition column_set (column : option string) : gset string :=
  lower_set (comma_list column).

(** Text made of white space only. *)
Fixpoint all_spaces (s : string) : bool :=
  match s with
  | EmptyString => true
  | String c r => is_space c && all_spaces r
  end.

(** A table for the examples of the ranking pipeline. *)
Definition sample_table : list User := [alice; bob; carol].

(** ** More of the application *)

(** [c in s] for a one-character [c], and [s.count(c)]. *)
Fixpoint contains_char (c : ascii) (s : string) : bool :=
  match s with
  | EmptyString => false
  | String d r => Ascii.eqb d c || contains_char c r
  end.

Fixpoint count_char (c : ascii) (s : string) : nat :=
  match s with
  | EmptyString => O
  | String d r => ((if Ascii.eqb d c then 1 else 0) + count_char c r)%nat
  end.

(** [','.join(l)], the inverse of [split(',')]. *)
Fixpoint join_comma (l : list string) : string :=
  match l with
  | [] => EmptyString
  | seg :: l' =>
      match l' with
      | [] => seg
      | _ :: _ => (seg ++ String ","%char (join_comma l'))%string
      end
  end.

(** What a list helper returns for a text column: nothing for an absent
    or empty text, and otherwise one trimmed, comma-free entry for each
    segment of the text. *)
Definition entries_of (column : option string) (entries : list string) : Prop :=
  match column with
  | None | Some EmptyString => entries = []
  | Some text =>
      List.length entries = S (count_char ","%char text)
      /\ Forall (fun e => strip e = e /\ contains_char ","%char e = false) entries
  end.

(** The [Listing] model, with the columns that the queries read. *)
Module Listing.
Record t : Type := mk {
  id : Z;
  user_id : Z;
  location : string;
  rent : Z;
  room_type : string;
  amenities : option string;
  created_at : Z;
  is_active : option bool
}.
End Listing.

Definition get_amenities_list (self : Listing.t) : list string :=
  comma_list (Listing.amenities self).

Definition ALLOWED_EXTENSIONS : gset string :=
  {[ "png"%string; "jpg"%string; "jpeg"%string; "gif"%string; "webp"%string ]}.

(** [s.rsplit('.', 1)]: the text cut at its last dot, or the text alone
    when it has no dot. *)
Fixpoint rsplit_dot (s : string) : list string :=
  match s with
  | EmptyString => [EmptyString]
  | String c r =>
      match rsplit_dot r with
      | [tail] =>
          if Ascii.eqb c "."%char then [EmptyString; tail] else [String c tail]
      | head :: rest => String c head :: rest
      | [] => []
      end
  end.

(** The second operand of [and] is evaluated only when a dot is present,
    so the index [[1]] is always in range there. *)
Definition allowed_file (filename : string) : bool :=
  contains_char "."%char filename
  && match rsplit_dot filename !! 1%nat with
     | Some extension => bool_decide (lower extension ∈ ALLOWED_EXTENSIONS)
     | None => false
     end.

(** What a route answers. *)
Inductive failure : Type :=
| Uncaught (e : exn)
| AttributeError.

Inductive response (A : Type) : Type :=
| Page (a : A)
| NotFound
| RedirectTo (endpoint : string) (flashed : string)
| ServerError (e : failure).

Arguments Page {A} a.
Arguments NotFound {A}.
Arguments RedirectTo {A} endpoint flashed.
Arguments ServerError {A} e.

(** [Model.query.get(key)]: the row with this primary key, if any. *)
Definition query_get {A : Type} (pk : A -> Z) (table : list A) (key : Z) : option A :=
  List.find (fun row => pk row =? key) table.

(** The session holds at most the key [user_id]. *)
Definition get_current_user (users : list User) (session : option Z) : option User :=
  match session with
  | Some user_id => query_get id users user_id
  | None => None
  end.

Definition view_roommate (users : list User) (session : option Z) (user_id : Z)
    : response (User * float) :=
  match query_get id users user_id with
  | None => NotFound
  | Some user =>
      let current_user := get_current_user users session in
      let score :=
        match current_user with
        | Some cu =>
            if negb (id cu =? user_id) then calculate_compatibility cu user
            else Ok zero
        | None => Ok zero
        end in
      match score with
      | Ok score => Page (user, score)
      | Raise e => ServerError (Uncaught e)
      end
  end.

(** [column = TRUE] in a SQL filter. *)
Definition sql_true (column : option bool) : bool :=
  match column with Some true => true | _ => false end.

(** The [listings] of [browse_listings]. *)
Definition browse_listings (table : list Listing.t) (location : string)
    (min_rent max_rent : option Z) (room_type : string) : list Listing.t :=
  let location := strip location in
  let query := filter (fun l => sql_true (Listing.is_active l) = true) table in
  let query :=
    if str_truthy (Some location) then
      filter (fun l => ilike (Some (Listing.location l)) ("%" ++ location ++ "%")%string = true) query
    else query in
  let query :=
    if int_truthy min_rent then
      filter (fun l => sql_ge (Some (Listing.rent l)) (default 0 min_rent) = true) query
    else query in
  let query :=
    if int_truthy max_rent then
      filter (fun l => sql_le (Some (Listing.rent l)) (default 0 max_rent) = true) query
    else query in
  let query :=
    if str_truthy (Some room_type) then
      filter (fun l => Listing.room_type l = room_type) query
    else query in
  sort_desc Listing.created_at Z.ltb query.

(** The [featured_listings] of [home]. *)
Definition home (table : list Listing.t) : list Listing.t :=
  take 6 (sort_desc Listing.created_at Z.ltb
            (filter (fun l => sql_true (Listing.is_active l) = true) table)).

Definition view_listing (table : list Listing.t) (listing_id : Z) : response Listing.t :=
  match query_get Listing.id table listing_id with
  | Some listing => Page listing
  | None => NotFound
  end.

(** [delete_listing] behind [login_required]: the answer and the rows of
    the [listing] table afterwards. *)
Definition delete_listing (users : list User) (table : list Listing.t)
    (session : option Z) (listing_id : Z) : response unit * list Listing.t :=
  match session with
  | None => (RedirectTo "login" "Please log in to access this page.", table)
  | Some _ =>
      let user := get_current_user users session in
      match query_get Listing.id table listing_id with
      | None => (NotFound, table)
      | Some listing =>
          match user with
          | None => (ServerError AttributeError, table)
          | Some user =>
              if negb (Listing.user_id listing =? id user) then
                (RedirectTo "dashboard" "You can only delete your own listings.", table)
              else
                (RedirectTo "dashboard" "Listing deleted successfully.",
                 filter (fun l => Listing.id l <> Listing.id listing) table)
          end
      end
  end.

(** The [my_listings] of [dashboard], behind [login_required]. *)
Definition dashboard (users : list User) (table : list Listing.t) (session : option Z)
    : response (User * list Listing.t) :=
  match session with
  | None => RedirectTo "login" "Please log in to access this page."
  | Some _ =>
      match get_current_user users session with
      | None => ServerError AttributeError
      | Some user =>
          Page (user,
                sort_desc Listing.created_at Z.ltb
                  (filter (fun l => Listing.user_id l = id user) table))
      end
  end.

(** Example listings. *)
Definition flat1 : Listing.t :=
  Listing.mk 1 1 "Pune" 500 "Private Room" (Some "wifi, parking") 100 (Some true).
Definition flat2 : Listing.t :=
  Listing.mk 2 2 "Mumbai" 900 "Entire Flat" None 200 (Some true).
Definition flat3 : Listing.t :=
  Listing.mk 3 1 "Delhi" 300 "Shared Room" (Some "wifi") 300 (Some false).
Definition sample_listings : list Listing.t := [flat1; flat2; flat3].

(** [alice] with her text in other letter cases. *)
Definition alice_upper : User :=
  mkUser 7 (Some 800) (Some "MUMBAI, Pune") (Some "Non-Smoker,EARLY-RISER") 70.

(** A budget that the [INTEGER] column of the database can hold: a
    signed 64-bit number. *)
Definition sql_integer (u : User) : Prop :=
  match budget u with
  | Some z => - 2 ^ 63 <= z < 2 ^ 63
  | None => True
  end.

(** Two profiles with budgets that no such column holds. *)
Definition huge_debt : User := mkUser 8 (Some (- 2 ^ 1100)) None None 80.
Definition one_unit : User := mkUser 9 (Some 1) None None 90.

(** The locations offered by the filter of [browse_roommates]: the
    entries of all rows, as a set; the order of [list(set(...))] is not
    modelled. *)
Definition all_users_locations (table : list User) : list string :=
  foldl (fun acc u => acc ++ get_locations_list u) [] table.

Definition unique_locations (table : list User) : gset string :=
  list_to_set (all_users_locations table).

(** A row of the [user] table with the columns that [register] checks;
    [profile] holds the columns of the row that the scorer and the
    searches read.  The password hash is not modelled. *)
Module Account.
Record t : Type := mk {
  email : string;
  name : string;
  profile : User
}.
End Account.

(** The fields of the registration form that the route reads. *)
Record RegisterForm : Type := mkRegisterForm {
  form_email : string;
  form_password : string;
  form_confirm_password : string;
  form_name : string;
  form_budget : option Z;
  form_preferred_locations : string;
  form_lifestyle : string
}.

(** The [POST] branch of [register].  The identifier and the creation
    time of the new row are given by the database and the clock.  The
    answer is the page with the flashed errors, or the redirection to the
    login page. *)
Definition register (accounts : list Account.t) (form : RegisterForm)
    (new_id now : Z) : response (list string) * list Account.t :=
  let email := lower (strip (form_email form)) in
  let password := form_password form in
  let confirm_password := form_confirm_password form in
  let name := strip (form_name form) in
  let budget := form_budget form in
  let preferred_locations := strip (form_preferred_locations form) in
  let lifestyle := strip (form_lifestyle form) in
  let errors := [] in
  let errors :=
    if negb (str_truthy (Some email)) || negb (contains_char "@"%char email)
    then errors ++ ["Please enter a valid email address."%string] else errors in
  let errors :=
    if (String.length password <? 6)%nat
    then errors ++ ["Password must be at least 6 characters long."%string] else errors in
  let errors :=
    if negb (String.eqb password confirm_password)
    then errors ++ ["Passwords do not match."%string] else errors in
  let errors :=
    if negb (str_truthy (Some name))
    then errors ++ ["Please enter your name."%string] else errors in
  let errors :=
    if bool_decide (email ∈ (Account.email <$> accounts))
    then errors ++ ["An account with this email already exists."%string] else errors in
  match errors with
  | _ :: _ => (Page errors, accounts)
  | [] =>
      let user :=
        Account.mk email name
          (mkUser new_id budget (Some preferred_locations) (Some lifestyle) now) in
      (RedirectTo "login" "Registration successful! Please log in.", accounts ++ [user])
  end.

(** A registration form for the examples. *)
Definition dana_form : RegisterForm :=
  mkRegisterForm "  Dana@Example.com " "secret1" "secret1" " Dana " (Some 700)
    " Pune, Mumbai " "non-smoker".


(** The [POST] branch of [profile] behind [login_required], on the rows
    of the [user] table and the columns that are modelled: the row with
    the identifier of the session's user gets the new values. *)
Definition profile (users : list User) (session : option Z) (budget : option Z)
    (preferred_locations lifestyle : string) : response unit * list User :=
  match session with
  | None => (RedirectTo "login" "Please log in to access this page.", users)
  | Some _ =>
      match get_current_user users session with
      | None => (ServerError AttributeError, users)
      | Some user =>
          let update (row : User) :=
            if id row =? id user then
              mkUser (id row) budget (Some (strip preferred_locations))
                (Some (strip lifestyle)) (created_at row)
            else row in
          (RedirectTo "profile" "Profile updated successfully!", update <$> users)
      end
  end.

(** ** Values of floats *)

(** A finite float is canonical when its exponent is the one that the
    format gives to numbers of its magnitude. *)
Definition canonical (m : positive) (e : Z) : Prop :=
  e = fexp (Zdigits2 (Zpos m) + e).

(** The floats that the scorer computes with: zero and the canonical
    positive numbers. *)
Definition valid (x : float) : Prop :=
  match x with
  | S754_zero s => s = false
  | S754_finite s m e => s = false /\ canonical m e /\ e <= 971
  | _ => False
  end.

(** The value of a float in units of [2^-2200], a whole number for all
    exponents that occur. *)
Definition scaled (x : float) : Z :=
  match x with
  | S754_finite _ m e => Zpos m * 2 ^ (e + 2200)
  | _ => 0
  end.

Definition eight : float := Eval vm_compute in of_int 8.

(** * Properties of binary64 rounding *)

Lemma fexp_eq e : fexp e = Z.max (e - 53) (-1074).
Proof. reflexivity. Qed.

Lemma digits2_pos_log2 p : Zpos (digits2_pos p) = Z.log2 (Zpos p) + 1.
Proof.
  induction p as [p IH|p IH|]; simpl digits2_pos; try reflexivity.
  - rewrite Pos2Z.inj_succ, IH.
    change (Zpos p~1) with (2 * Zpos p + 1).
    rewrite Z.log2_succ_double by lia. lia.
  - rewrite Pos2Z.inj_succ, IH.
    change (Zpos p~0) with (2 * Zpos p).
    rewrite Z.log2_double by lia. lia.
Qed.

Lemma Zdigits2_log2 m : 0 < m -> Zdigits2 m = Z.log2 m + 1.
Proof. destruct m; try lia. intros _. apply digits2_pos_log2. Qed.

Lemma Zdigits2_0 : Zdigits2 0 = 0.
Proof. reflexivity. Qed.

Lemma Zdigits2_nonneg m : 0 <= Zdigits2 m.
Proof. destruct m; simpl; lia. Qed.

Lemma Zdigits2_bounds m : 0 < m -> 2 ^ (Zdigits2 m - 1) <= m < 2 ^ Zdigits2 m.
Proof.
  intros H. rewrite Zdigits2_log2 by assumption.
  replace (Z.log2 m + 1 - 1) with (Z.log2 m) by lia.
  replace (Z.log2 m + 1) with (Z.succ (Z.log2 m)) by lia.
  apply Z.log2_spec. assumption.
Qed.

Lemma Zdigits2_le m n : 0 <= m <= n -> Zdigits2 m <= Zdigits2 n.
Proof.
  intros [H0 H]. destruct (Z.eq_dec m 0) as [->|].
  - apply Zdigits2_nonneg.
  - rewrite !Zdigits2_log2 by lia. pose proof (Z.log2_le_mono m n H). lia.
Qed.

Lemma Zdigits2_lt_pow m d : 0 <= m -> 0 <= d -> m < 2 ^ d -> Zdigits2 m <= d.
Proof.
  intros H0 Hd H. destruct (Z.eq_dec m 0) as [->|]; [simpl; lia|].
  rewrite Zdigits2_log2 by lia.
  assert (Z.log2 m < d) by (apply Z.log2_lt_pow2; lia). lia.
Qed.

Lemma Zdigits2_ge_pow m d : 0 <= d -> 2 ^ d <= m -> d + 1 <= Zdigits2 m.
Proof.
  intros Hd H. assert (0 < m) by (pose proof (Z.pow_pos_nonneg 2 d); lia).
  rewrite Zdigits2_log2 by lia.
  assert (d <= Z.log2 m) by (apply Z.log2_le_pow2; lia). lia.
Qed.

Lemma Zdigits2_div_pow m k :
  0 <= m -> 0 <= k -> Zdigits2 (m / 2 ^ k) = Z.max 0 (Zdigits2 m - k).
Proof.
  intros Hm Hk.
  destruct (Z.eq_dec m 0) as [->|Hm0].
  { rewrite Z.div_0_l by (apply Z.pow_nonzero; lia). simpl. lia. }
  pose proof (Zdigits2_bounds m ltac:(lia)) as [Hlo Hhi].
  pose proof (Zdigits2_nonneg m) as Hd.
  assert (Hd1 : 1 <= Zdigits2 m) by (rewrite Zdigits2_log2 by lia; pose proof (Z.log2_nonneg m); lia).
  destruct (Z_lt_le_dec (Zdigits2 m - k) 1) as [Hs|Hs].
  - (* quotient is zero *)
    rewrite Z.div_small; [simpl; lia|].
    split; [lia|]. apply Z.lt_le_trans with (1 := Hhi).
    apply Z.pow_le_mono_r; lia.
  - assert (Hq : 2 ^ (Zdigits2 m - k - 1) <= m / 2 ^ k < 2 ^ (Zdigits2 m - k)).
    { assert (Hp : 0 < 2 ^ k) by (apply Z.pow_pos_nonneg; lia).
      split.
      - apply Z.div_le_lower_bound; [lia|].
        rewrite <- Z.pow_add_r by lia.
        replace (k + (Zdigits2 m - k - 1)) with (Zdigits2 m - 1) by lia. exact Hlo.
      - apply Z.div_lt_upper_bound; [lia|].
        rewrite <- Z.pow_add_r by lia.
        replace (k + (Zdigits2 m - k)) with (Zdigits2 m) by lia. exact Hhi. }
    assert (0 < m / 2 ^ k).
    { pose proof (Z.pow_pos_nonneg 2 (Zdigits2 m - k - 1)); lia. }
    rewrite Zdigits2_log2 by lia.
    rewrite (Z.log2_unique (m / 2 ^ k) (Zdigits2 m - k - 1)); [lia|lia|].
    replace (Z.succ (Zdigits2 m - k - 1)) with (Zdigits2 m - k) by lia. exact Hq.
Qed.

Lemma Zdigits2_succ m : 0 <= m -> Zdigits2 (m + 1) <= Zdigits2 m + 1.
Proof.
  intros Hm. destruct (Z.eq_dec m 0) as [->|]; [simpl; lia|].
  pose proof (Zdigits2_bounds m ltac:(lia)) as [_ Hhi].
  apply Zdigits2_lt_pow; [lia|pose proof (Zdigits2_nonneg m); lia|].
  rewrite Z.pow_add_r by (pose proof (Zdigits2_nonneg m); lia). lia.
Qed.

Lemma shr_1_m mrs : 0 <= shr_m mrs -> shr_m (shr_1 mrs) = shr_m mrs / 2.
Proof.
  destruct mrs as [m r s]. simpl. intros Hm.
  destruct m as [|q|q]; [reflexivity| |lia].
  destruct q as [p|p|]; simpl.
  - change (Zpos p~1) with (2 * Zpos p + 1).
    apply Z.div_unique with 1; lia.
  - change (Zpos p~0) with (2 * Zpos p).
    apply Z.div_unique with 0; lia.
  - reflexivity.
Qed.

Lemma iter_pos_shr_m p : forall mrs,
  0 <= shr_m mrs -> shr_m (iter_pos shr_1 p mrs) = shr_m mrs / 2 ^ Zpos p.
Proof.
  assert (Hnn : forall m k, 0 <= m -> 0 <= m / 2 ^ Zpos k).
  { intros. apply Z.div_pos; [assumption|apply Z.pow_pos_nonneg; lia]. }
  induction p as [p IH|p IH|]; intros mrs Hm; simpl iter_pos.
  - assert (H1 : 0 <= shr_m (shr_1 mrs)) by (rewrite shr_1_m by assumption; apply Z.div_pos; lia).
    rewrite IH, IH, shr_1_m; try assumption.
    2:{ rewrite IH by assumption. apply Hnn; assumption. }
    assert (Hp : 0 < 2 ^ Zpos p) by (apply Z.pow_pos_nonneg; lia).
    rewrite !Z.div_div by lia.
    f_equal. replace (Zpos p~1) with (1 + Zpos p + Zpos p) by lia.
    rewrite !Z.pow_add_r by lia. change (2 ^ 1) with 2. lia.
  - rewrite IH, IH; try assumption.
    2:{ rewrite IH by assumption. apply Hnn; assumption. }
    assert (Hp : 0 < 2 ^ Zpos p) by (apply Z.pow_pos_nonneg; lia).
    rewrite !Z.div_div by lia.
    f_equal. replace (Zpos p~0) with (Zpos p + Zpos p) by lia.
    rewrite Z.pow_add_r by lia. reflexivity.
  - rewrite shr_1_m by assumption. reflexivity.
Qed.

Lemma shr_m_of_loc m l : shr_m (shr_record_of_loc m l) = m.
Proof. destruct l as [|[]]; reflexivity. Qed.

Lemma shr_spec mrs e n :
  0 <= shr_m mrs ->
  shr_m (fst (shr mrs e n)) = shr_m mrs / 2 ^ Z.max 0 n
  /\ snd (shr mrs e n) = e + Z.max 0 n.
Proof.
  intros Hm. destruct n as [|p|p]; simpl.
  - rewrite Z.div_1_r. lia.
  - rewrite iter_pos_shr_m by assumption. split; reflexivity.
  - rewrite Z.div_1_r. lia.
Qed.

Lemma round_nearest_even_bounds m l :
  m <= round_nearest_even m l <= m + 1.
Proof. destruct l as [|[]]; simpl; try lia. destruct (Z.even m); lia. Qed.



Lemma binary_round_aux_spec sx mx ex lx :
  0 <= mx ->
  exists m1,
    let k := shift_of mx ex in
    let e1 := ex + k in
    let k2 := shift_of m1 e1 in
    mx / 2 ^ k <= m1 <= mx / 2 ^ k + 1
    /\ bra sx mx ex lx = pack sx (m1 / 2 ^ k2) (e1 + k2).
Proof.
  intros Hmx. unfold binary_round_aux, shr_fexp.
  pose proof (shr_spec (shr_record_of_loc mx lx) ex (fexp (Zdigits2 mx + ex) - ex)) as H1.
  rewrite shr_m_of_loc in H1. specialize (H1 Hmx).
  destruct (shr (shr_record_of_loc mx lx) ex (fexp (Zdigits2 mx + ex) - ex)) as [mrs' e'].
  simpl in H1. destruct H1 as [H1m H1e].
  set (m1 := round_nearest_even (shr_m mrs') (loc_of_shr_record mrs')).
  exists m1. cbv zeta. unfold shift_of at 1 2.
  pose proof (round_nearest_even_bounds (shr_m mrs') (loc_of_shr_record mrs')) as Hr.
  fold m1 in Hr. rewrite H1m in Hr. split; [exact Hr|].
  assert (Hm1 : 0 <= m1).
  { assert (0 <= mx / 2 ^ Z.max 0 (fexp (Zdigits2 mx + ex) - ex)).
    { apply Z.div_pos; [assumption|apply Z.pow_pos_nonneg; lia]. }
    lia. }
  pose proof (shr_spec (shr_record_of_loc m1 loc_Exact) e' (fexp (Zdigits2 m1 + e') - e')) as H2.
  rewrite shr_m_of_loc in H2. specialize (H2 Hm1).
  destruct (shr (shr_record_of_loc m1 loc_Exact) e' (fexp (Zdigits2 m1 + e') - e')) as [mrs'' e''].
  simpl in H2. destruct H2 as [H2m H2e].
  rewrite H2m, H2e, H1e. unfold shift_of, pack. reflexivity.
Qed.

Lemma shift_of_nonneg m e : 0 <= shift_of m e.
Proof. unfold shift_of. lia. Qed.

Lemma pow2_pos k : 0 < 2 ^ Z.max 0 k.
Proof. apply Z.pow_pos_nonneg; lia. Qed.


Lemma pack_shaped sx m1 e1 :
  0 <= m1 -> shaped sx (pack sx (m1 / 2 ^ shift_of m1 e1) (e1 + shift_of m1 e1)).
Proof.
  intros Hm1. unfold pack.
  pose proof (Zdigits2_div_pow m1 (shift_of m1 e1) Hm1 (shift_of_nonneg _ _)) as Hd.
  destruct (m1 / 2 ^ shift_of m1 e1) as [|p|p] eqn:Hq; cbn [shaped]; trivial.
  - destruct (_ <=? _) eqn:He; cbn [shaped]; [|reflexivity].
    split; [reflexivity|]. split; [|lia].
    rewrite Hd. unfold shift_of. rewrite fexp_eq. lia.
  - assert (0 <= m1 / 2 ^ shift_of m1 e1).
    { apply Z.div_pos; [assumption|]. apply Z.pow_pos_nonneg; [lia|apply shift_of_nonneg]. }
    lia.
Qed.

Lemma bra_shaped sx mx ex lx : 0 <= mx -> shaped sx (bra sx mx ex lx).
Proof.
  intros Hmx. destruct (binary_round_aux_spec sx mx ex lx Hmx) as [m1 [Hm1 ->]].
  apply pack_shaped.
  assert (0 <= mx / 2 ^ shift_of mx ex).
  { apply Z.div_pos; [assumption|]. apply Z.pow_pos_nonneg; [lia|apply shift_of_nonneg]. }
  lia.
Qed.

(** No overflow when the input is below [2^1024]. *)
Lemma bra_not_inf sx mx ex lx s :
  0 <= mx -> ex <= 971 -> Zdigits2 mx + ex <= 1023 ->
  bra sx mx ex lx <> S754_infinity s.
Proof.
  intros Hmx Hex HD. destruct (binary_round_aux_spec sx mx ex lx Hmx) as [m1 [Hm1 ->]].
  cbv zeta in Hm1.
  set (k := shift_of mx ex) in *.
  assert (Hk : 0 <= k) by apply shift_of_nonneg.
  assert (Hfl : 0 <= mx / 2 ^ k).
  { apply Z.div_pos; [assumption|apply Z.pow_pos_nonneg; lia]. }
  assert (Hdm1 : Zdigits2 m1 <= Z.max 0 (Zdigits2 mx - k) + 1).
  { rewrite <- Zdigits2_div_pow by assumption.
    etransitivity; [apply (Zdigits2_le m1 (mx / 2 ^ k + 1)); lia|].
    apply Zdigits2_succ; assumption. }
  unfold pack.
  destruct (m1 / 2 ^ shift_of m1 (ex + k)) as [|p|p]; try discriminate.
  destruct (_ <=? _) eqn:He; [discriminate|].
  exfalso. apply Z.leb_gt in He.
  unfold shift_of in He. subst k. unfold shift_of in *.
  rewrite !fexp_eq in *. lia.
Qed.

(** Above the subnormal range, rounding neither loses the order of
    magnitude nor goes below the truncated mantissa. *)
Lemma bra_lower sx mx ex lx :
  0 < mx -> -1021 <= Zdigits2 mx + ex ->
  let k := Z.max 0 (Zdigits2 mx - 53) in
  match bra sx mx ex lx with
  | S754_finite _ p e =>
      ex + k <= e
      /\ Zdigits2 mx + ex <= Zdigits2 (Zpos p) + e
      /\ (e = ex + k -> mx / 2 ^ k <= Zpos p)
  | S754_infinity _ => True
  | _ => False
  end.
Proof.
  intros Hmx HD k.
  destruct (binary_round_aux_spec sx mx ex lx ltac:(lia)) as [m1 [Hm1 ->]].
  cbv zeta in Hm1.
  assert (Hk : shift_of mx ex = k).
  { unfold shift_of, k. rewrite fexp_eq. lia. }
  rewrite Hk in *.
  assert (Hk0 : 0 <= k) by (unfold k; lia).
  pose proof (Zdigits2_div_pow mx k ltac:(lia) Hk0) as Hdfl.
  assert (Hd1 : 1 <= Zdigits2 mx) by (pose proof (Zdigits2_ge_pow mx 0); lia).
  assert (Hfl : 0 <= mx / 2 ^ k).
  { apply Z.div_pos; [lia|apply Z.pow_pos_nonneg; lia]. }
  assert (Hdm1 : Zdigits2 (mx / 2 ^ k) <= Zdigits2 m1) by (apply Zdigits2_le; lia).
  set (k2 := shift_of m1 (ex + k)).
  assert (Hk2 : k2 = Z.max 0 (Zdigits2 m1 - 53)).
  { unfold k2, shift_of. rewrite fexp_eq. unfold k in *. lia. }
  assert (Hk20 : 0 <= k2) by lia.
  pose proof (Zdigits2_div_pow m1 k2 ltac:(lia) Hk20) as Hdp.
  unfold pack.
  destruct (m1 / 2 ^ k2) as [|p|p] eqn:Hq.
  - simpl in Hdp. unfold k in *. lia.
  - destruct (_ <=? _); [|exact I].
    split; [lia|]. split; [unfold k in *; lia|].
    intros He. assert (k2 = 0) by lia.
    replace k2 with 0 in Hq by lia. rewrite Z.pow_0_r, Z.div_1_r in Hq. lia.
  - assert (0 <= m1 / 2 ^ k2) by (apply Z.div_pos; [lia|apply Z.pow_pos_nonneg; lia]).
    lia.
Qed.

Lemma pos_iter_xO p n : Zpos (Pos.iter xO p n) = Zpos p * 2 ^ Zpos n.
Proof.
  rewrite <- (Pos2Z.inj_pow 2 n), <- Pos2Z.inj_mul. f_equal.
  revert p. induction n using Pos.peano_ind; intros p.
  - rewrite Pos.pow_1_r. simpl. lia.
  - rewrite Pos.iter_succ, IHn, Pos.pow_succ_r. lia.
Qed.

Lemma Zdigits2_mul_pow m k : 0 < m -> 0 <= k -> Zdigits2 (m * 2 ^ k) = Zdigits2 m + k.
Proof.
  intros Hm Hk.
  assert (0 < 2 ^ k) by (apply Z.pow_pos_nonneg; lia).
  rewrite !Zdigits2_log2 by nia.
  rewrite Z.log2_mul_pow2 by lia. lia.
Qed.

Lemma shl_align_spec mx ex ex' :
  let '(mz, ez) := shl_align mx ex ex' in
  Zdigits2 (Zpos mz) + ez = Zdigits2 (Zpos mx) + ex /\ ez = Z.min ex ex'
  /\ Zpos mz = Zpos mx * 2 ^ (ex - ez).
Proof.
  unfold shl_align. destruct (ex' - ex) as [|d|d] eqn:Hd.
  - replace (ex - ex) with 0 by lia. rewrite Z.pow_0_r. lia.
  - replace (ex - ex) with 0 by lia. rewrite Z.pow_0_r. lia.
  - rewrite pos_iter_xO. split; [|split; [lia|]].
    + rewrite Zdigits2_mul_pow by lia. lia.
    + f_equal. f_equal. lia.
Qed.

Lemma binary_round_shaped sx mx ex : shaped sx (binary_round 53 1024 sx mx ex).
Proof.
  unfold binary_round. destruct (shl_align _ _ _) as [mz ez].
  apply bra_shaped. lia.
Qed.

Lemma binary_normalize_shaped m e : 0 <= m -> shaped false (binary_normalize 53 1024 m e false).
Proof.
  destruct m as [|p|p]; intros Hm; cbn [binary_normalize shaped].
  - reflexivity.
  - apply binary_round_shaped.
  - lia.
Qed.

(** ** The operations on non-negative floats *)

Lemma of_int_shaped n : 0 <= n -> shaped false (of_int n).
Proof. apply binary_normalize_shaped. Qed.

Lemma add_shaped x y : shaped false x -> shaped false y -> shaped false (x + y)%F.
Proof.
  destruct x as [sx|sx| |sx mx ex], y as [sy|sy| |sy my ey];
    cbn [shaped]; intros Hx Hy; try contradiction; subst;
    try (cbn [add SFadd shaped]; auto; fail).
  destruct Hx as [-> Hx], Hy as [-> Hy].
  unfold add, SFadd. cbn [cond_Zopp].
  apply binary_normalize_shaped. lia.
Qed.

Lemma add_zero_l x : shaped false x -> (zero + x)%F = x.
Proof.
  destruct x as [sx|sx| |sx mx ex]; cbn [shaped]; intros Hx; try contradiction;
    subst; reflexivity.
Qed.

Lemma add_zero_r x : shaped false x -> (x + zero)%F = x.
Proof.
  destruct x as [sx|sx| |sx mx ex]; cbn [shaped]; intros Hx; try contradiction;
    subst; reflexivity.
Qed.

Lemma mul_shaped_finite x my ey :
  shaped false x -> shaped false (x * S754_finite false my ey)%F.
Proof.
  destruct x as [sx|sx| |sx mx ex]; cbn [shaped]; intros Hx; try contradiction;
    subst; try reflexivity.
  destruct Hx as [-> Hx]. unfold mul, SFmul. apply bra_shaped. lia.
Qed.

Lemma shaped_bounded sx x : shaped sx x -> bounded x.
Proof. destruct x; cbn [shaped bounded]; tauto. Qed.

Lemma mul_bounded x y : bounded (x * y)%F.
Proof.
  destruct x as [sx|sx| |sx mx ex], y as [sy|sy| |sy my ey];
    try exact I.
  unfold mul, SFmul. apply (shaped_bounded (xorb sx sy)). apply bra_shaped. lia.
Qed.

Lemma py_max_zero_shaped x : bounded x -> shaped false (py_max zero x).
Proof.
  unfold py_max, ltb, SFltb, zero.
  destruct x as [sx|[|]| |[|] mx ex]; cbn [SFcompare shaped bounded]; auto.
Qed.

Lemma py_min_shaped x y : shaped false x -> shaped false y -> shaped false (py_min x y).
Proof. unfold py_min. destruct (ltb y x); auto. Qed.

Lemma div_core_exact p q :
  let '(mz, ez, lz) := SFdiv_core_binary 53 1024 (Zpos p) 0 (Zpos q) 0 in
  (Zpos p * 2 ^ (- ez)) mod Zpos q = 0 -> lz = loc_Exact.
Proof.
  unfold SFdiv_core_binary.
  rewrite !Z.add_0_r. change (0 - 0) with 0.
  set (e' := Z.min (fexp (Zdigits2 (Zpos p) - Zdigits2 (Zpos q))) 0).
  assert (He : e' <= 0) by (unfold e'; lia).
  set (m' := match 0 - e' with Z0 => Zpos p | Zpos _ => Z.shiftl (Zpos p) (0 - e') | Zneg _ => 0 end).
  assert (Hm : m' = Zpos p * 2 ^ (- e')).
  { unfold m'. replace (0 - e') with (- e') by lia.
    destruct (- e') as [|k|k] eqn:Hk.
    - rewrite Z.pow_0_r. lia.
    - rewrite Z.shiftl_mul_pow2 by lia. reflexivity.
    - lia. }
  destruct (Z.div_eucl m' (Zpos q)) as [q' r'] eqn:Hdiv.
  intros Hr. rewrite <- Hm in Hr.
  unfold Z.modulo in Hr. rewrite Hdiv in Hr. subst r'.
  unfold new_location, new_location_even, new_location_odd.
  destruct (Z.even (Zpos q)); reflexivity.
Qed.

Lemma div_core_quot p q :
  let '(mz, ez, lz) := SFdiv_core_binary 53 1024 (Zpos p) 0 (Zpos q) 0 in
  ez = Z.min (fexp (Zdigits2 (Zpos p) - Zdigits2 (Zpos q))) 0
  /\ mz = (Zpos p * 2 ^ (- ez)) / Zpos q.
Proof.
  unfold SFdiv_core_binary.
  rewrite !Z.add_0_r. change (0 - 0) with 0.
  set (e' := Z.min (fexp (Zdigits2 (Zpos p) - Zdigits2 (Zpos q))) 0).
  assert (He : e' <= 0) by (unfold e'; lia).
  set (m' := match 0 - e' with Z0 => Zpos p | Zpos _ => Z.shiftl (Zpos p) (0 - e') | Zneg _ => 0 end).
  assert (Hm : m' = Zpos p * 2 ^ (- e')).
  { unfold m'. replace (0 - e') with (- e') by lia.
    destruct (- e') as [|k|k] eqn:Hk.
    - rewrite Z.pow_0_r. lia.
    - rewrite Z.shiftl_mul_pow2 by lia. reflexivity.
    - lia. }
  destruct (Z.div_eucl m' (Zpos q)) as [q' r'] eqn:Hdiv.
  split; [reflexivity|]. rewrite <- Hm. unfold Z.div. rewrite Hdiv. reflexivity.
Qed.

Lemma div_exact_shaped a b : 0 <= a -> 0 < b -> shaped false (div (exact a) (exact b)).
Proof.
  intros Ha Hb. destruct a as [|p|p], b as [|q|q]; try lia; try reflexivity.
  unfold div, exact, SFdiv, prec, emax. cbn [xorb].
  pose proof (div_core_quot p q) as Hc.
  destruct (SFdiv_core_binary 53 1024 (Zpos p) 0 (Zpos q) 0) as [[mz ez] lz].
  destruct Hc as [He Hm].
  apply bra_shaped. subst mz. apply Z.div_pos; [|lia].
  apply Z.mul_nonneg_nonneg; [lia|]. apply Z.pow_nonneg. lia.
Qed.

(** A quotient of at most one does not overflow. *)
Lemma int_truediv_le a b :
  0 <= a <= b -> 0 < b ->
  exists q, int_truediv a b = Ok q /\ shaped false q.
Proof.
  intros Ha Hb. unfold int_truediv.
  destruct (Z.eqb_spec b 0) as [|_]; [lia|].
  pose proof (div_exact_shaped a b ltac:(lia) Hb) as Hs.
  assert (Hni : forall s, div (exact a) (exact b) <> S754_infinity s).
  { destruct a as [|p|p], b as [|q|q]; try lia; try discriminate.
    unfold div, exact, SFdiv, prec, emax. cbn [xorb].
    pose proof (div_core_quot p q) as Hc.
    destruct (SFdiv_core_binary 53 1024 (Zpos p) 0 (Zpos q) 0) as [[mz ez] lz].
    destruct Hc as [He Hm]. intros s.
    assert (Hez : ez <= 0) by lia.
    assert (Hp2 : 0 < 2 ^ (- ez)) by (apply Z.pow_pos_nonneg; lia).
    assert (Hmz : 0 <= mz <= 2 ^ (- ez)).
    { subst mz. split.
      - apply Z.div_pos; nia.
      - apply Z.div_le_upper_bound; [lia|]. nia. }
    apply bra_not_inf; [lia|lia|].
    assert (Zdigits2 mz <= - ez + 1); [|lia].
    apply Zdigits2_lt_pow; [lia|lia|].
    rewrite Z.pow_add_r by lia. lia. }
  destruct (div (exact a) (exact b)) as [s|s| |s m e] eqn:Hd.
  - eexists; split; [reflexivity|exact Hs].
  - exfalso. exact (Hni s eq_refl).
  - contradiction.
  - eexists; split; [reflexivity|exact Hs].
Qed.

(** A number divided by itself is exactly one. *)
Lemma div_exact_same n : 0 < n -> div (exact n) (exact n) = one.
Proof.
  intros Hn. destruct n as [|p|p]; try lia.
  unfold div, exact, SFdiv, prec, emax. cbn [xorb].
  pose proof (div_core_exact p p) as Hc.
  pose proof (div_core_quot p p) as Hq.
  destruct (SFdiv_core_binary 53 1024 (Zpos p) 0 (Zpos p) 0) as [[mz ez] lz].
  destruct Hq as [He Hm].
  replace (Zdigits2 (Zpos p) - Zdigits2 (Zpos p)) with 0 in He by lia.
  change (Z.min (fexp 0) 0) with (-53) in He. subst ez.
  change (- -53) with 53 in *.
  rewrite (Z.mul_comm (Zpos p)) in Hm, Hc.
  rewrite Z.div_mul in Hm by lia. rewrite Z.mod_mul in Hc by lia.
  rewrite Hc by reflexivity. subst mz. vm_compute. reflexivity.
Qed.

(** ** Saturation of the location score *)

Lemma of_int_lower n :
  2 <= n ->
  of_int n = S754_infinity false
  \/ exists p e, of_int n = S754_finite false p e
       /\ Zdigits2 (Zpos p) <= 53 /\ 2 <= Zdigits2 (Zpos p) + e.
Proof.
  intros Hn. pose proof (of_int_shaped n ltac:(lia)) as Hs.
  destruct n as [|q|q]; try lia.
  unfold of_int, binary_normalize, binary_round, prec, emax in *.
  pose proof (shl_align_spec q 0 (fexp (Zpos (digits2_pos q) + 0))) as Ha.
  destruct (shl_align q 0 (fexp (Zpos (digits2_pos q) + 0))) as [mz ez].
  destruct Ha as [Hd _].
  assert (Hq : 2 <= Zdigits2 (Zpos q)).
  { pose proof (Zdigits2_ge_pow (Zpos q) 1); lia. }
  pose proof (bra_lower false (Zpos mz) ez loc_Exact ltac:(lia) ltac:(lia)) as Hl.
  cbv zeta in Hl.
  destruct (bra false (Zpos mz) ez loc_Exact) as [s|s| |s p e];
    cbn [shaped] in Hs; try contradiction.
  - subst s. left. reflexivity.
  - destruct Hs as [-> [Hp _]]. right. exists p, e.
    split; [reflexivity|]. split; [exact Hp|]. lia.
Qed.

Lemma mul_two_and_half_lower p e :
  2 <= Zdigits2 (Zpos p) + e ->
  py_min (S754_finite false p e * two_and_half)%F five = five.
Proof.
  intros Hmag. unfold mul, SFmul, two_and_half, prec, emax. cbn [xorb].
  set (M := Zpos (p * 5629499534213120)).
  set (E := e + -51).
  assert (HM : M = Zpos p * 5629499534213120) by reflexivity.
  assert (HE : E = e - 51) by reflexivity.
  clearbody M E.
  assert (Hd1 : 1 <= Zdigits2 (Zpos p)) by (pose proof (Zdigits2_ge_pow (Zpos p) 0); lia).
  assert (HdM : Zdigits2 (Zpos p) + 52 <= Zdigits2 M).
  { rewrite <- (Zdigits2_mul_pow (Zpos p) 52) by lia.
    apply Zdigits2_le. rewrite HM. change (2 ^ 52) with 4503599627370496. lia. }
  pose proof (bra_shaped false M E loc_Exact ltac:(lia)) as Hs.
  pose proof (bra_lower false M E loc_Exact ltac:(lia) ltac:(lia)) as Hl.
  cbv zeta in Hl.
  destruct (bra false M E loc_Exact) as [s|s| |s p' e'];
    cbn [shaped] in Hs; cbv beta iota in Hl; try contradiction.
  - subst s. reflexivity.
  - destruct Hs as [-> _]. destruct Hl as [He [_ Hm]].
    set (k := Z.max 0 (Zdigits2 M - 53)) in *.
    assert (Hk : 0 <= k) by (unfold k; lia).
    unfold py_min, ltb, SFltb, five. cbn [SFcompare].
    destruct (Z.compare_spec (-50) e') as [Heq|Hlt|Hgt].
    + (* same exponent as 5.0: the mantissa decides *)
      assert (Hp' : 5629499534213120 <= Zpos p').
      { etransitivity; [|apply Hm; unfold k in *; lia].
        apply Z.div_le_lower_bound; [apply Z.pow_pos_nonneg; lia|].
        rewrite HM.
        assert (2 ^ k <= Zpos p); [|nia].
        pose proof (Zdigits2_bounds (Zpos p) ltac:(lia)) as [Hlo _].
        etransitivity; [|exact Hlo].
        apply Z.pow_le_mono_r; [lia|]. unfold k in *. lia. }
      rewrite Pos.compare_cont_spec. cbn [Pos.switch_Eq].
      destruct (Pos.compare_spec 5629499534213120 p') as [Hc|Hc|Hc].
      * rewrite <- Hc, <- Heq. reflexivity.
      * reflexivity.
      * apply Pos2Z.pos_lt_pos in Hc. clear - Hc Hp'. lia.
    + reflexivity.
    + unfold k in *. lia.
Qed.

Lemma location_saturates n :
  2 <= n -> py_min (of_int n * two_and_half)%F five = five.
Proof.
  intros Hn. destruct (of_int_lower n Hn) as [->|[p [e [-> [_ Hmag]]]]].
  - reflexivity.
  - apply mul_two_and_half_lower. exact Hmag.
Qed.

(** ** The final rounding stays within [0, 10] *)

Lemma rne_div_bounds n d b :
  0 < d -> 0 <= n <= b * d -> 0 <= rne_div n d <= b.
Proof.
  intros Hd [Hn Hb]. unfold rne_div.
  pose proof (Z.div_mod n d ltac:(lia)) as Hdm.
  pose proof (Z.mod_pos_bound n d Hd) as Hr.
  assert (Hq0 : 0 <= n / d) by (apply Z.div_pos; lia).
  assert (Hqb : n / d <= b) by (apply Z.div_le_upper_bound; lia).
  assert (Hlt : n / d = b -> n mod d = 0) by nia.
  destruct (Z.compare_spec (2 * (n mod d)) d) as [He|Hl|Hg].
  - destruct (Z.even (n / d)); [lia|].
    assert (n / d <> b) by (intros Hq; specialize (Hlt Hq); lia). lia.
  - lia.
  - assert (n / d <> b) by (intros Hq; specialize (Hlt Hq); lia). lia.
Qed.

Lemma all_upto_spec f n :
  all_upto f n = true -> forall t, (Pos.to_nat t <= n)%nat -> f t = true.
Proof.
  induction n as [|n IH]; cbn [all_upto]; intros H t Ht.
  - pose proof (Pos2Nat.is_pos t). lia.
  - apply andb_prop in H as [H1 H2].
    destruct (Nat.eq_dec (Pos.to_nat t) (S n)) as [Heq|Hne].
    + replace t with (Pos.of_succ_nat n); [exact H1|].
      apply Pos2Nat.inj. rewrite SuccNat2Pos.id_succ. lia.
    + apply IH; [exact H2|lia].
Qed.

Lemma tenths_in_range t :
  Zpos t <= 100 -> in_range (div (S754_finite false t 0) (exact 10)) = true.
Proof.
  intros Ht.
  apply (all_upto_spec (fun t => in_range (div (S754_finite false t 0) (exact 10))) 100).
  - vm_compute. reflexivity.
  - lia.
Qed.

Lemma round1_in_range s :
  shaped false s -> in_range (round1 (py_min s ten)) = true.
Proof.
  intros Hs. unfold py_min.
  destruct (ltb ten s) eqn:Hlt; [vm_compute; reflexivity|].
  destruct s as [sx|sx| |sx m e]; cbn [shaped] in Hs; try contradiction.
  - subst sx. reflexivity.
  - subst sx. discriminate Hlt.
  - destruct Hs as [-> [Hd _]].
    unfold ltb, SFltb, ten in Hlt. cbn [SFcompare] in Hlt.
    rewrite Pos.compare_cont_spec in Hlt. cbn [Pos.switch_Eq] in Hlt.
    assert (Hm : Zpos m < 2 ^ 53).
    { pose proof (Zdigits2_bounds (Zpos m) ltac:(lia)) as [_ Hhi].
      apply Z.lt_le_trans with (1 := Hhi). apply Z.pow_le_mono_r; lia. }
    change (2 ^ 53) with 9007199254740992 in Hm.
    assert (He : e <= -50 \/ e = -49 /\ Zpos m <= 5629499534213120).
    { destruct (Z.compare_spec (-49) e) as [Heq|Hl|Hg]; [|discriminate|lia].
      right. split; [lia|].
      destruct (Pos.compare_spec 5629499534213120 m) as [Hc|Hc|Hc];
        [|discriminate|].
      - rewrite <- Hc. lia.
      - apply Pos2Z.pos_lt_pos in Hc. lia. }
    clear Hlt Hd.
    unfold round1.
    destruct (Z.leb_spec 0 e) as [Hpos|Hneg]; [lia|].
    assert (Hb : 0 <= rne_div (10 * Zpos m) (2 ^ (- e)) <= 100).
    { apply rne_div_bounds; [apply Z.pow_pos_nonneg; lia|].
      split; [lia|].
      destruct He as [He|[-> Hm5]].
      - assert (2 ^ 50 <= 2 ^ (- e)) by (apply Z.pow_le_mono_r; lia).
        change (2 ^ 50) with 1125899906842624 in *. lia.
      - change (2 ^ (- -49)) with 562949953421312. lia. }
    destruct (rne_div (10 * Zpos m) (2 ^ (- e))) as [|t|t]; try reflexivity.
    apply tenths_in_range. lia.
Qed.

Lemma round1_shaped s : shaped false s -> shaped false (round1 (py_min s ten)).
Proof.
  intros Hs. assert (Hm : shaped false (py_min s ten)).
  { apply py_min_shaped; [exact Hs|]. cbn. repeat split; reflexivity || lia. }
  destruct (py_min s ten) as [sx|sx| |sx m e]; cbn [shaped round1] in *;
    try assumption.
  destruct Hm as [-> _].
  destruct (if 0 <=? e then 10 * Z.pos m * 2 ^ e else rne_div (10 * Z.pos m) (2 ^ (- e)))
    as [|t|t]; try reflexivity.
  apply (div_exact_shaped (Zpos t) 10); lia.
Qed.

(** ** Sets and truth values *)

Lemma set_truthy_true (X : gset string) : set_truthy X = true <-> X ≠ ∅.
Proof.
  unfold set_truthy. rewrite negb_true_iff, bool_decide_eq_false. reflexivity.
Qed.

Lemma set_truthy_false (X : gset string) : set_truthy X = false <-> X = ∅.
Proof.
  unfold set_truthy. rewrite negb_false_iff, bool_decide_eq_true. reflexivity.
Qed.

Lemma len_nonneg (X : gset string) : 0 <= len X.
Proof. unfold len. lia. Qed.

Lemma len_pos (X : gset string) : X ≠ ∅ -> 0 < len X.
Proof.
  intros HX. unfold len.
  assert (size X ≠ 0%nat) by (intros H0; apply size_empty_inv in H0; apply HX; apply leibniz_equiv, H0).
  lia.
Qed.

Lemma len_inter_le_union (X Y : gset string) : len (X ∩ Y) <= len (X ∪ Y).
Proof.
  unfold len. apply Nat2Z.inj_le. apply subseteq_size.
  etrans; [apply intersection_subseteq_l|apply union_subseteq_l].
Qed.

(** ** The three components *)

Lemma two_and_half_finite : two_and_half = S754_finite false 5629499534213120 (-51).
Proof. reflexivity. Qed.

Lemma location_component_shaped a b : shaped false (location_component a b).
Proof.
  unfold location_component.
  destruct (_ && _); [|reflexivity].
  destruct (set_truthy _); [|reflexivity].
  apply py_min_shaped.
  - rewrite two_and_half_finite. apply mul_shaped_finite.
    apply of_int_shaped, len_nonneg.
  - cbn. repeat split; reflexivity || lia.
Qed.

Lemma budget_component_shaped a b c :
  budget_component a b = Ok c -> shaped false c.
Proof.
  unfold budget_component.
  destruct (_ && _); [|intros [= <-]; reflexivity].
  destruct (0 <? _); [|intros [= <-]; reflexivity].
  destruct (int_truediv _ _) as [d|]; cbn [bind]; [|discriminate].
  intros Hc. injection Hc as <-.
  exact (py_max_zero_shaped (three * (one - d))%F (mul_bounded three (one - d)%F)).
Qed.

Lemma budget_component_ok a b :
  well_formed a -> well_formed b ->
  exists c, budget_component a b = Ok c /\ shaped false c.
Proof.
  unfold well_formed. intros Ha Hb.
  assert (H : exists c, budget_component a b = Ok c).
  { unfold budget_component.
    destruct (_ && _); [|eexists; reflexivity].
    destruct (Z.ltb_spec 0 (Z.max (default 0 (budget a)) (default 0 (budget b))))
      as [Hmax|_]; [|eexists; reflexivity].
    destruct (int_truediv_le
                (Z.abs (default 0 (budget a) - default 0 (budget b)))
                (Z.max (default 0 (budget a)) (default 0 (budget b))))
      as [q [-> _]]; [|exact Hmax|eexists; reflexivity].
    destruct (budget a), (budget b); simpl in *; lia. }
  destruct H as [c Hc]. exists c. split; [exact Hc|].
  eapply budget_component_shaped, Hc.
Qed.

Lemma lifestyle_component_ok a b :
  exists c, lifestyle_component a b = Ok c /\ shaped false c.
Proof.
  unfold lifestyle_component.
  destruct (_ && _); [|eexists; split; reflexivity].
  destruct (set_truthy (_ ∪ _)) eqn:Hu; [|eexists; split; reflexivity].
  apply set_truthy_true in Hu.
  destruct (int_truediv_le (len (lifestyle_set a ∩ lifestyle_set b))
              (len (lifestyle_set a ∪ lifestyle_set b)))
    as [q [-> Hq]].
  - split; [apply len_nonneg|apply len_inter_le_union].
  - apply len_pos, Hu.
  - cbn [bind]. eexists; split; [reflexivity|].
    change two with (S754_finite false 4503599627370496 (-51)).
    apply mul_shaped_finite, Hq.
Qed.

(** [calculate_compatibility] adds the three components, in this order,
    to a zero score, then clamps and rounds. *)
Lemma calculate_compatibility_components a b :
  calculate_compatibility a b =
    let* c2 := budget_component a b in
    let* c3 := lifestyle_component a b in
    Ok (round1 (py_min (location_component a b + c2 + c3)%F ten)).
Proof.
  pose proof (location_component_shaped a b) as H1.
  assert (Hs1 :
    (if set_truthy (locations_set a) && set_truthy (locations_set b)
     then if set_truthy (locations_set a ∩ locations_set b)
          then (zero + py_min (of_int (len (locations_set a ∩ locations_set b)) * two_and_half) five)%F
          else zero
     else zero) = location_component a b).
  { unfold location_component in *.
    destruct (_ && _); [|reflexivity].
    destruct (set_truthy _); [|reflexivity].
    apply add_zero_l, H1. }
  unfold calculate_compatibility. cbv zeta. rewrite Hs1. clear Hs1.
  set (c1 := location_component a b) in *.
  pose proof (budget_component_shaped a b) as H2.
  unfold budget_component in *.
  destruct (int_truthy (budget a) && int_truthy (budget b)).
  2:{ cbn [bind]. rewrite (add_zero_r c1 H1).
      destruct (lifestyle_component_ok a b) as [c3 [Hc3 Hs3]].
      unfold lifestyle_component in *.
      destruct (_ && _); [|injection Hc3 as <-; cbn [bind]; rewrite add_zero_r; auto].
      destruct (set_truthy (_ ∪ _)); [|injection Hc3 as <-; cbn [bind]; rewrite add_zero_r; auto].
      destruct (int_truediv _ _); cbn [bind]; reflexivity. }
  destruct (0 <? _).
  2:{ cbn [bind]. rewrite (add_zero_r c1 H1).
      destruct (lifestyle_component_ok a b) as [c3 [Hc3 Hs3]].
      unfold lifestyle_component in *.
      destruct (_ && _); [|injection Hc3 as <-; cbn [bind]; rewrite add_zero_r; auto].
      destruct (set_truthy (_ ∪ _)); [|injection Hc3 as <-; cbn [bind]; rewrite add_zero_r; auto].
      destruct (int_truediv _ _); cbn [bind]; reflexivity. }
  destruct (int_truediv (Z.abs _) _) as [d|e]; cbn [bind]; [|reflexivity].
  specialize (H2 _ eq_refl).
  set (c2 := py_max zero (three * (one - d))%F) in *.
  assert (H12 : shaped false (c1 + c2)%F) by (apply add_shaped; assumption).
  destruct (lifestyle_component_ok a b) as [c3 [Hc3 Hs3]].
  unfold lifestyle_component in *.
  destruct (_ && _); [|injection Hc3 as <-; cbn [bind]; rewrite add_zero_r; auto].
  destruct (set_truthy (_ ∪ _)); [|injection Hc3 as <-; cbn [bind]; rewrite add_zero_r; auto].
  destruct (int_truediv _ _); cbn [bind]; reflexivity.
Qed.

Lemma len_empty : len ∅ = 0.
Proof. reflexivity. Qed.

Lemma len_zero_empty (X : gset string) : len X = 0 -> X = ∅.
Proof.
  unfold len. intros H. apply leibniz_equiv, size_empty_inv.
  apply Nat2Z.inj. exact H.
Qed.

Lemma location_component_formula a b :
  location_component a b =
    if set_truthy (locations_set a) && set_truthy (locations_set b)
    then py_min (of_int (len (locations_set a ∩ locations_set b)) * two_and_half)%F five
    else zero.
Proof.
  unfold location_component.
  destruct (_ && _); [|reflexivity].
  destruct (set_truthy (_ ∩ _)) eqn:Hc; [reflexivity|].
  apply set_truthy_false in Hc. rewrite Hc. reflexivity.
Qed.

Lemma inter_nonempty (X Y : gset string) :
  X ∩ Y ≠ ∅ -> set_truthy X && set_truthy Y = true.
Proof.
  intros H. apply andb_true_iff. split; apply set_truthy_true; set_solver.
Qed.

Lemma location_component_values a b :
  let n := len (locations_set a ∩ locations_set b) in
  (n = 0 -> location_component a b = zero)
  /\ (n = 1 -> location_component a b = two_and_half)
  /\ (2 <= n -> location_component a b = five).
Proof.
  intros n. split; [|split]; intros Hn.
  - apply len_zero_empty in Hn. unfold location_component.
    destruct (_ && _); [|reflexivity].
    rewrite (proj2 (set_truthy_false _) Hn). reflexivity.
  - rewrite location_component_formula, inter_nonempty.
    + fold n. rewrite Hn. reflexivity.
    + intros He. fold n in Hn. unfold n in Hn. rewrite He in Hn. discriminate.
  - rewrite location_component_formula, inter_nonempty.
    + apply location_saturates. exact Hn.
    + intros He. unfold n in Hn. rewrite He, len_empty in Hn. lia.
Qed.

Lemma budget_component_equal a b z :
  0 < z -> budget a = Some z -> budget b = Some z ->
  budget_component a b = Ok three.
Proof.
  intros Hz Ha Hb. unfold budget_component. rewrite Ha, Hb.
  cbn [int_truthy default].
  destruct (Z.eqb_spec z 0) as [|_]; [lia|]. cbn [negb andb].
  rewrite Z.sub_diag, Z.max_id. change (Z.abs 0) with 0.
  destruct (Z.ltb_spec 0 z) as [_|]; [|lia].
  unfold int_truediv. destruct (Z.eqb_spec z 0) as [|_]; [lia|].
  destruct z as [|p|p]; try lia. reflexivity.
Qed.

Lemma lifestyle_component_self a :
  lifestyle_set a ≠ ∅ -> lifestyle_component a a = Ok two.
Proof.
  intros Hne. unfold lifestyle_component.
  assert (Hi : lifestyle_set a ∩ lifestyle_set a = lifestyle_set a) by set_solver.
  assert (Hu : lifestyle_set a ∪ lifestyle_set a = lifestyle_set a) by set_solver.
  rewrite Hi, Hu, (proj2 (set_truthy_true _) Hne). cbn [andb].
  pose proof (len_pos _ Hne) as Hpos.
  unfold int_truediv. destruct (Z.eqb_spec (len (lifestyle_set a)) 0) as [|_]; [lia|].
  rewrite div_exact_same by exact Hpos. reflexivity.
Qed.

(** * The scorer *)

(** C1.  For well-formed profiles the score is
    [round(min(c1 + c2 + c3, 10), 1)], where [c1], [c2] and [c3] are the
    location, budget and lifestyle components, and it lies in the closed
    interval from 0 to 10. *)
Theorem score_formula_and_range (a b : User) :
  well_formed a -> well_formed b ->
  exists c2 c3 r,
    budget_component a b = Ok c2
    /\ lifestyle_component a b = Ok c3
    /\ r = round1 (py_min (location_component a b + c2 + c3)%F ten)
    /\ calculate_compatibility a b = Ok r
    /\ leb zero r = true /\ leb r ten = true.
Proof.
  intros Ha Hb.
  destruct (budget_component_ok a b Ha Hb) as [c2 [Hc2 Hs2]].
  destruct (lifestyle_component_ok a b) as [c3 [Hc3 Hs3]].
  exists c2, c3, (round1 (py_min (location_component a b + c2 + c3)%F ten)).
  split; [exact Hc2|]. split; [exact Hc3|]. split; [reflexivity|].
  split.
  - rewrite calculate_compatibility_components, Hc2, Hc3. reflexivity.
  - apply andb_true_iff. apply round1_in_range.
    repeat apply add_shaped; try assumption. apply location_component_shaped.
Qed.

Lemma score_formula_and_range_witness :
  well_formed alice /\ well_formed bob
  /\ exists c2 c3 r,
       budget_component alice bob = Ok c2
       /\ lifestyle_component alice bob = Ok c3
       /\ r = round1 (py_min (location_component alice bob + c2 + c3)%F ten)
       /\ calculate_compatibility alice bob = Ok r
       /\ leb zero r = true /\ leb r ten = true.
Proof.
  assert (Ha : well_formed alice) by (unfold well_formed; simpl; lia).
  assert (Hb : well_formed bob) by (unfold well_formed; simpl; lia).
  split; [exact Ha|]. split; [exact Hb|].
  exact (score_formula_and_range alice bob Ha Hb).
Defined.

(** The end-to-end example of the specification: 2.5 + 2.25 + 0.667
    rounds to 5.4. *)
Example score_alice_bob : calculate_compatibility alice bob = Ok (tenths 54).
Proof. vm_compute. reflexivity. Qed.

(** C2, as stated, fails when both budgets are 0: a budget of 0 is a
    false value for the guard, so nothing is added. *)
Lemma budget_component_zero_budgets :
  budget zero_budget = Some 0
  /\ budget_component zero_budget zero_budget = Ok zero
  /\ budget_component zero_budget zero_budget <> Ok three.
Proof. split; [reflexivity|]. split; [reflexivity|discriminate]. Qed.

(** C2, amended.  When both budgets are present, equal and positive, the
    budget component is exactly 3.0. *)
Theorem budget_component_equal_positive (a b : User) (z : Z) :
  0 < z -> budget a = Some z -> budget b = Some z ->
  budget_component a b = Ok three.
Proof. apply budget_component_equal. Qed.

Lemma budget_component_equal_positive_witness :
  0 < 800 /\ budget alice = Some 800 /\ budget one_location = Some 800
  /\ budget_component alice one_location = Ok three.
Proof.
  assert (H : 0 < 800) by lia.
  split; [exact H|]. split; [reflexivity|]. split; [reflexivity|].
  exact (budget_component_equal_positive alice one_location 800 H eq_refl eq_refl).
Defined.

(** C3, as stated, fails for a profile with a single location: one
    shared location is worth 2.5, so the score against itself is 7.5. *)
Lemma self_score_one_location :
  locations_set one_location ≠ ∅
  /\ budget one_location = Some 800
  /\ lifestyle_set one_location ≠ ∅
  /\ calculate_compatibility one_location one_location = Ok (tenths 75)
  /\ calculate_compatibility one_location one_location <> Ok ten.
Proof.
  split; [apply set_truthy_true; vm_compute; reflexivity|].
  split; [reflexivity|].
  split; [apply set_truthy_true; vm_compute; reflexivity|].
  assert (H : calculate_compatibility one_location one_location = Ok (tenths 75))
    by (vm_compute; reflexivity).
  split; [exact H|]. rewrite H. vm_compute. discriminate.
Qed.

(** C3, amended.  A profile with at least two distinct locations, a
    positive budget and at least one lifestyle tag scores 10.0 against
    itself. *)
Theorem self_score_saturates (a : User) (z : Z) :
  2 <= len (locations_set a) ->
  budget a = Some z -> 0 < z ->
  lifestyle_set a ≠ ∅ ->
  calculate_compatibility a a = Ok ten.
Proof.
  intros Hloc Hb Hz Hlife.
  rewrite calculate_compatibility_components.
  rewrite (budget_component_equal a a z Hz Hb Hb).
  rewrite (lifestyle_component_self a Hlife). cbn [bind].
  destruct (location_component_values a a) as [_ [_ H5]].
  assert (Hi : locations_set a ∩ locations_set a = locations_set a) by set_solver.
  cbv zeta in H5. rewrite Hi in H5. rewrite (H5 Hloc).
  vm_compute. reflexivity.
Qed.

Lemma self_score_saturates_witness :
  2 <= len (locations_set alice)
  /\ budget alice = Some 800 /\ 0 < 800
  /\ lifestyle_set alice ≠ ∅
  /\ calculate_compatibility alice alice = Ok ten.
Proof.
  assert (H1 : 2 <= len (locations_set alice)) by (vm_compute; discriminate).
  assert (H2 : 0 < 800) by lia.
  assert (H3 : lifestyle_set alice ≠ ∅) by (apply set_truthy_true; vm_compute; reflexivity).
  split; [exact H1|]. split; [reflexivity|]. split; [exact H2|]. split; [exact H3|].
  exact (self_score_saturates alice 800 H1 eq_refl H2 H3).
Defined.

(** C4.  The scorer never raises on well-formed profiles; a component
    with an empty set or an absent budget on either side contributes
    exactly 0; with everything empty or absent the score is 0.0. *)
Theorem score_total (a b : User) :
  well_formed a -> well_formed b ->
  (exists r, calculate_compatibility a b = Ok r)
  /\ (locations_set a = ∅ \/ locations_set b = ∅ -> location_component a b = zero)
  /\ (budget a = None \/ budget b = None -> budget_component a b = Ok zero)
  /\ (lifestyle_set a = ∅ \/ lifestyle_set b = ∅ -> lifestyle_component a b = Ok zero)
  /\ (locations_set a = ∅ -> locations_set b = ∅ ->
      budget a = None -> budget b = None ->
      lifestyle_set a = ∅ -> lifestyle_set b = ∅ ->
      calculate_compatibility a b = Ok zero).
Proof.
  intros Ha Hb.
  assert (Hloc : locations_set a = ∅ \/ locations_set b = ∅ -> location_component a b = zero).
  { intros [H|H]; unfold location_component; rewrite H;
      rewrite (proj2 (set_truthy_false ∅) eq_refl);
      [reflexivity|rewrite andb_false_r; reflexivity]. }
  assert (Hbud : budget a = None \/ budget b = None -> budget_component a b = Ok zero).
  { intros [H|H]; unfold budget_component; rewrite H; cbn [int_truthy];
      [reflexivity|rewrite andb_false_r; reflexivity]. }
  assert (Hlife : lifestyle_set a = ∅ \/ lifestyle_set b = ∅ -> lifestyle_component a b = Ok zero).
  { intros [H|H]; unfold lifestyle_component; rewrite H;
      rewrite (proj2 (set_truthy_false ∅) eq_refl);
      [reflexivity|rewrite andb_false_r; reflexivity]. }
  split; [|split; [exact Hloc|split; [exact Hbud|split; [exact Hlife|]]]].
  - destruct (budget_component_ok a b Ha Hb) as [c2 [Hc2 _]].
    destruct (lifestyle_component_ok a b) as [c3 [Hc3 _]].
    eexists. rewrite calculate_compatibility_components, Hc2, Hc3. reflexivity.
  - intros L1 _ B1 _ S1 _.
    rewrite calculate_compatibility_components.
    rewrite (Hbud (or_introl B1)), (Hlife (or_introl S1)), (Hloc (or_introl L1)).
    reflexivity.
Qed.

Lemma score_total_witness :
  well_formed carol /\ well_formed zero_budget
  /\ (exists r, calculate_compatibility carol zero_budget = Ok r)
  /\ (locations_set carol = ∅ \/ locations_set zero_budget = ∅ ->
      location_component carol zero_budget = zero)
  /\ (budget carol = None \/ budget zero_budget = None ->
      budget_component carol zero_budget = Ok zero)
  /\ (lifestyle_set carol = ∅ \/ lifestyle_set zero_budget = ∅ ->
      lifestyle_component carol zero_budget = Ok zero)
  /\ (locations_set carol = ∅ -> locations_set zero_budget = ∅ ->
      budget carol = None -> budget zero_budget = None ->
      lifestyle_set carol = ∅ -> lifestyle_set zero_budget = ∅ ->
      calculate_compatibility carol zero_budget = Ok zero).
Proof.
  assert (Ha : well_formed carol) by exact I.
  assert (Hb : well_formed zero_budget) by (unfold well_formed; simpl; lia).
  split; [exact Ha|]. split; [exact Hb|].
  exact (score_total carol zero_budget Ha Hb).
Defined.

(** C5.  The location component is [min(n * 2.5, 5.0)] for [n] shared
    locations when both sets are non-empty and 0 otherwise: 0.0 for no
    shared location, 2.5 for one and 5.0 for two or more. *)
Theorem location_component_spec (a b : User) :
  let n := len (locations_set a ∩ locations_set b) in
  location_component a b =
    (if set_truthy (locations_set a) && set_truthy (locations_set b)
     then py_min (of_int n * two_and_half)%F five
     else zero)
  /\ (n = 0 -> location_component a b = zero)
  /\ (n = 1 -> location_component a b = two_and_half)
  /\ (2 <= n -> location_component a b = five).
Proof.
  intros n. split.
  - apply location_component_formula.
  - apply location_component_values.
Qed.

Lemma inter_comm (X Y : gset string) : X ∩ Y = Y ∩ X.
Proof. apply set_eq. intros x. rewrite !elem_of_intersection. tauto. Qed.

Lemma union_comm (X Y : gset string) : X ∪ Y = Y ∪ X.
Proof. apply set_eq. intros x. rewrite !elem_of_union. tauto. Qed.

(** C6.  The score is symmetric in its two arguments. *)
Theorem score_symmetric (a b : User) :
  calculate_compatibility a b = calculate_compatibility b a.
Proof.
  unfold calculate_compatibility. cbv zeta.
  rewrite (andb_comm (set_truthy (locations_set a))).
  rewrite (andb_comm (int_truthy (budget a))).
  rewrite (andb_comm (set_truthy (lifestyle_set a))).
  rewrite (inter_comm (locations_set a)), (inter_comm (lifestyle_set a)),
    (union_comm (lifestyle_set a)).
  rewrite (Z.max_comm (default 0 (budget a))).
  replace (Z.abs (default 0 (budget a) - default 0 (budget b)))
    with (Z.abs (default 0 (budget b) - default 0 (budget a))) by lia.
  reflexivity.
Qed.

(** * The order of scores *)

Lemma ltb_lex x y :
  shaped false x -> shaped false y -> (ltb x y = true <-> lex_lt (ord x) (ord y)).
Proof.
  unfold ltb, SFltb, lex_lt.
  destruct x as [sx|sx| |sx mx ex], y as [sy|sy| |sy my ey];
    cbn [shaped ord fst snd]; intros Hx Hy; try contradiction;
    repeat match goal with H : _ /\ _ |- _ => destruct H as [H _] end;
    subst; cbn [SFcompare];
    try (split; [discriminate|lia]); try (split; [lia|reflexivity]);
    try (split; [reflexivity|lia]).
  change (PosDef.Pos.compare_cont Eq mx my) with (Pos.compare mx my).
  destruct (Z.compare_spec ex ey) as [He|He|He].
  - destruct (Pos.compare_spec mx my) as [Hm|Hm|Hm].
    + split; [discriminate|]. subst. lia.
    + split; [lia|reflexivity].
    + split; [discriminate|lia].
  - split; [lia|reflexivity].
  - split; [discriminate|lia].
Qed.

Lemma ltb_false_lex x y :
  shaped false x -> shaped false y -> (ltb x y = false <-> ~ lex_lt (ord x) (ord y)).
Proof.
  intros Hx Hy. rewrite <- (ltb_lex x y Hx Hy).
  destruct (ltb x y); split; congruence.
Qed.

Lemma ltb_asym x y :
  shaped false x -> shaped false y -> ltb x y = true -> ltb y x = false.
Proof.
  intros Hx Hy. rewrite (ltb_lex x y Hx Hy), (ltb_false_lex y x Hy Hx).
  unfold lex_lt. destruct (ord x) as [[a1 a2] a3], (ord y) as [[b1 b2] b3].
  cbn [fst snd]. lia.
Qed.

Lemma ltb_negtrans x y z :
  shaped false x -> shaped false y -> shaped false z ->
  ltb x y = false -> ltb y z = false -> ltb x z = false.
Proof.
  intros Hx Hy Hz.
  rewrite (ltb_false_lex x y Hx Hy), (ltb_false_lex y z Hy Hz), (ltb_false_lex x z Hx Hz).
  unfold lex_lt.
  destruct (ord x) as [[a1 a2] a3], (ord y) as [[b1 b2] b3], (ord z) as [[c1 c2] c3].
  cbn [fst snd]. lia.
Qed.

(** * The stable descending sort *)

Section SortDescFacts.
Context {A K : Type} (key : A -> K) (lt : K -> K -> bool) (P : K -> Prop).

Hypothesis lt_asym : forall x y, P x -> P y -> lt x y = true -> lt y x = false.
Hypothesis lt_negtrans : forall x y z,
  P x -> P y -> P z -> lt x y = false -> lt y z = false -> lt x z = false.

Lemma insert_desc_perm x l : insert_desc key lt x l ≡ₚ x :: l.
Proof.
  induction l as [|y l IH]; cbn [insert_desc]; [reflexivity|].
  destruct (lt (key x) (key y)); [|reflexivity].
  rewrite IH. apply perm_swap.
Qed.

Lemma sort_desc_perm l : sort_desc key lt l ≡ₚ l.
Proof.
  induction l as [|x l IH]; cbn [sort_desc foldr]; [reflexivity|].
  fold (sort_desc key lt l). rewrite insert_desc_perm, IH. reflexivity.
Qed.

Lemma insert_desc_sorted x l :
  P (key x) -> Forall (fun a => P (key a)) l ->
  StronglySorted (desc key lt) l -> StronglySorted (desc key lt) (insert_desc key lt x l).
Proof.
  intros Hx. induction l as [|y l IH]; intros HP Hs; cbn [insert_desc].
  - constructor; constructor.
  - apply Forall_cons in HP as [Hy HP].
    apply StronglySorted_inv in Hs as [Hs Hyl].
    destruct (lt (key x) (key y)) eqn:Hxy.
    + constructor; [apply IH; assumption|].
      rewrite insert_desc_perm. constructor; [|exact Hyl].
      apply lt_asym; assumption.
    + constructor; [constructor; assumption|].
      constructor; [exact Hxy|].
      rewrite Forall_forall in Hyl, HP |- *. intros z Hz.
      apply (lt_negtrans _ (key y)); auto.
      apply Hyl, Hz.
Qed.

Lemma sort_desc_sorted l :
  Forall (fun a => P (key a)) l -> StronglySorted (desc key lt) (sort_desc key lt l).
Proof.
  induction l as [|x l IH]; intros HP; cbn [sort_desc foldr]; [constructor|].
  fold (sort_desc key lt l). apply Forall_cons in HP as [Hx HP].
  apply insert_desc_sorted; [exact Hx| |apply IH, HP].
  rewrite sort_desc_perm. exact HP.
Qed.

Lemma insert_desc_stable v x l :
  P v -> P (key x) -> Forall (fun a => P (key a)) l ->
  filter (tied key lt v) (insert_desc key lt x l) = filter (tied key lt v) (x :: l).
Proof.
  intros Hv Hx. induction l as [|y l IH]; intros HP; cbn [insert_desc]; [reflexivity|].
  apply Forall_cons in HP as [Hy HP].
  destruct (lt (key x) (key y)) eqn:Hxy; [|reflexivity].
  rewrite (filter_cons _ y), (IH HP), !(filter_cons _ x), (filter_cons _ y).
  destruct (decide (tied key lt v y)) as [[Hy1 Hy2]|Hny];
    destruct (decide (tied key lt v x)) as [[Hx1 Hx2]|Hnx]; try reflexivity.
  exfalso. rewrite (lt_negtrans (key x) v (key y)) in Hxy by assumption.
  discriminate.
Qed.

Lemma sort_desc_stable v l :
  P v -> Forall (fun a => P (key a)) l ->
  filter (tied key lt v) (sort_desc key lt l) = filter (tied key lt v) l.
Proof.
  intros Hv. induction l as [|x l IH]; intros HP; cbn [sort_desc foldr]; [reflexivity|].
  fold (sort_desc key lt l). apply Forall_cons in HP as [Hx HP].
  rewrite insert_desc_stable; [|exact Hv|exact Hx|rewrite sort_desc_perm; exact HP].
  rewrite !filter_cons, (IH HP). reflexivity.
Qed.
End SortDescFacts.

Section SortDescEq.
Context {A K : Type} `{EqDecision K} (key : A -> K) (lt : K -> K -> bool).
Context (P : K -> Prop).

Hypothesis lt_asym : forall x y, P x -> P y -> lt x y = true -> lt y x = false.

Lemma insert_desc_keep v x l :
  P (key x) ->
  filter (fun a => key a = v) (insert_desc key lt x l)
  = filter (fun a => key a = v) (x :: l).
Proof.
  intros Hx. induction l as [|y l IH]; cbn [insert_desc]; [reflexivity|].
  destruct (lt (key x) (key y)) eqn:Hxy; [|reflexivity].
  assert (Hne : key x <> key y).
  { intros E. rewrite <- E in Hxy.
    pose proof (lt_asym _ _ Hx Hx Hxy) as Hf. congruence. }
  rewrite (filter_cons _ y), IH, !(filter_cons _ x), (filter_cons _ y).
  destruct (decide (key y = v)) as [Hy|Hy];
    destruct (decide (key x = v)) as [Hx'|Hx']; try reflexivity.
  congruence.
Qed.

Lemma sort_desc_keep v l :
  Forall (fun a => P (key a)) l ->
  filter (fun a => key a = v) (sort_desc key lt l) = filter (fun a => key a = v) l.
Proof.
  induction l as [|x l IH]; intros HP; cbn [sort_desc foldr]; [reflexivity|].
  fold (sort_desc key lt l). apply Forall_cons in HP as [Hx HP].
  rewrite insert_desc_keep by exact Hx.
  rewrite !filter_cons, (IH HP). reflexivity.
Qed.
End SortDescEq.

(** * The ranking pipeline *)

Lemma calculate_compatibility_shaped a b r :
  calculate_compatibility a b = Ok r -> shaped false r.
Proof.
  rewrite calculate_compatibility_components.
  destruct (budget_component a b) as [c2|] eqn:H2; cbn [bind]; [|discriminate].
  destruct (lifestyle_component_ok a b) as [c3 [-> H3]]. cbn [bind].
  intros Hr. injection Hr as <-.
  apply round1_shaped. repeat apply add_shaped; try assumption.
  - apply location_component_shaped.
  - eapply budget_component_shaped, H2.
Qed.

Lemma score_users_none users :
  score_users None users = Ok ((fun u => mkRoommate u zero) <$> users).
Proof.
  induction users as [|u users IH]; cbn [score_users fmap list_fmap bind]; [reflexivity|].
  rewrite IH. reflexivity.
Qed.

Lemma score_users_users cu users out :
  score_users cu users = Ok out -> user <$> out = users.
Proof.
  revert out. induction users as [|u users IH]; cbn [score_users]; intros out H.
  - injection H as <-. reflexivity.
  - destruct (match cu with Some c => calculate_compatibility c u | None => Ok zero end)
      as [s|]; cbn [bind] in H; [|discriminate].
    destruct (score_users cu users) as [rest|]; cbn [bind] in H; [|discriminate].
    injection H as <-. cbn [fmap list_fmap user]. f_equal. apply IH. reflexivity.
Qed.

Lemma score_users_scores cu users out :
  score_users (Some cu) users = Ok out ->
  Forall (fun r => calculate_compatibility cu (user r) = Ok (score r)) out.
Proof.
  revert out. induction users as [|u users IH]; cbn [score_users]; intros out H.
  - injection H as <-. constructor.
  - destruct (calculate_compatibility cu u) as [s|] eqn:Hs; cbn [bind] in H; [|discriminate].
    destruct (score_users (Some cu) users) as [rest|]; cbn [bind] in H; [|discriminate].
    injection H as <-. constructor; [exact Hs|apply IH; reflexivity].
Qed.

Lemma score_users_shaped cu users out :
  score_users (Some cu) users = Ok out ->
  Forall (fun r => shaped false (score r)) out.
Proof.
  intros H. eapply Forall_impl; [apply (score_users_scores _ _ _ H)|].
  intros r Hr. eapply calculate_compatibility_shaped, Hr.
Qed.

Lemma rank_some cu users out :
  rank (Some cu) users = Ok out ->
  exists scored, score_users (Some cu) users = Ok scored
                 /\ out = sort_desc score ltb scored.
Proof.
  unfold rank. destruct (score_users (Some cu) users) as [scored|]; cbn [bind];
    [|discriminate].
  intros H. injection H as <-. exists scored. split; reflexivity.
Qed.

Lemma rank_users_perm cu users out :
  rank cu users = Ok out -> user <$> out ≡ₚ users.
Proof.
  unfold rank. destruct (score_users cu users) as [scored|] eqn:Hs; cbn [bind];
    [|discriminate].
  apply score_users_users in Hs.
  destruct cu; intros H; injection H as <-.
  - rewrite sort_desc_perm, Hs. reflexivity.
  - rewrite Hs. reflexivity.
Qed.

(** C7.  For an anonymous caller every candidate gets the score 0 and the
    candidates are returned in the order in which they were supplied: the
    result is the input sequence itself, entry by entry, with no sort. *)
Theorem rank_anonymous (users : list User) :
  rank None users = Ok ((fun u => mkRoommate u zero) <$> users).
Proof.
  unfold rank. rewrite score_users_none. reflexivity.
Qed.

(** C8.  With a reference profile, the result holds the supplied
    candidates, each with its score against the reference, sorted by
    descending score, and the candidates of any one score keep the order
    in which they were supplied; entries with the scores 3.2, 7.1, 7.1 and
    0.0, in that order, come out as second, third, first, fourth. *)
Theorem rank_sorted_stable (cu : User) (users : list User) (out : list Roommate) :
  rank (Some cu) users = Ok out ->
  (exists scored,
     score_users (Some cu) users = Ok scored
     /\ user <$> scored = users
     /\ out ≡ₚ scored
     /\ StronglySorted (fun r1 r2 => ltb (score r1) (score r2) = false) out
     /\ forall v, filter (fun r => score r = v) out = filter (fun r => score r = v) scored)
  /\ forall u0 u1 u2 u3,
       sort_desc score ltb
         [mkRoommate u0 (tenths 32); mkRoommate u1 (tenths 71);
          mkRoommate u2 (tenths 71); mkRoommate u3 (tenths 0)]
       = [mkRoommate u1 (tenths 71); mkRoommate u2 (tenths 71);
          mkRoommate u0 (tenths 32); mkRoommate u3 (tenths 0)].
Proof.
  intros H. split; [|reflexivity].
  destruct (rank_some _ _ _ H) as [scored [Hs ->]].
  pose proof (score_users_shaped _ _ _ Hs) as Hsh.
  exists scored. split; [exact Hs|]. split; [eapply score_users_users, Hs|].
  split; [apply sort_desc_perm|]. split.
  - apply (sort_desc_sorted score ltb (shaped false) ltb_asym ltb_negtrans), Hsh.
  - intros v. apply (sort_desc_keep score ltb (shaped false) ltb_asym), Hsh.
Qed.

Lemma rank_sorted_stable_witness :
  rank (Some alice) [cand0; cand1; cand2; cand3]
  = Ok [mkRoommate cand1 (tenths 71); mkRoommate cand2 (tenths 71);
        mkRoommate cand0 (tenths 32); mkRoommate cand3 (tenths 0)]
  /\ (exists scored,
     score_users (Some alice) [cand0; cand1; cand2; cand3] = Ok scored
     /\ user <$> scored = [cand0; cand1; cand2; cand3]
     /\ [mkRoommate cand1 (tenths 71); mkRoommate cand2 (tenths 71);
         mkRoommate cand0 (tenths 32); mkRoommate cand3 (tenths 0)] ≡ₚ scored
     /\ StronglySorted (fun r1 r2 => ltb (score r1) (score r2) = false)
          [mkRoommate cand1 (tenths 71); mkRoommate cand2 (tenths 71);
           mkRoommate cand0 (tenths 32); mkRoommate cand3 (tenths 0)]
     /\ forall v,
          filter (fun r => score r = v)
            [mkRoommate cand1 (tenths 71); mkRoommate cand2 (tenths 71);
             mkRoommate cand0 (tenths 32); mkRoommate cand3 (tenths 0)]
          = filter (fun r => score r = v) scored)
  /\ forall u0 u1 u2 u3,
       sort_desc score ltb
         [mkRoommate u0 (tenths 32); mkRoommate u1 (tenths 71);
          mkRoommate u2 (tenths 71); mkRoommate u3 (tenths 0)]
       = [mkRoommate u1 (tenths 71); mkRoommate u2 (tenths 71);
          mkRoommate u0 (tenths 32); mkRoommate u3 (tenths 0)].
Proof.
  assert (H : rank (Some alice) [cand0; cand1; cand2; cand3]
              = Ok [mkRoommate cand1 (tenths 71); mkRoommate cand2 (tenths 71);
                    mkRoommate cand0 (tenths 32); mkRoommate cand3 (tenths 0)])
    by (vm_compute; reflexivity).
  split; [exact H|].
  exact (rank_sorted_stable alice [cand0; cand1; cand2; cand3] _ H).
Defined.

(** * From text columns to sets *)

Lemma split_comma_nonempty s : split_comma s <> [].
Proof.
  destruct s as [|c r]; cbn [split_comma]; [discriminate|].
  destruct (Ascii.eqb c ","); [discriminate|].
  destruct (split_comma r); discriminate.
Qed.

Lemma lstrip_all_spaces s : all_spaces s = true -> lstrip s = EmptyString.
Proof.
  induction s as [|c r IH]; cbn [all_spaces lstrip]; [reflexivity|].
  intros H. apply andb_prop in H as [Hc Hr]. rewrite Hc. apply IH, Hr.
Qed.

Lemma strip_all_spaces s : all_spaces s = true -> strip s = EmptyString.
Proof. intros H. unfold strip. rewrite (lstrip_all_spaces s H). reflexivity. Qed.

Lemma split_comma_only s :
  only_commas_and_spaces s = true ->
  Forall (fun seg => all_spaces seg = true) (split_comma s).
Proof.
  induction s as [|c r IH]; cbn [only_commas_and_spaces split_comma]; intros H.
  - repeat constructor.
  - apply andb_prop in H as [Hc Hr]. specialize (IH Hr).
    destruct (Ascii.eqb c ",") eqn:Hcomma.
    + constructor; [reflexivity|exact IH].
    + cbn [orb] in Hc. destruct (split_comma r) as [|seg segs].
      * repeat constructor. cbn [all_spaces]. rewrite Hc. reflexivity.
      * apply Forall_cons in IH as [Hseg Hsegs]. constructor; [|exact Hsegs].
        cbn [all_spaces]. rewrite Hc. exact Hseg.
Qed.

Lemma list_to_set_all (x : string) (l : list string) :
  l <> [] -> Forall (fun y => y = x) l -> list_to_set (C := gset string) l = {[x]}.
Proof.
  intros Hne Hall. apply set_eq. intros y.
  rewrite elem_of_list_to_set, elem_of_singleton. rewrite Forall_forall in Hall.
  split; [apply Hall|].
  intros ->. destruct l as [|z l]; [contradiction|].
  rewrite (Hall z) by (apply elem_of_cons; left; reflexivity).
  apply elem_of_cons. left. reflexivity.
Qed.

Lemma column_set_falsy column : str_truthy column = false -> column_set column = ∅.
Proof. unfold column_set, comma_list. intros ->. reflexivity. Qed.

Lemma column_set_text c r :
  column_set (Some (String c r))
  = list_to_set (lower <$> (strip <$> split_comma (String c r))).
Proof. reflexivity. Qed.

Lemma column_set_nonempty c r : column_set (Some (String c r)) <> ∅.
Proof.
  rewrite column_set_text.
  pose proof (split_comma_nonempty (String c r)) as Hne.
  destruct (split_comma (String c r)) as [|seg segs]; [contradiction|].
  cbn [fmap list_fmap list_to_set]. set_solver.
Qed.

Lemma column_set_only_commas c r :
  only_commas_and_spaces (String c r) = true ->
  column_set (Some (String c r)) = {[EmptyString]}.
Proof.
  intros H. rewrite column_set_text.
  pose proof (split_comma_nonempty (String c r)) as Hne.
  pose proof (split_comma_only _ H) as Hall.
  apply list_to_set_all.
  - destruct (split_comma (String c r)); [contradiction|discriminate].
  - rewrite !Forall_fmap. eapply Forall_impl; [exact Hall|].
    intros seg Hseg. cbn. rewrite (strip_all_spaces seg Hseg). reflexivity.
Qed.

(** C9, as stated, fails: empty segments are not dropped.  A location
    text made of one comma gives a set that holds the empty string, and
    two such profiles share it, which is worth 2.5. *)
Lemma comma_only_shares_empty_string :
  preferred_locations comma_only = Some ","%string
  /\ EmptyString ∈ locations_set comma_only
  /\ locations_set comma_only <> ∅
  /\ location_component comma_only comma_only = two_and_half
  /\ location_component comma_only comma_only <> zero.
Proof.
  split; [reflexivity|].
  assert (Hs : locations_set comma_only = {[EmptyString]}).
  { apply (column_set_only_commas ","%char EmptyString). reflexivity. }
  split; [rewrite Hs; apply elem_of_singleton; reflexivity|].
  split; [rewrite Hs; set_solver|].
  assert (Hc : location_component comma_only comma_only = two_and_half).
  { destruct (location_component_values comma_only comma_only) as [_ [H1 _]].
    apply H1. rewrite Hs.
    replace ({[EmptyString]} ∩ {[EmptyString]} : gset string) with ({[EmptyString]} : gset string)
      by set_solver.
    unfold len. rewrite size_singleton. reflexivity. }
  split; [exact Hc|]. rewrite Hc. discriminate.
Qed.

(** C9, amended.  The sets that the scorer compares are obtained from the
    text columns by splitting on commas, trimming each segment and
    lower-casing it, and empty segments are kept: an absent or empty text
    gives the empty set, any other text gives a non-empty set, and a
    non-empty text of commas and white space only gives the set whose one
    member is the empty string. *)
Theorem sets_from_text (u : User) :
  locations_set u = column_set (preferred_locations u)
  /\ lifestyle_set u = column_set (lifestyle u)
  /\ forall column : option string,
       (column = None \/ column = Some EmptyString -> column_set column = ∅)
       /\ forall c r, column = Some (String c r) ->
            column_set column = list_to_set (lower <$> (strip <$> split_comma (String c r)))
            /\ column_set column <> ∅
            /\ (only_commas_and_spaces (String c r) = true ->
                column_set column = {[EmptyString]}).
Proof.
  split; [reflexivity|]. split; [reflexivity|].
  intros column. split.
  - intros [->| ->]; reflexivity.
  - intros c r ->. split; [apply column_set_text|].
    split; [apply column_set_nonempty|apply column_set_only_commas].
Qed.

(** * The filters of the query *)

Lemma roommates_query_elem table cu location min_budget max_budget u :
  u ∈ roommates_query table cu location min_budget max_budget <->
  u ∈ table
  /\ (forall c, cu = Some c -> id u <> id c)
  /\ (str_truthy (Some location) = true ->
      ilike (preferred_locations u) ("%" ++ location ++ "%")%string = true)
  /\ (int_truthy min_budget = true -> sql_ge (budget u) (default 0 min_budget) = true)
  /\ (int_truthy max_budget = true -> sql_le (budget u) (default 0 max_budget) = true).
Proof.
  unfold roommates_query. rewrite sort_desc_perm.
  destruct (int_truthy max_budget); [rewrite list_elem_of_filter|];
    (destruct (int_truthy min_budget); [rewrite list_elem_of_filter|]);
    (destruct (str_truthy (Some location)); [rewrite list_elem_of_filter|]);
    (destruct cu as [c|]; [rewrite list_elem_of_filter|]);
    split; intros H; repeat split; intros; try discriminate; try tauto;
    try (match goal with E : Some _ = Some _ |- _ => injection E as <- end; tauto);
    try (apply H; reflexivity).
Qed.

Lemma browse_roommates_users table cu location min_budget max_budget out :
  browse_roommates table cu location min_budget max_budget = Ok out ->
  user <$> out ≡ₚ roommates_query table cu (strip location) min_budget max_budget.
Proof. unfold browse_roommates. apply rank_users_perm. Qed.

Lemma sql_ge_present column bound : sql_ge column bound = true -> column <> None.
Proof. destruct column; [discriminate|discriminate]. Qed.

Lemma sql_le_present column bound : sql_le column bound = true -> column <> None.
Proof. destruct column; [discriminate|discriminate]. Qed.

Lemma int_truthy_pos m : 0 < m -> int_truthy (Some m) = true.
Proof. intros H. cbn. destruct (Z.eqb_spec m 0); [lia|reflexivity]. Qed.

(** C10.  Under a positive minimum or maximum budget, a candidate with an
    absent budget fails the comparison: no row returned by the query and
    no entry of the result has an absent budget. *)
Theorem budget_bound_drops_absent (table : list User) (cu : option User)
    (location : string) (min_budget max_budget : option Z) (out : list Roommate) :
  (exists m, 0 < m /\ (min_budget = Some m \/ max_budget = Some m)) ->
  browse_roommates table cu location min_budget max_budget = Ok out ->
  Forall (fun u => budget u <> None)
    (roommates_query table cu (strip location) min_budget max_budget)
  /\ Forall (fun r => budget (user r) <> None) out.
Proof.
  intros [m [Hm Hb]] Hout.
  assert (Hq : Forall (fun u => budget u <> None)
                 (roommates_query table cu (strip location) min_budget max_budget)).
  { apply Forall_forall. intros u Hu.
    apply roommates_query_elem in Hu as [_ [_ [_ [Hmin Hmax]]]].
    destruct Hb as [-> | ->].
    - eapply sql_ge_present, Hmin, int_truthy_pos, Hm.
    - eapply sql_le_present, Hmax, int_truthy_pos, Hm. }
  split; [exact Hq|].
  apply browse_roommates_users in Hout.
  rewrite <- Hout in Hq. rewrite Forall_fmap in Hq. exact Hq.
Qed.

Lemma budget_bound_drops_absent_witness :
  (exists m, 0 < m /\ (Some 100 = Some m \/ None = Some m))
  /\ browse_roommates sample_table None EmptyString (Some 100) None
     = Ok [mkRoommate bob zero; mkRoommate alice zero]
  /\ Forall (fun u => budget u <> None)
       (roommates_query sample_table None (strip EmptyString) (Some 100) None)
  /\ Forall (fun r => budget (user r) <> None)
       [mkRoommate bob zero; mkRoommate alice zero].
Proof.
  assert (H1 : exists m, 0 < m /\ (Some 100 = Some m \/ None = Some m)).
  { exists 100. split; [lia|left; reflexivity]. }
  assert (H2 : browse_roommates sample_table None EmptyString (Some 100) None
               = Ok [mkRoommate bob zero; mkRoommate alice zero])
    by (vm_compute; reflexivity).
  split; [exact H1|]. split; [exact H2|].
  exact (budget_bound_drops_absent sample_table None EmptyString (Some 100) None _ H1 H2).
Defined.

(** * Text helpers *)

Lemma lower_ascii_idem c : lower_ascii (lower_ascii c) = lower_ascii c.
Proof. destruct c as [[] [] [] [] [] [] [] []]; reflexivity. Qed.



Lemma eqb_dot_lower c : Ascii.eqb (lower_ascii c) "."%char = Ascii.eqb c "."%char.
Proof. destruct c as [[] [] [] [] [] [] [] []]; reflexivity. Qed.

Lemma lower_idem s : lower (lower s) = lower s.
Proof.
  induction s as [|c r IH]; cbn [lower]; [reflexivity|].
  rewrite lower_ascii_idem, IH. reflexivity.
Qed.

Lemma lower_length s : String.length (lower s) = String.length s.
Proof. induction s as [|c r IH]; cbn [lower String.length]; congruence. Qed.





(** ** [split] and [join] *)

Lemma append_nil_l s : (EmptyString ++ s)%string = s.
Proof. reflexivity. Qed.

Lemma append_cons c r s : (String c r ++ s)%string = String c (r ++ s)%string.
Proof. reflexivity. Qed.

Lemma length_append s t :
  String.length (s ++ t)%string = (String.length s + String.length t)%nat.
Proof.
  induction s as [|c r IH]; [reflexivity|].
  rewrite append_cons. cbn [String.length]. rewrite IH. reflexivity.
Qed.

Lemma join_comma_cons seg l :
  l <> [] -> join_comma (seg :: l) = (seg ++ String ","%char (join_comma l))%string.
Proof. destruct l; [contradiction|reflexivity]. Qed.

Lemma join_comma_head c seg l :
  join_comma (String c seg :: l) = String c (join_comma (seg :: l)).
Proof. destruct l; reflexivity. Qed.

Lemma split_comma_join s : join_comma (split_comma s) = s.
Proof.
  induction s as [|c r IH]; cbn [split_comma]; [reflexivity|].
  pose proof (split_comma_nonempty r) as Hne.
  destruct (Ascii.eqb_spec c ","%char) as [->|Hc].
  - rewrite join_comma_cons by exact Hne. rewrite IH. reflexivity.
  - destruct (split_comma r) as [|seg segs] eqn:E; [contradiction|].
    rewrite join_comma_head, IH. reflexivity.
Qed.

Lemma split_comma_length s : List.length (split_comma s) = S (count_char ","%char s).
Proof.
  induction s as [|c r IH]; cbn [split_comma count_char]; [reflexivity|].
  destruct (Ascii.eqb c ","); cbn [List.length]; [rewrite IH; reflexivity|].
  pose proof (split_comma_nonempty r) as Hne.
  destruct (split_comma r); [contradiction|]. cbn [List.length] in *. exact IH.
Qed.

Lemma split_comma_no_comma s :
  Forall (fun seg => contains_char ","%char seg = false) (split_comma s).
Proof.
  induction s as [|c r IH]; cbn [split_comma].
  - repeat constructor.
  - destruct (Ascii.eqb c ",") eqn:Hc.
    + constructor; [reflexivity|exact IH].
    + destruct (split_comma r) as [|seg segs].
      * repeat constructor. cbn [contains_char]. rewrite Hc. reflexivity.
      * apply Forall_cons in IH as [Hseg Hsegs]. constructor; [|exact Hsegs].
        cbn [contains_char]. rewrite Hc. exact Hseg.
Qed.

Lemma split_comma_segment seg :
  contains_char ","%char seg = false -> split_comma seg = [seg].
Proof.
  induction seg as [|c r IH]; cbn [contains_char split_comma]; [reflexivity|].
  intros H. apply orb_false_elim in H as [Hc Hr]. rewrite Hc, (IH Hr). reflexivity.
Qed.

Lemma split_comma_app seg s :
  contains_char ","%char seg = false ->
  split_comma (seg ++ String ","%char s) = seg :: split_comma s.
Proof.
  induction seg as [|c r IH]; cbn [contains_char]; [reflexivity|].
  intros H. apply orb_false_elim in H as [Hc Hr].
  rewrite append_cons. cbn [split_comma]. rewrite Hc, (IH Hr). reflexivity.
Qed.

Lemma join_comma_split l :
  l <> [] -> Forall (fun seg => contains_char ","%char seg = false) l ->
  split_comma (join_comma l) = l.
Proof.
  induction l as [|seg l IH]; [contradiction|]. intros _ Hall.
  apply Forall_cons in Hall as [Hseg Hl].
  destruct l as [|seg' l'].
  - apply split_comma_segment, Hseg.
  - rewrite join_comma_cons by discriminate.
    rewrite split_comma_app by exact Hseg. f_equal. apply IH; [discriminate|exact Hl].
Qed.

(** X1.  [split(',')] loses nothing: joining the segments with commas
    gives the text back, there is one segment more than there are commas,
    no segment holds a comma, and splitting a joined list of comma-free
    segments gives the list back. *)
Theorem split_comma_round_trip (s : string) :
  join_comma (split_comma s) = s
  /\ List.length (split_comma s) = S (count_char ","%char s)
  /\ Forall (fun seg => contains_char ","%char seg = false) (split_comma s)
  /\ forall l, l <> [] -> Forall (fun seg => contains_char ","%char seg = false) l ->
       split_comma (join_comma l) = l.
Proof.
  split; [apply split_comma_join|]. split; [apply split_comma_length|].
  split; [apply split_comma_no_comma|]. apply join_comma_split.
Qed.

(** ** [strip] *)

Lemma lstrip_split s :
  exists pre, all_spaces pre = true /\ s = (pre ++ lstrip s)%string.
Proof.
  induction s as [|c r IH]; cbn [lstrip].
  - exists EmptyString. split; reflexivity.
  - destruct (is_space c) eqn:Hc.
    + destruct IH as [pre [Hpre Hs]]. exists (String c pre). split.
      * cbn [all_spaces]. rewrite Hc, Hpre. reflexivity.
      * rewrite append_cons, <- Hs. reflexivity.
    + exists EmptyString. split; reflexivity.
Qed.

Lemma rstrip_split s :
  exists post, all_spaces post = true /\ s = (rstrip s ++ post)%string.
Proof.
  induction s as [|c r IH]; cbn [rstrip].
  - exists EmptyString. split; reflexivity.
  - destruct IH as [post [Hpost Hs]].
    destruct (rstrip r) as [|d r'] eqn:Hr.
    + rewrite append_nil_l in Hs. subst post. destruct (is_space c) eqn:Hc.
      * exists (String c r). split; [|reflexivity].
        cbn [all_spaces]. rewrite Hc, Hpost. reflexivity.
      * exists r. split; [exact Hpost|reflexivity].
    + exists post. split; [exact Hpost|]. rewrite !append_cons, <- append_cons, <- Hs. reflexivity.
Qed.

Lemma lstrip_head c r : lstrip (String c r) = String c r -> is_space c = false.
Proof.
  cbn [lstrip]. destruct (is_space c); [|reflexivity]. intros H.
  destruct (lstrip_split r) as [pre [_ Hr]]. rewrite H in Hr.
  apply (f_equal String.length) in Hr. rewrite length_append in Hr.
  cbn [String.length] in Hr. lia.
Qed.

Lemma lstrip_idem s : lstrip (lstrip s) = lstrip s.
Proof.
  induction s as [|c r IH]; cbn [lstrip]; [reflexivity|].
  destruct (is_space c) eqn:Hc; [exact IH|]. cbn [lstrip]. rewrite Hc. reflexivity.
Qed.

Lemma rstrip_idem s : rstrip (rstrip s) = rstrip s.
Proof.
  induction s as [|c r IH]; cbn [rstrip]; [reflexivity|].
  destruct (rstrip r) as [|d r'] eqn:Hr.
  - destruct (is_space c) eqn:Hc; [reflexivity|]. cbn [rstrip]. rewrite Hc. reflexivity.
  - cbn [rstrip] in *. rewrite IH. reflexivity.
Qed.

Lemma lstrip_rstrip t : lstrip t = t -> lstrip (rstrip t) = rstrip t.
Proof.
  destruct t as [|c r]; [reflexivity|]. intros H.
  pose proof (lstrip_head c r H) as Hc. cbn [rstrip].
  destruct (rstrip r); [rewrite Hc|]; cbn [lstrip]; rewrite Hc; reflexivity.
Qed.

Lemma strip_lstrip s : lstrip (strip s) = strip s.
Proof. unfold strip. apply lstrip_rstrip, lstrip_idem. Qed.

Lemma strip_rstrip s : rstrip (strip s) = strip s.
Proof. unfold strip. apply rstrip_idem. Qed.

Lemma strip_idem s : strip (strip s) = strip s.
Proof.
  unfold strip at 1. rewrite strip_lstrip. apply strip_rstrip.
Qed.

Lemma strip_split s :
  exists pre post,
    all_spaces pre = true /\ all_spaces post = true
    /\ s = (pre ++ strip s ++ post)%string.
Proof.
  destruct (lstrip_split s) as [pre [Hpre Hs]].
  destruct (rstrip_split (lstrip s)) as [post [Hpost Ht]].
  exists pre, post. split; [exact Hpre|]. split; [exact Hpost|].
  unfold strip. rewrite <- Ht. exact Hs.
Qed.


(** ** The list helpers *)

Lemma contains_char_app c s t :
  contains_char c (s ++ t)%string = contains_char c s || contains_char c t.
Proof.
  induction s as [|d r IH]; [reflexivity|].
  rewrite append_cons. cbn [contains_char]. rewrite IH, orb_assoc. reflexivity.
Qed.

Lemma strip_no_char c s : contains_char c s = false -> contains_char c (strip s) = false.
Proof.
  destruct (strip_split s) as [pre [post [_ [_ Hs]]]]. intros H.
  rewrite Hs, !contains_char_app in H.
  apply orb_false_elim in H as [_ H]. apply orb_false_elim in H as [H _]. exact H.
Qed.

Lemma comma_list_entries column : entries_of column (comma_list column).
Proof.
  destruct column as [[|c r]|]; cbn [entries_of]; try reflexivity.
  unfold comma_list. cbn [str_truthy default]. split.
  - rewrite length_fmap. apply split_comma_length.
  - rewrite Forall_fmap. eapply Forall_impl; [apply split_comma_no_comma|].
    intros seg Hseg. cbn. split; [apply strip_idem|apply strip_no_char, Hseg].
Qed.

(** X3.  What the three list helpers return: nothing for an absent or
    empty text, and otherwise one entry for each comma-separated segment,
    every entry trimmed and free of commas. *)
Theorem list_helpers_entries (u : User) (l : Listing.t) :
  entries_of (preferred_locations u) (get_locations_list u)
  /\ entries_of (lifestyle u) (get_lifestyle_list u)
  /\ entries_of (Listing.amenities l) (get_amenities_list l).
Proof. repeat split; apply comma_list_entries. Qed.

(** ** Letter case *)






(** * More on the ranking pipeline *)

Lemma query_get_some {A : Type} (pk : A -> Z) table key row :
  query_get pk table key = Some row -> row ∈ table /\ pk row = key.
Proof.
  unfold query_get. intros H. apply List.find_some in H as [Hin Hk].
  split; [apply list_elem_of_In, Hin|apply Z.eqb_eq, Hk].
Qed.

Lemma query_get_none {A : Type} (pk : A -> Z) table key :
  query_get pk table key = None -> forall row, row ∈ table -> pk row <> key.
Proof.
  unfold query_get. intros H row Hin Hk.
  apply list_elem_of_In in Hin.
  pose proof (List.find_none _ _ H row Hin) as Hf. cbn in Hf.
  apply Z.eqb_neq in Hf. contradiction.
Qed.

Lemma query_get_unique {A : Type} (pk : A -> Z) table row :
  NoDup (pk <$> table) -> row ∈ table -> query_get pk table (pk row) = Some row.
Proof.
  unfold query_get. induction table as [|x table IH]; intros Hnd Hin.
  - apply elem_of_nil in Hin. contradiction.
  - cbn [fmap list_fmap] in Hnd. apply NoDup_cons in Hnd as [Hx Hnd].
    cbn [List.find]. destruct (Z.eqb_spec (pk x) (pk row)) as [E|E].
    + apply elem_of_cons in Hin as [->|Hin]; [reflexivity|].
      exfalso. apply Hx. rewrite E. apply list_elem_of_fmap. exists row. split; [reflexivity|exact Hin].
    + apply elem_of_cons in Hin as [->|Hin]; [contradiction|]. apply IH; assumption.
Qed.

(** X5.  A visitor who is logged in never finds the own profile among
    the roommates: no entry of the result has the identifier stored in
    the session. *)
Theorem browse_excludes_self (table : list User) (session : option Z) (cu : User)
    (location : string) (min_budget max_budget : option Z) (out : list Roommate) :
  get_current_user table session = Some cu ->
  browse_roommates table (Some cu) location min_budget max_budget = Ok out ->
  session = Some (id cu) /\ Forall (fun r => Some (id (user r)) <> session) out.
Proof.
  intros Hcu Hout.
  assert (Hs : session = Some (id cu)).
  { destruct session as [uid|]; [|discriminate]. cbn [get_current_user] in Hcu.
    apply query_get_some in Hcu as [_ <-]. reflexivity. }
  split; [exact Hs|]. subst session.
  apply browse_roommates_users in Hout.
  assert (H : Forall (fun u => Some (id u) <> Some (id cu)) (user <$> out)).
  { rewrite Hout. apply Forall_forall. intros u Hu.
    apply roommates_query_elem in Hu as [_ [Hne _]].
    intros E. injection E as E. exact (Hne cu eq_refl E). }
  rewrite Forall_fmap in H. exact H.
Qed.

Lemma browse_excludes_self_witness :
  get_current_user sample_table (Some 1) = Some alice
  /\ browse_roommates sample_table (Some alice) EmptyString None None
     = Ok [mkRoommate bob (tenths 54); mkRoommate carol (tenths 25)]
  /\ Some 1 = Some (id alice)
  /\ Forall (fun r => Some (id (user r)) <> Some 1)
       [mkRoommate bob (tenths 54); mkRoommate carol (tenths 25)].
Proof.
  assert (H1 : get_current_user sample_table (Some 1) = Some alice) by reflexivity.
  assert (H2 : browse_roommates sample_table (Some alice) EmptyString None None
               = Ok [mkRoommate bob (tenths 54); mkRoommate carol (tenths 25)])
    by (vm_compute; reflexivity).
  split; [exact H1|]. split; [exact H2|].
  exact (browse_excludes_self sample_table (Some 1) alice EmptyString None None _ H1 H2).
Defined.

Lemma str_truthy_nonempty s : str_truthy (Some s) = true <-> s <> EmptyString.
Proof. destruct s; cbn; split; congruence. Qed.

Lemma int_truthy_some mo :
  int_truthy mo = true <-> exists m, mo = Some m /\ m <> 0.
Proof.
  destruct mo as [m|]; cbn [int_truthy].
  - rewrite negb_true_iff, Z.eqb_neq. split.
    + intros H. exists m. split; [reflexivity|exact H].
    + intros [m' [E H]]. injection E as <-. exact H.
  - split; [discriminate|]. intros [m [E _]]. discriminate.
Qed.

Lemma sql_ge_spec column bound :
  sql_ge column bound = true <-> exists v, column = Some v /\ bound <= v.
Proof.
  destruct column as [v|]; cbn [sql_ge].
  - rewrite Z.leb_le. split; [intros H; exists v; split; [reflexivity|exact H]|].
    intros [v' [E H]]. injection E as <-. exact H.
  - split; [discriminate|]. intros [v [E _]]. discriminate.
Qed.

Lemma sql_le_spec column bound :
  sql_le column bound = true <-> exists v, column = Some v /\ v <= bound.
Proof.
  destruct column as [v|]; cbn [sql_le].
  - rewrite Z.leb_le. split; [intros H; exists v; split; [reflexivity|exact H]|].
    intros [v' [E H]]. injection E as <-. exact H.
  - split; [discriminate|]. intros [v [E _]]. discriminate.
Qed.

(** X6.  The filters of the roommate search are independent conditions
    that all must hold.  A profile is listed exactly when it is a row of
    the table, is not the visitor's own, has a location text that matches
    the trimmed search text when that is not empty, and has a budget
    within each bound that is present and not zero. *)
Theorem browse_filters (table : list User) (cu : option User) (location : string)
    (min_budget max_budget : option Z) (out : list Roommate) :
  browse_roommates table cu location min_budget max_budget = Ok out ->
  forall u,
    u ∈ (user <$> out) <->
    u ∈ table
    /\ (forall c, cu = Some c -> id u <> id c)
    /\ (strip location <> EmptyString ->
        ilike (preferred_locations u) ("%" ++ strip location ++ "%")%string = true)
    /\ (forall m, min_budget = Some m -> m <> 0 ->
        exists v, budget u = Some v /\ m <= v)
    /\ (forall m, max_budget = Some m -> m <> 0 ->
        exists v, budget u = Some v /\ v <= m).
Proof.
  intros Hout u. apply browse_roommates_users in Hout.
  rewrite Hout, roommates_query_elem.
  rewrite str_truthy_nonempty.
  split; intros [H1 [H2 [H3 [H4 H5]]]]; (split; [exact H1|]); (split; [exact H2|]);
    (split; [exact H3|]); split.
  - intros m -> Hm. apply sql_ge_spec. apply H4.
    apply int_truthy_some. exists m. split; [reflexivity|exact Hm].
  - intros m -> Hm. apply sql_le_spec. apply H5.
    apply int_truthy_some. exists m. split; [reflexivity|exact Hm].
  - intros Ht. apply int_truthy_some in Ht as [m [-> Hm]].
    apply sql_ge_spec. exact (H4 m eq_refl Hm).
  - intros Ht. apply int_truthy_some in Ht as [m [-> Hm]].
    apply sql_le_spec. exact (H5 m eq_refl Hm).
Qed.

Lemma browse_filters_witness :
  browse_roommates sample_table (Some alice) EmptyString None (Some 700)
  = Ok [mkRoommate bob (tenths 54)]
  /\ forall u,
    u ∈ (user <$> [mkRoommate bob (tenths 54)]) <->
    u ∈ sample_table
    /\ (forall c, Some alice = Some c -> id u <> id c)
    /\ (strip EmptyString <> EmptyString ->
        ilike (preferred_locations u) ("%" ++ strip EmptyString ++ "%")%string = true)
    /\ (forall m, None = Some m -> m <> 0 ->
        exists v, budget u = Some v /\ m <= v)
    /\ (forall m, Some 700 = Some m -> m <> 0 ->
        exists v, budget u = Some v /\ v <= m).
Proof.
  assert (H : browse_roommates sample_table (Some alice) EmptyString None (Some 700)
              = Ok [mkRoommate bob (tenths 54)]) by (vm_compute; reflexivity).
  split; [exact H|].
  exact (browse_filters sample_table (Some alice) EmptyString None (Some 700) _ H).
Defined.

Lemma all_spaces_strip s : all_spaces s = true -> strip s = strip EmptyString.
Proof. intros H. rewrite (strip_all_spaces s H). reflexivity. Qed.

(** X7.  A bound of zero and a search text of white space are no filter
    at all: the result is the one obtained with the bound or the text
    left out, so a maximum budget of 0 hides nobody. *)
Theorem empty_filters_ignored (table : list User) (cu : option User)
    (location : string) (min_budget max_budget : option Z) :
  browse_roommates table cu location (Some 0) max_budget
  = browse_roommates table cu location None max_budget
  /\ browse_roommates table cu location min_budget (Some 0)
     = browse_roommates table cu location min_budget None
  /\ (all_spaces location = true ->
      browse_roommates table cu location min_budget max_budget
      = browse_roommates table cu EmptyString min_budget max_budget).
Proof.
  split; [reflexivity|]. split; [reflexivity|].
  intros H. unfold browse_roommates. rewrite (all_spaces_strip location H). reflexivity.
Qed.

(** ** Order and totality of the pipeline *)

Lemma StronglySorted_weaken {A : Type} (R R' : A -> A -> Prop) l :
  (forall a b, R a b -> R' a b) -> StronglySorted R l -> StronglySorted R' l.
Proof.
  intros HR. induction 1 as [|x l Hs IH Hx]; constructor; [exact IH|].
  eapply Forall_impl; [exact Hx|]. intros b. apply HR.
Qed.

Lemma sort_desc_Z_sorted {A : Type} (key : A -> Z) l :
  StronglySorted (fun a b => key b <= key a) (sort_desc key Z.ltb l).
Proof.
  apply (StronglySorted_weaken (desc key Z.ltb)).
  - unfold desc. intros a b H. apply Z.ltb_ge in H. exact H.
  - apply (sort_desc_sorted key Z.ltb (fun _ => True)).
    + intros x y _ _ H. apply Z.ltb_lt in H. apply Z.ltb_ge. lia.
    + intros x y z _ _ _ H1 H2. apply Z.ltb_ge in H1, H2. apply Z.ltb_ge. lia.
    + apply Forall_forall. intros; exact I.
Qed.








Lemma rank_scores cu users out :
  rank (Some cu) users = Ok out ->
  Forall (fun r => calculate_compatibility cu (user r) = Ok (score r)) out.
Proof.
  intros H. destruct (rank_some _ _ _ H) as [scored [Hs ->]].
  rewrite sort_desc_perm. exact (score_users_scores _ _ _ Hs).
Qed.



(** ** Sorting what is sorted *)

Section SortDescFixed.
Context {A K : Type} (key : A -> K) (lt : K -> K -> bool).

Lemma insert_desc_head x l :
  Forall (desc key lt x) l -> insert_desc key lt x l = x :: l.
Proof.
  destruct l as [|y l]; [reflexivity|]. intros H.
  apply Forall_cons in H as [H _]. unfold desc in H. cbn [insert_desc].
  rewrite H. reflexivity.
Qed.

Lemma sort_desc_fixed l :
  StronglySorted (desc key lt) l -> sort_desc key lt l = l.
Proof.
  induction 1 as [|x l Hs IH Hx]; [reflexivity|].
  cbn [sort_desc foldr]. fold (sort_desc key lt l). rewrite IH.
  apply insert_desc_head, Hx.
Qed.
End SortDescFixed.

(** X10.  The sort by score moves nothing that is in place: candidates
    supplied in an order of descending scores are returned in exactly
    that order, and ranking a ranked list changes nothing. *)
Theorem rank_sort_fixed (cu : User) (users : list User) (scored : list Roommate) :
  score_users (Some cu) users = Ok scored ->
  (StronglySorted (fun r1 r2 => ltb (score r1) (score r2) = false) scored ->
   rank (Some cu) users = Ok scored)
  /\ sort_desc score ltb (sort_desc score ltb scored) = sort_desc score ltb scored.
Proof.
  intros Hs. split.
  - intros Hsorted. unfold rank. rewrite Hs. cbn [bind].
    rewrite (sort_desc_fixed score ltb scored Hsorted). reflexivity.
  - apply sort_desc_fixed.
    apply (sort_desc_sorted score ltb (shaped false) ltb_asym ltb_negtrans).
    apply (score_users_shaped _ _ _ Hs).
Qed.

Lemma rank_sort_fixed_witness :
  score_users (Some alice) [bob; carol]
  = Ok [mkRoommate bob (tenths 54); mkRoommate carol (tenths 25)]
  /\ (StronglySorted (fun r1 r2 => ltb (score r1) (score r2) = false)
        [mkRoommate bob (tenths 54); mkRoommate carol (tenths 25)] ->
      rank (Some alice) [bob; carol]
      = Ok [mkRoommate bob (tenths 54); mkRoommate carol (tenths 25)])
  /\ sort_desc score ltb
       (sort_desc score ltb [mkRoommate bob (tenths 54); mkRoommate carol (tenths 25)])
     = sort_desc score ltb [mkRoommate bob (tenths 54); mkRoommate carol (tenths 25)].
Proof.
  assert (H : score_users (Some alice) [bob; carol]
              = Ok [mkRoommate bob (tenths 54); mkRoommate carol (tenths 25)])
    by (vm_compute; reflexivity).
  split; [exact H|].
  exact (rank_sort_fixed alice [bob; carol] _ H).
Defined.

(** * The location filter *)

Lemma like_percent_unfold p text :
  like_match ("%"%char :: p) text
  = like_match p text
    || match text with [] => false | _ :: text' => like_match ("%"%char :: p) text' end.
Proof. destruct text; reflexivity. Qed.

Lemma like_percent p text :
  like_match ("%"%char :: p) text = true
  <-> exists pre suf, text = pre ++ suf /\ like_match p suf = true.
Proof.
  induction text as [|c t IH]; rewrite like_percent_unfold.
  - rewrite orb_false_r. split.
    + intros H. exists [], []. split; [reflexivity|exact H].
    + intros [pre [suf [E H]]]. symmetry in E. apply app_eq_nil in E as [_ ->]. exact H.
  - rewrite orb_true_iff, IH. split.
    + intros [H|[pre [suf [-> H]]]].
      * exists [], (c :: t). split; [reflexivity|exact H].
      * exists (c :: pre), suf. split; [reflexivity|exact H].
    + intros [pre [suf [E H]]]. destruct pre as [|c' pre].
      * left. cbn [app] in E. rewrite E. exact H.
      * right. injection E as _ ->. exists pre, suf. split; [reflexivity|exact H].
Qed.

Lemma like_percent_end text : like_match ["%"%char] text = true.
Proof. apply like_percent. exists text, []. split; [rewrite app_nil_r|]; reflexivity. Qed.

Lemma like_literal p q text :
  Forall (fun a => Ascii.eqb a "%"%char = false /\ Ascii.eqb a "_"%char = false) p ->
  like_match (p ++ q) text = true
  <-> exists mid rest,
        text = mid ++ rest
        /\ lower_ascii <$> mid = lower_ascii <$> p
        /\ like_match q rest = true.
Proof.
  intros Hp. revert text. induction Hp as [|a p [Ha1 Ha2] Hp IH]; intros text.
  - cbn [app]. split.
    + intros H. exists [], text. split; [reflexivity|]. split; [reflexivity|exact H].
    + intros [mid [rest [-> [E H]]]]. destruct mid; [exact H|discriminate].
  - cbn [app like_match]. rewrite Ha1. destruct text as [|c t].
    + split; [discriminate|]. intros [mid [rest [E [Hm _]]]].
      destruct mid; [discriminate|discriminate].
    + rewrite Ha2. cbn [orb]. rewrite andb_true_iff, IH. split.
      * intros [Hc [mid [rest [-> [Hm H]]]]]. exists (c :: mid), rest.
        split; [reflexivity|]. split; [|exact H].
        cbn [fmap list_fmap]. apply Ascii.eqb_eq in Hc. rewrite Hc.
        f_equal. exact Hm.
      * intros [mid [rest [E [Hm H]]]]. destruct mid as [|c' mid]; [discriminate|].
        injection E as -> ->. cbn [fmap list_fmap] in Hm. injection Hm as Hc Hm.
        split; [rewrite Hc; apply Ascii.eqb_refl|].
        exists mid, rest. split; [reflexivity|]. split; [exact Hm|exact H].
Qed.

Lemma list_ascii_app s t :
  list_ascii_of_string (s ++ t)%string = list_ascii_of_string s ++ list_ascii_of_string t.
Proof.
  induction s as [|c r IH]; [reflexivity|].
  rewrite append_cons. cbn [list_ascii_of_string app]. rewrite IH. reflexivity.
Qed.

Lemma list_ascii_lower s :
  list_ascii_of_string (lower s) = lower_ascii <$> list_ascii_of_string s.
Proof.
  induction s as [|c r IH]; [reflexivity|].
  cbn [lower list_ascii_of_string fmap list_fmap]. rewrite IH. reflexivity.
Qed.

Lemma list_ascii_inj s t : list_ascii_of_string s = list_ascii_of_string t -> s = t.
Proof.
  intros H. rewrite <- (string_of_list_ascii_of_string s), H.
  apply string_of_list_ascii_of_string.
Qed.

Lemma contains_char_list c s :
  contains_char c s = false ->
  Forall (fun a => Ascii.eqb a c = false) (list_ascii_of_string s).
Proof.
  induction s as [|d r IH]; cbn [contains_char list_ascii_of_string]; intros H.
  - constructor.
  - apply orb_false_elim in H as [H1 H2]. constructor; [exact H1|apply IH, H2].
Qed.

Lemma ilike_substring location text :
  contains_char "%"%char location = false ->
  contains_char "_"%char location = false ->
  ilike (Some text) ("%" ++ location ++ "%")%string = true
  <-> exists pre mid post,
        text = (pre ++ mid ++ post)%string /\ lower mid = lower location.
Proof.
  intros H1 H2.
  assert (Hp : Forall (fun a => Ascii.eqb a "%"%char = false /\ Ascii.eqb a "_"%char = false)
                 (list_ascii_of_string location)).
  { apply Forall_and. split; apply contains_char_list; assumption. }
  unfold ilike.
  change ("%" ++ location ++ "%")%string with (String "%"%char (location ++ "%")%string).
  cbn [list_ascii_of_string]. rewrite list_ascii_app.
  rewrite like_percent. split.
  - intros [pre [suf [E H]]]. apply (like_literal _ _ _ Hp) in H as [mid [rest [-> [Hm _]]]].
    exists (string_of_list_ascii pre), (string_of_list_ascii mid), (string_of_list_ascii rest).
    split.
    + apply list_ascii_inj. rewrite !list_ascii_app, !list_ascii_of_string_of_list_ascii.
      exact E.
    + apply list_ascii_inj. rewrite !list_ascii_lower, list_ascii_of_string_of_list_ascii.
      exact Hm.
  - intros [pre [mid [post [-> Hm]]]].
    exists (list_ascii_of_string pre), (list_ascii_of_string (mid ++ post)).
    split; [apply list_ascii_app|].
    apply (like_literal _ _ _ Hp).
    exists (list_ascii_of_string mid), (list_ascii_of_string post).
    split; [apply list_ascii_app|]. split.
    + rewrite <- !list_ascii_lower, Hm. reflexivity.
    + apply like_percent_end.
Qed.

(** X11.  The location filter is a substring test that ignores letter
    case, as long as the search text holds no [%] and no [_]: a text
    matches exactly when some part of it equals the search text up to
    case.  The two characters are not escaped: a search for [%] matches
    every text.  An absent location text matches nothing. *)
Theorem location_filter_matches (location text : string) :
  (contains_char "%"%char location = false ->
   contains_char "_"%char location = false ->
   (ilike (Some text) ("%" ++ location ++ "%")%string = true
    <-> exists pre mid post,
          text = (pre ++ mid ++ post)%string /\ lower mid = lower location))
  /\ ilike (Some text) ("%" ++ "%" ++ "%")%string = true
  /\ ilike None ("%" ++ location ++ "%")%string = false.
Proof.
  split; [apply ilike_substring|]. split; [|reflexivity].
  unfold ilike. change (list_ascii_of_string ("%" ++ "%" ++ "%"))
    with ("%"%char :: "%"%char :: ["%"%char]).
  apply like_percent. exists [], (list_ascii_of_string text). split; [reflexivity|].
  apply like_percent. exists [], (list_ascii_of_string text). split; [reflexivity|].
  apply like_percent_end.
Qed.

(** * Upload file names *)

Lemma rsplit_dot_none s : contains_char "."%char s = false -> rsplit_dot s = [s].
Proof.
  induction s as [|c r IH]; cbn [contains_char rsplit_dot]; [reflexivity|].
  intros H. apply orb_false_elim in H as [Hc Hr]. rewrite (IH Hr), Hc. reflexivity.
Qed.

Lemma rsplit_dot_some s :
  contains_char "."%char s = true ->
  exists head tail,
    rsplit_dot s = [head; tail]
    /\ s = (head ++ String "."%char tail)%string
    /\ contains_char "."%char tail = false.
Proof.
  induction s as [|c r IH]; cbn [contains_char rsplit_dot]; [discriminate|].
  intros H. destruct (contains_char "."%char r) eqn:Hr.
  - destruct (IH eq_refl) as [head [tail [-> [-> Ht]]]].
    exists (String c head), tail. split; [reflexivity|]. split; [reflexivity|exact Ht].
  - rewrite orb_false_r in H. rewrite (rsplit_dot_none r Hr), H.
    apply Ascii.eqb_eq in H. subst c.
    exists EmptyString, r. split; [reflexivity|]. split; [reflexivity|exact Hr].
Qed.

Lemma rsplit_dot_app head tail :
  contains_char "."%char tail = false ->
  rsplit_dot (head ++ String "."%char tail) = [head; tail].
Proof.
  intros Ht. induction head as [|c h IH].
  - rewrite append_nil_l. cbn [rsplit_dot]. rewrite (rsplit_dot_none tail Ht). reflexivity.
  - rewrite append_cons. cbn [rsplit_dot]. rewrite IH. reflexivity.
Qed.

Lemma rsplit_dot_lower s : rsplit_dot (lower s) = lower <$> rsplit_dot s.
Proof.
  induction s as [|c r IH]; cbn [lower rsplit_dot]; [reflexivity|].
  rewrite IH, eqb_dot_lower.
  destruct (rsplit_dot r) as [|x [|y l]]; cbn [fmap list_fmap]; [reflexivity| |reflexivity].
  destruct (Ascii.eqb c "."); reflexivity.
Qed.

Lemma contains_char_dot_lower s :
  contains_char "."%char (lower s) = contains_char "."%char s.
Proof.
  induction s as [|c r IH]; cbn [lower contains_char]; [reflexivity|].
  rewrite IH, eqb_dot_lower. reflexivity.
Qed.

Lemma allowed_file_iff filename :
  allowed_file filename = true
  <-> exists stem extension,
        filename = (stem ++ String "."%char extension)%string
        /\ contains_char "."%char extension = false
        /\ lower extension ∈ ALLOWED_EXTENSIONS.
Proof.
  unfold allowed_file. split.
  - intros H. apply andb_prop in H as [Hd H].
    destruct (rsplit_dot_some filename Hd) as [head [tail [Hr [Hf Ht]]]].
    rewrite Hr in H. cbn [lookup list_lookup] in H. apply bool_decide_eq_true in H.
    exists head, tail. split; [exact Hf|]. split; [exact Ht|exact H].
  - intros [stem [extension [-> [Hd He]]]].
    rewrite contains_char_app. cbn [contains_char]. rewrite orb_true_r. cbn [andb orb].
    rewrite (rsplit_dot_app stem extension Hd). cbn [lookup list_lookup].
    apply bool_decide_eq_true. exact He.
Qed.

Lemma allowed_file_stem stem stem' extension :
  contains_char "."%char extension = false ->
  allowed_file (stem ++ String "."%char extension)
  = allowed_file (stem' ++ String "."%char extension).
Proof.
  intros Hd. unfold allowed_file.
  rewrite !contains_char_app. cbn [contains_char]. rewrite !orb_true_r.
  rewrite !(rsplit_dot_app _ extension Hd). reflexivity.
Qed.

(** X12.  A file name is accepted exactly when it has a dot and the text
    after its last dot, lower-cased, is one of the five image extensions.
    A name without a dot is refused, and what stands before the last dot
    does not matter. *)
Theorem allowed_file_spec (filename : string) :
  (allowed_file filename = true
   <-> exists stem extension,
         filename = (stem ++ String "."%char extension)%string
         /\ contains_char "."%char extension = false
         /\ lower extension ∈ ALLOWED_EXTENSIONS)
  /\ (contains_char "."%char filename = false -> allowed_file filename = false)
  /\ (forall stem stem' extension,
        contains_char "."%char extension = false ->
        allowed_file (stem ++ String "."%char extension)
        = allowed_file (stem' ++ String "."%char extension)).
Proof.
  split; [apply allowed_file_iff|]. split; [|apply allowed_file_stem].
  intros H. unfold allowed_file. rewrite H. reflexivity.
Qed.

Lemma allowed_file_lower filename : allowed_file (lower filename) = allowed_file filename.
Proof.
  unfold allowed_file.
  rewrite contains_char_dot_lower, rsplit_dot_lower, list_lookup_fmap.
  destruct (rsplit_dot filename !! 1%nat) as [extension|]; [|reflexivity].
  cbn [fmap option_fmap option_map]. rewrite lower_idem. reflexivity.
Qed.

(** X13.  The check of the extension ignores letter case: two file names
    that differ only in the case of their letters are both accepted or
    both refused. *)
Theorem allowed_file_ignores_case (filename filename' : string) :
  lower filename = lower filename' ->
  allowed_file filename = allowed_file filename'.
Proof.
  intros H. rewrite <- (allowed_file_lower filename), <- (allowed_file_lower filename'), H.
  reflexivity.
Qed.

Lemma allowed_file_ignores_case_witness :
  lower "Photo.JPG" = lower "photo.jpg"
  /\ allowed_file "Photo.JPG" = allowed_file "photo.jpg".
Proof.
  split; [reflexivity|].
  exact (allowed_file_ignores_case "Photo.JPG" "photo.jpg" eq_refl).
Defined.

(** * Listings *)

Lemma elem_of_filter_if {A : Type} (b : bool) (P : A -> Prop) `{!forall x, Decision (P x)}
    (l : list A) (x : A) :
  x ∈ (if b then filter P l else l) <-> (b = true -> P x) /\ x ∈ l.
Proof.
  destruct b.
  - rewrite list_elem_of_filter. split; intros [H1 H2]; split; auto.
  - split; [intros Hx; split; [discriminate|exact Hx]|intros [_ Hx]; exact Hx].
Qed.

Lemma sql_true_spec column : sql_true column = true <-> column = Some true.
Proof. destruct column as [[]|]; cbn; split; congruence. Qed.

Lemma browse_listings_elem table location min_rent max_rent room_type l :
  l ∈ browse_listings table location min_rent max_rent room_type <->
  l ∈ table
  /\ Listing.is_active l = Some true
  /\ (strip location <> EmptyString ->
      ilike (Some (Listing.location l)) ("%" ++ strip location ++ "%")%string = true)
  /\ (forall m, min_rent = Some m -> m <> 0 -> m <= Listing.rent l)
  /\ (forall m, max_rent = Some m -> m <> 0 -> Listing.rent l <= m)
  /\ (room_type <> EmptyString -> Listing.room_type l = room_type).
Proof.
  unfold browse_listings. cbv zeta. rewrite sort_desc_perm.
  rewrite !elem_of_filter_if, list_elem_of_filter, sql_true_spec.
  rewrite !str_truthy_nonempty, !int_truthy_some.
  split.
  - intros [H5 [H4 [H3 [H2 [H1 H0]]]]]. repeat split; try assumption.
    + intros m -> Hm. apply Z.leb_le. apply H3. exists m. split; [reflexivity|exact Hm].
    + intros m -> Hm. apply Z.leb_le. apply H4. exists m. split; [reflexivity|exact Hm].
  - intros [H0 [H1 [H2 [H3 [H4 H5]]]]]. repeat split; try assumption.
    + intros [m [-> Hm]]. cbn. apply Z.leb_le. exact (H4 m eq_refl Hm).
    + intros [m [-> Hm]]. cbn. apply Z.leb_le. exact (H3 m eq_refl Hm).
Qed.


Lemma home_take table :
  home table = take 6 (browse_listings table EmptyString None None EmptyString).
Proof. reflexivity. Qed.

Lemma elem_of_take_drop {A : Type} (n : nat) (l : list A) (x : A) :
  x ∈ l -> x ∈ take n l \/ x ∈ drop n l.
Proof. rewrite <- (take_drop n l) at 1. apply elem_of_app. Qed.

Lemma elem_of_take {A : Type} (n : nat) (l : list A) (x : A) : x ∈ take n l -> x ∈ l.
Proof. intros H. rewrite <- (take_drop n l). apply elem_of_app. left. exact H. Qed.

(** X15.  The home page features at most six listings, all of them
    active rows of the table: they are the first six of the unfiltered
    listing search, and no active listing that is left out is newer than
    one that is featured. *)
Theorem home_featured (table : list Listing.t) :
  (List.length (home table) <= 6)%nat
  /\ home table = take 6 (browse_listings table EmptyString None None EmptyString)
  /\ Forall (fun l => l ∈ table /\ Listing.is_active l = Some true) (home table)
  /\ forall l l',
       l ∈ home table -> l' ∈ table -> Listing.is_active l' = Some true ->
       l' ∉ home table -> Listing.created_at l' <= Listing.created_at l.
Proof.
  split; [unfold home; rewrite length_take; lia|].
  split; [apply home_take|]. split.
  - apply Forall_forall. intros l Hl. rewrite home_take in Hl.
    apply elem_of_take, browse_listings_elem in Hl as [H1 [H2 _]]. split; assumption.
  - intros l l' Hl Hl' Hact Hout. rewrite home_take in Hl, Hout.
    set (all := browse_listings table EmptyString None None EmptyString) in *.
    assert (Hall : l' ∈ all).
    { apply browse_listings_elem. repeat split; try assumption;
        try (intros H; exfalso; apply H; reflexivity); intros m E; discriminate. }
    apply (elem_of_take_drop 6) in Hall as [Hin|Hin]; [contradiction|].
    pose proof (sort_desc_Z_sorted Listing.created_at
                  (filter (fun l => sql_true (Listing.is_active l) = true) table)) as Hs.
    change (sort_desc Listing.created_at Z.ltb
              (filter (fun l => sql_true (Listing.is_active l) = true) table))
      with all in Hs.
    rewrite <- (take_drop 6 all) in Hs.
    exact (StronglySorted_app_1_elem_of _ _ _ _ _ Hs Hl Hin).
Qed.

(** ** Deleting a listing *)

Lemma query_get_filter_ne {A : Type} (pk : A -> Z) table key key' :
  key' <> key ->
  query_get pk (filter (fun row => pk row <> key) table) key' = query_get pk table key'.
Proof.
  intros Hne. unfold query_get. induction table as [|x table IH]; [reflexivity|].
  rewrite filter_cons. cbn [List.find].
  destruct (decide (pk x <> key)) as [Hx|Hx].
  - cbn [List.find]. destruct (pk x =? key'); [reflexivity|exact IH].
  - destruct (Z.eqb_spec (pk x) key') as [E|E]; [|exact IH].
    exfalso. apply Hx. congruence.
Qed.

Lemma query_get_filter_eq {A : Type} (pk : A -> Z) table key :
  query_get pk (filter (fun row => pk row <> key) table) key = None.
Proof.
  unfold query_get. induction table as [|x table IH]; [reflexivity|].
  rewrite filter_cons. destruct (decide (pk x <> key)) as [Hx|Hx]; [|exact IH].
  cbn [List.find]. destruct (Z.eqb_spec (pk x) key) as [E|E]; [contradiction|exact IH].
Qed.

Lemma delete_listing_rows users table session listing_id :
  snd (delete_listing users table session listing_id) = table
  \/ exists user listing,
       session = Some (id user) /\ user ∈ users
       /\ listing ∈ table /\ Listing.id listing = listing_id
       /\ Listing.user_id listing = id user
       /\ delete_listing users table session listing_id
          = (RedirectTo "dashboard" "Listing deleted successfully.",
             filter (fun l => Listing.id l <> listing_id) table).
Proof.
  unfold delete_listing. destruct session as [uid|]; [|left; reflexivity].
  destruct (query_get Listing.id table listing_id) as [listing|] eqn:Hl; [|left; reflexivity].
  cbn [get_current_user].
  destruct (query_get id users uid) as [user|] eqn:Hu; [|left; reflexivity].
  destruct (Z.eqb_spec (Listing.user_id listing) (id user)) as [E|E]; [|left; reflexivity].
  right. apply query_get_some in Hl as [Hl1 Hl2]. apply query_get_some in Hu as [Hu1 Hu2].
  exists user, listing. subst uid. rewrite <- Hl2.
  repeat split; try assumption; reflexivity.
Qed.

(** X16.  Only the owner can delete a listing.  Whatever the request,
    the rows of the table afterwards are rows that were there before, and
    every listing with another identifier is kept; and if the table has
    changed, then the session belongs to a user, the listing belongs to
    that user, and the rows left are exactly those with another
    identifier.  A request without a session changes nothing. *)
Theorem delete_listing_by_owner_only (users : list User) (table : list Listing.t)
    (session : option Z) (listing_id : Z) :
  let after := snd (delete_listing users table session listing_id) in
  after `sublist_of` table
  /\ (forall l, l ∈ table -> Listing.id l <> listing_id -> l ∈ after)
  /\ (after <> table ->
      exists user listing,
        session = Some (id user) /\ user ∈ users
        /\ listing ∈ table /\ Listing.id listing = listing_id
        /\ Listing.user_id listing = id user
        /\ after = filter (fun l => Listing.id l <> listing_id) table)
  /\ (session = None ->
      delete_listing users table session listing_id
      = (RedirectTo "login" "Please log in to access this page.", table)).
Proof.
  intros after. subst after.
  destruct (delete_listing_rows users table session listing_id) as [H|H].
  - rewrite H. split; [reflexivity|]. split; [intros l Hl _; exact Hl|].
    split; [intros Hne; contradiction|]. intros ->. reflexivity.
  - destruct H as [user [listing [Hs [Hu [Hl [Hid [Hown Heq]]]]]]].
    rewrite Heq. cbn [snd]. split; [apply sublist_filter|].
    split; [intros l Hin Hne; apply list_elem_of_filter; split; assumption|].
    split; [|intros E; rewrite E in Hs; discriminate].
    intros _. exists user, listing. repeat split; assumption.
Qed.

(** X17.  After its owner has deleted a listing, the listing cannot be
    viewed any more and is in no search result, while every other
    listing is viewed as before. *)
Theorem delete_listing_then_gone (users : list User) (table : list Listing.t)
    (user : User) (listing : Listing.t) :
  query_get id users (id user) = Some user ->
  query_get Listing.id table (Listing.id listing) = Some listing ->
  Listing.user_id listing = id user ->
  let after := snd (delete_listing users table (Some (id user)) (Listing.id listing)) in
  fst (delete_listing users table (Some (id user)) (Listing.id listing))
  = RedirectTo "dashboard" "Listing deleted successfully."
  /\ view_listing after (Listing.id listing) = NotFound
  /\ (forall location min_rent max_rent room_type,
        Forall (fun l => Listing.id l <> Listing.id listing)
          (browse_listings after location min_rent max_rent room_type))
  /\ forall key, key <> Listing.id listing ->
       view_listing after key = view_listing table key.
Proof.
  intros Hu Hl Hown after. subst after.
  unfold delete_listing. cbn [get_current_user]. rewrite Hu, Hl, Hown, Z.eqb_refl.
  cbn [negb fst snd]. split; [reflexivity|]. split; [|split].
  - unfold view_listing. rewrite query_get_filter_eq. reflexivity.
  - intros location min_rent max_rent room_type. apply Forall_forall. intros l Hin.
    apply browse_listings_elem in Hin as [Hin _].
    apply list_elem_of_filter in Hin as [Hne _]. exact Hne.
  - intros key Hne. unfold view_listing. rewrite query_get_filter_ne by exact Hne.
    reflexivity.
Qed.

Lemma delete_listing_then_gone_witness :
  query_get id sample_table (id alice) = Some alice
  /\ query_get Listing.id sample_listings (Listing.id flat1) = Some flat1
  /\ Listing.user_id flat1 = id alice
  /\ fst (delete_listing sample_table sample_listings (Some (id alice)) (Listing.id flat1))
     = RedirectTo "dashboard" "Listing deleted successfully."
  /\ view_listing
       (snd (delete_listing sample_table sample_listings (Some (id alice)) (Listing.id flat1)))
       (Listing.id flat1) = NotFound
  /\ (forall location min_rent max_rent room_type,
        Forall (fun l => Listing.id l <> Listing.id flat1)
          (browse_listings
             (snd (delete_listing sample_table sample_listings (Some (id alice))
                     (Listing.id flat1)))
             location min_rent max_rent room_type))
  /\ forall key, key <> Listing.id flat1 ->
       view_listing
         (snd (delete_listing sample_table sample_listings (Some (id alice))
                 (Listing.id flat1))) key
       = view_listing sample_listings key.
Proof.
  split; [reflexivity|]. split; [reflexivity|]. split; [reflexivity|].
  exact (delete_listing_then_gone sample_table sample_listings alice flat1
           eq_refl eq_refl eq_refl).
Defined.

(** ** The dashboard *)

(** X18.  The dashboard lists exactly the listings that the logged-in
    user owns, active or not, the newest first, and each of them can be
    deleted from there: with unique listing identifiers the deletion of a
    listed entry removes that row.  Without a session the visitor is sent
    to the login page. *)
Theorem dashboard_own_listings (users : list User) (table : list Listing.t)
    (session : option Z) (user : User) (mine : list Listing.t) :
  dashboard users table session = Page (user, mine) ->
  session = Some (id user)
  /\ (forall l, l ∈ mine <-> l ∈ table /\ Listing.user_id l = id user)
  /\ StronglySorted (fun l1 l2 => Listing.created_at l2 <= Listing.created_at l1) mine
  /\ (NoDup (Listing.id <$> table) ->
      forall l, l ∈ mine ->
        delete_listing users table session (Listing.id l)
        = (RedirectTo "dashboard" "Listing deleted successfully.",
           filter (fun l' => Listing.id l' <> Listing.id l) table))
  /\ dashboard users table None = RedirectTo "login" "Please log in to access this page.".
Proof.
  unfold dashboard. destruct session as [uid|]; [|discriminate].
  destruct (get_current_user users (Some uid)) as [u|] eqn:Hu; [|discriminate].
  intros H. injection H as -> <-.
  pose proof Hu as Hu'. cbn [get_current_user] in Hu'.
  apply query_get_some in Hu' as [_ <-].
  split; [reflexivity|].
  assert (Hmine : forall l,
            l ∈ sort_desc Listing.created_at Z.ltb
                  (filter (fun l => Listing.user_id l = id user) table)
            <-> l ∈ table /\ Listing.user_id l = id user).
  { intros l. rewrite sort_desc_perm, list_elem_of_filter. tauto. }
  split; [exact Hmine|]. split; [apply sort_desc_Z_sorted|]. split; [|reflexivity].
  intros Hnd l Hl. apply Hmine in Hl as [Hin Hown].
  unfold delete_listing. rewrite Hu, (query_get_unique Listing.id table l Hnd Hin), Hown.
  rewrite Z.eqb_refl. reflexivity.
Qed.

Lemma dashboard_own_listings_witness :
  dashboard sample_table sample_listings (Some 1) = Page (alice, [flat3; flat1])
  /\ Some 1 = Some (id alice)
  /\ (forall l, l ∈ [flat3; flat1] <-> l ∈ sample_listings /\ Listing.user_id l = id alice)
  /\ StronglySorted (fun l1 l2 => Listing.created_at l2 <= Listing.created_at l1)
       [flat3; flat1]
  /\ (NoDup (Listing.id <$> sample_listings) ->
      forall l, l ∈ [flat3; flat1] ->
        delete_listing sample_table sample_listings (Some 1) (Listing.id l)
        = (RedirectTo "dashboard" "Listing deleted successfully.",
           filter (fun l' => Listing.id l' <> Listing.id l) sample_listings))
  /\ dashboard sample_table sample_listings None
     = RedirectTo "login" "Please log in to access this page.".
Proof.
  assert (H : dashboard sample_table sample_listings (Some 1) = Page (alice, [flat3; flat1]))
    by reflexivity.
  split; [exact H|].
  exact (dashboard_own_listings sample_table sample_listings (Some 1) alice _ H).
Defined.

(** * The profile page of a roommate *)



(** X20.  The score on a roommate's profile page is the score shown for
    that roommate in the search result: with unique user identifiers,
    every entry of the result of a logged-in visitor leads to the page of
    that candidate with that score. *)
Theorem view_roommate_agrees_with_browse (users : list User) (session : option Z)
    (cu : User) (location : string) (min_budget max_budget : option Z)
    (out : list Roommate) :
  NoDup (id <$> users) ->
  get_current_user users session = Some cu ->
  browse_roommates users (Some cu) location min_budget max_budget = Ok out ->
  Forall (fun r => view_roommate users session (id (user r)) = Page (user r, score r)) out.
Proof.
  intros Hnd Hcu Hout.
  pose proof (rank_scores _ _ _ Hout) as Hs.
  pose proof (browse_roommates_users _ _ _ _ _ _ Hout) as Hp.
  rewrite Forall_forall in Hs |- *. intros r Hr.
  assert (Hu : user r ∈ roommates_query users (Some cu) (strip location) min_budget max_budget).
  { rewrite <- Hp. apply list_elem_of_fmap. exists r. split; [reflexivity|exact Hr]. }
  apply roommates_query_elem in Hu as [Hin [Hne _]].
  unfold view_roommate. rewrite (query_get_unique id users (user r) Hnd Hin), Hcu.
  destruct (Z.eqb_spec (id cu) (id (user r))) as [E|E].
  - exfalso. apply (Hne cu eq_refl). symmetry. exact E.
  - cbn [negb]. rewrite (Hs r Hr). reflexivity.
Qed.

Lemma view_roommate_agrees_with_browse_witness :
  NoDup (id <$> sample_table)
  /\ get_current_user sample_table (Some 1) = Some alice
  /\ browse_roommates sample_table (Some alice) EmptyString None None
     = Ok [mkRoommate bob (tenths 54); mkRoommate carol (tenths 25)]
  /\ Forall (fun r => view_roommate sample_table (Some 1) (id (user r))
                      = Page (user r, score r))
       [mkRoommate bob (tenths 54); mkRoommate carol (tenths 25)].
Proof.
  assert (H1 : NoDup (id <$> sample_table)).
  { cbn. repeat (apply NoDup_cons_2; [rewrite ?elem_of_cons, elem_of_nil; lia|]).
    apply NoDup_nil_2. }
  assert (H2 : get_current_user sample_table (Some 1) = Some alice) by reflexivity.
  assert (H3 : browse_roommates sample_table (Some alice) EmptyString None None
               = Ok [mkRoommate bob (tenths 54); mkRoommate carol (tenths 25)])
    by (vm_compute; reflexivity).
  split; [exact H1|]. split; [exact H2|]. split; [exact H3|].
  exact (view_roommate_agrees_with_browse sample_table (Some 1) alice EmptyString
           None None _ H1 H2 H3).
Defined.

(** * More on the scorer *)

Lemma round1_tenths s :
  shaped false s -> exists k, 0 <= k <= 100 /\ round1 (py_min s ten) = tenths k.
Proof.
  intros Hs. unfold py_min.
  destruct (ltb ten s) eqn:Hlt.
  { exists 100. split; [lia|]. vm_compute. reflexivity. }
  destruct s as [sx|sx| |sx m e]; cbn [shaped] in Hs; try contradiction.
  - subst sx. exists 0. split; [lia|reflexivity].
  - subst sx. discriminate Hlt.
  - destruct Hs as [-> [Hd _]].
    unfold ltb, SFltb, ten in Hlt. cbn [SFcompare] in Hlt.
    rewrite Pos.compare_cont_spec in Hlt. cbn [Pos.switch_Eq] in Hlt.
    assert (Hm : Zpos m < 2 ^ 53).
    { pose proof (Zdigits2_bounds (Zpos m) ltac:(lia)) as [_ Hhi].
      apply Z.lt_le_trans with (1 := Hhi). apply Z.pow_le_mono_r; lia. }
    change (2 ^ 53) with 9007199254740992 in Hm.
    assert (He : e <= -50 \/ e = -49 /\ Zpos m <= 5629499534213120).
    { destruct (Z.compare_spec (-49) e) as [Heq|Hl|Hg]; [|discriminate|lia].
      right. split; [lia|].
      destruct (Pos.compare_spec 5629499534213120 m) as [Hc|Hc|Hc];
        [|discriminate|].
      - rewrite <- Hc. lia.
      - apply Pos2Z.pos_lt_pos in Hc. lia. }
    clear Hlt Hd.
    unfold round1.
    destruct (Z.leb_spec 0 e) as [Hpos|Hneg]; [lia|].
    assert (Hb : 0 <= rne_div (10 * Zpos m) (2 ^ (- e)) <= 100).
    { apply rne_div_bounds; [apply Z.pow_pos_nonneg; lia|].
      split; [lia|].
      destruct He as [He|[-> Hm5]].
      - assert (2 ^ 50 <= 2 ^ (- e)) by (apply Z.pow_le_mono_r; lia).
        change (2 ^ 50) with 1125899906842624 in *. lia.
      - change (2 ^ (- -49)) with 562949953421312. lia. }
    destruct (rne_div (10 * Zpos m) (2 ^ (- e))) as [|t|t].
    + exists 0. split; [lia|reflexivity].
    + exists (Zpos t). split; [lia|reflexivity].
    + lia.
Qed.

(** X21.  A score is a whole number of tenths: for profiles with budgets
    that are not negative, the scorer returns one of the 101 values
    0.0, 0.1, ..., 10.0. *)
Theorem score_is_tenths (a b : User) :
  well_formed a -> well_formed b ->
  exists k, 0 <= k <= 100 /\ calculate_compatibility a b = Ok (tenths k).
Proof.
  intros Ha Hb.
  destruct (budget_component_ok a b Ha Hb) as [c2 [Hc2 Hs2]].
  destruct (lifestyle_component_ok a b) as [c3 [Hc3 Hs3]].
  destruct (round1_tenths (location_component a b + c2 + c3)%F) as [k [Hk Hr]].
  { repeat apply add_shaped; try assumption. apply location_component_shaped. }
  exists k. split; [exact Hk|].
  rewrite calculate_compatibility_components, Hc2, Hc3. cbn [bind]. rewrite Hr. reflexivity.
Qed.

Lemma score_is_tenths_witness :
  well_formed alice /\ well_formed bob
  /\ exists k, 0 <= k <= 100 /\ calculate_compatibility alice bob = Ok (tenths k).
Proof.
  assert (Ha : well_formed alice) by (unfold well_formed; simpl; lia).
  assert (Hb : well_formed bob) by (unfold well_formed; simpl; lia).
  split; [exact Ha|]. split; [exact Hb|].
  exact (score_is_tenths alice bob Ha Hb).
Defined.

(** A quotient of a number below [2^1023] by a positive number does not
    overflow. *)
Lemma int_truediv_bounded a b :
  0 <= a < 2 ^ 1023 -> 0 < b ->
  exists q, int_truediv a b = Ok q /\ shaped false q.
Proof.
  intros Ha Hb. unfold int_truediv.
  destruct (Z.eqb_spec b 0) as [|_]; [lia|].
  pose proof (div_exact_shaped a b ltac:(lia) Hb) as Hs.
  assert (Hni : forall s, div (exact a) (exact b) <> S754_infinity s).
  { destruct a as [|p|p], b as [|q|q]; try lia; try discriminate.
    unfold div, exact, SFdiv, prec, emax. cbn [xorb].
    pose proof (div_core_quot p q) as Hc.
    destruct (SFdiv_core_binary 53 1024 (Zpos p) 0 (Zpos q) 0) as [[mz ez] lz].
    destruct Hc as [He Hm]. intros s.
    assert (Hez : ez <= 0) by lia.
    assert (Hp2 : 0 < 2 ^ (- ez)) by (apply Z.pow_pos_nonneg; lia).
    assert (Hmz : 0 <= mz <= Zpos p * 2 ^ (- ez)).
    { subst mz. split.
      - apply Z.div_pos; nia.
      - apply Z.div_le_upper_bound; [lia|]. nia. }
    assert (Hdp : Zdigits2 (Zpos p) <= 1023).
    { apply Zdigits2_lt_pow; lia. }
    apply bra_not_inf; [lia|lia|].
    assert (Zdigits2 mz <= Zdigits2 (Zpos p) + - ez); [|lia].
    rewrite <- Zdigits2_mul_pow by lia. apply Zdigits2_le. lia. }
  destruct (div (exact a) (exact b)) as [s|s| |s m e] eqn:Hd.
  - eexists; split; [reflexivity|exact Hs].
  - exfalso. exact (Hni s eq_refl).
  - contradiction.
  - eexists; split; [reflexivity|exact Hs].
Qed.

Lemma budget_component_int64 a b :
  sql_integer a -> sql_integer b ->
  exists c, budget_component a b = Ok c /\ shaped false c.
Proof.
  unfold sql_integer. intros Ha Hb.
  assert (H : exists c, budget_component a b = Ok c).
  { unfold budget_component.
    destruct (_ && _); [|eexists; reflexivity].
    destruct (Z.ltb_spec 0 (Z.max (default 0 (budget a)) (default 0 (budget b))))
      as [Hmax|_]; [|eexists; reflexivity].
    destruct (int_truediv_bounded
                (Z.abs (default 0 (budget a) - default 0 (budget b)))
                (Z.max (default 0 (budget a)) (default 0 (budget b))))
      as [q [-> _]]; [|exact Hmax|eexists; reflexivity].
    assert (H64 : 2 ^ 64 < 2 ^ 1023) by (apply Z.pow_lt_mono_r; lia).
    change (2 ^ 64) with 18446744073709551616 in H64.
    change (2 ^ 63) with 9223372036854775808 in *.
    clear Hmax. set (B := 2 ^ 1023) in *. clearbody B.
    destruct (budget a), (budget b); simpl in *; lia. }
  destruct H as [c Hc]. exists c. split; [exact Hc|].
  eapply budget_component_shaped, Hc.
Qed.

(** X22.  The scorer needs no sign condition on the budgets: for any two
    profiles whose budgets fit the 64-bit integer column, negative
    budgets included, it returns a score between 0 and 10.  Beyond that
    range the division of the budgets can overflow, as it does for the
    budgets [- 2^1100] and [1]. *)
Theorem score_total_int64 (a b : User) :
  sql_integer a -> sql_integer b ->
  (exists r, calculate_compatibility a b = Ok r
             /\ leb zero r = true /\ leb r ten = true)
  /\ calculate_compatibility huge_debt one_unit = Raise OverflowError.
Proof.
  intros Ha Hb. split; [|vm_compute; reflexivity].
  destruct (budget_component_int64 a b Ha Hb) as [c2 [Hc2 Hs2]].
  destruct (lifestyle_component_ok a b) as [c3 [Hc3 Hs3]].
  eexists. split.
  - rewrite calculate_compatibility_components, Hc2, Hc3. reflexivity.
  - apply andb_true_iff. apply round1_in_range.
    repeat apply add_shaped; try assumption. apply location_component_shaped.
Qed.

Lemma score_total_int64_witness :
  sql_integer (mkUser 15 (Some (-500)) (Some "Pune") None 150) /\ sql_integer alice
  /\ (exists r, calculate_compatibility (mkUser 15 (Some (-500)) (Some "Pune") None 150) alice
                = Ok r
                /\ leb zero r = true /\ leb r ten = true)
  /\ calculate_compatibility huge_debt one_unit = Raise OverflowError.
Proof.
  assert (Ha : sql_integer (mkUser 15 (Some (-500)) (Some "Pune") None 150)).
  { unfold sql_integer. cbn [budget]. change (2 ^ 63) with 9223372036854775808. lia. }
  assert (Hb : sql_integer alice).
  { unfold sql_integer. cbn [budget alice]. change (2 ^ 63) with 9223372036854775808. lia. }
  split; [exact Ha|]. split; [exact Hb|].
  exact (score_total_int64 _ alice Ha Hb).
Defined.

(** * The location list of the filter *)

Lemma elem_of_foldl_extend {A B : Type} (f : A -> list B) (acc : list B) (l : list A) x :
  x ∈ foldl (fun acc a => acc ++ f a) acc l <-> x ∈ acc \/ exists a, a ∈ l /\ x ∈ f a.
Proof.
  revert acc. induction l as [|a l IH]; intros acc; cbn [foldl].
  - split; [intros H; left; exact H|].
    intros [H|[a [Ha _]]]; [exact H|]. apply elem_of_nil in Ha. contradiction.
  - rewrite IH, elem_of_app. split.
    + intros [[H|H]|[a' [Ha' H]]].
      * left. exact H.
      * right. exists a. split; [apply elem_of_cons; left; reflexivity|exact H].
      * right. exists a'. split; [apply elem_of_cons; right; exact Ha'|exact H].
    + intros [H|[a' [Ha' H]]]; [left; left; exact H|].
      apply elem_of_cons in Ha' as [->|Ha'].
      * left. right. exact H.
      * right. exists a'. split; assumption.
Qed.

Lemma elem_of_unique_locations table x :
  x ∈ unique_locations table <-> exists u, u ∈ table /\ x ∈ get_locations_list u.
Proof.
  unfold unique_locations, all_users_locations.
  rewrite elem_of_list_to_set, elem_of_foldl_extend. split.
  - intros [H|H]; [apply elem_of_nil in H; contradiction|exact H].
  - intros H. right. exact H.
Qed.

(** X23.  The filter of the roommate search offers exactly the entries
    of the location lists of all rows of the table, whatever the search
    and whoever the visitor; every entry is trimmed, and its letter case
    is kept, while the scorer compares the lower-cased entries. *)
Theorem unique_locations_spec (table : list User) :
  (forall x, x ∈ unique_locations table
             <-> exists u, u ∈ table /\ x ∈ get_locations_list u)
  /\ (forall x, x ∈ unique_locations table -> strip x = x)
  /\ (forall u y, u ∈ table -> y ∈ locations_set u ->
      exists x, x ∈ unique_locations table /\ y = lower x).
Proof.
  split; [apply elem_of_unique_locations|]. split.
  - intros x Hx. apply elem_of_unique_locations in Hx as [u [_ Hx]].
    pose proof (comma_list_entries (preferred_locations u)) as He.
    unfold get_locations_list in Hx.
    destruct (preferred_locations u) as [[|c r]|]; cbn [entries_of] in He.
    + apply elem_of_nil in Hx. contradiction.
    + destruct He as [_ He]. rewrite Forall_forall in He. apply (He x Hx).
    + apply elem_of_nil in Hx. contradiction.
  - intros u y Hu Hy. unfold locations_set, lower_set in Hy.
    apply elem_of_list_to_set, list_elem_of_fmap in Hy as [x [-> Hx]].
    exists x. split; [|reflexivity].
    apply elem_of_unique_locations. exists u. split; assumption.
Qed.

(** * Registration *)



Example register_dana :
  register [] dana_form 1 0
  = (RedirectTo "login" "Registration successful! Please log in.",
     [Account.mk "dana@example.com" "Dana"
        (mkUser 1 (Some 700) (Some "Pune, Mumbai") (Some "non-smoker") 0)]).
Proof. reflexivity. Qed.

(** * The lifestyle component at its ends *)

Lemma int_truediv_zero n : 0 < n -> int_truediv 0 n = Ok zero.
Proof.
  intros Hn. unfold int_truediv. destruct (Z.eqb_spec n 0) as [|_]; [lia|].
  destruct n as [|p|p]; try lia. reflexivity.
Qed.

Lemma lifestyle_component_disjoint a b :
  lifestyle_set a ∩ lifestyle_set b = ∅ -> lifestyle_component a b = Ok zero.
Proof.
  intros Hd. unfold lifestyle_component.
  destruct (set_truthy (lifestyle_set a) && set_truthy (lifestyle_set b)) eqn:Hg;
    [|reflexivity].
  destruct (set_truthy (lifestyle_set a ∪ lifestyle_set b)) eqn:Hu; [|reflexivity].
  apply set_truthy_true in Hu. rewrite Hd, len_empty.
  rewrite int_truediv_zero by (apply len_pos, Hu). reflexivity.
Qed.

(** X25.  The lifestyle component is 0 when the two profiles share no
    tag, and 2.0 when their tag sets are equal and not empty, whatever
    the order, the letter case and the repetitions of the tags in the two
    texts. *)
Theorem lifestyle_component_extremes (a b : User) :
  (lifestyle_set a ∩ lifestyle_set b = ∅ -> lifestyle_component a b = Ok zero)
  /\ (lifestyle_set a = lifestyle_set b -> lifestyle_set a <> ∅ ->
      lifestyle_component a b = Ok two).
Proof.
  split; [apply lifestyle_component_disjoint|].
  intros He Hne. unfold lifestyle_component. rewrite <- He.
  exact (lifestyle_component_self a Hne).
Qed.

(** * Posting a listing *)





(** * Updating a profile *)





(** * Values and ranges of the components *)

Lemma fexp_mono a b : a <= b -> fexp a <= fexp b.
Proof. rewrite !fexp_eq. lia. Qed.

Lemma canonical_digits m e : canonical m e -> Zdigits2 (Zpos m) <= 53 /\ -1074 <= e.
Proof. unfold canonical. rewrite fexp_eq. lia. Qed.

Lemma valid_shaped x : valid x -> shaped false x.
Proof.
  destruct x as [s|s| |s m e]; cbn [valid shaped]; try tauto.
  intros [-> [Hc He]]. apply canonical_digits in Hc. split; [reflexivity|lia].
Qed.

Lemma pow2_lt_inv a b : 0 <= a -> 2 ^ a < 2 ^ b -> a < b.
Proof.
  intros Ha H. destruct (Z_lt_le_dec a b) as [|Hle]; [assumption|].
  destruct (Z_lt_le_dec b 0) as [Hb|Hb].
  - rewrite (Z.pow_neg_r 2 b Hb) in H. pose proof (Z.pow_pos_nonneg 2 a). lia.
  - pose proof (Z.pow_le_mono_r 2 b a). lia.
Qed.

Lemma Zdigits2_ge1 m : 0 < m -> 1 <= Zdigits2 m.
Proof.
  intros Hm. apply (Zdigits2_ge_pow m 0); [lia|]. change (2 ^ 0) with 1. lia.
Qed.

(** Magnitude: 2^(d-1+e) <= m 2^e < 2^(d+e) *)
Lemma scaled_bounds m e :
  -2200 <= e ->
  2 ^ (Zdigits2 (Zpos m) - 1 + e + 2200) <= Zpos m * 2 ^ (e + 2200)
  < 2 ^ (Zdigits2 (Zpos m) + e + 2200).
Proof.
  intros He. pose proof (Zdigits2_bounds (Zpos m) ltac:(lia)) as [Hlo Hhi].
  assert (Hd : 1 <= Zdigits2 (Zpos m)) by (apply Zdigits2_ge1; lia).
  assert (Hp : 0 < 2 ^ (e + 2200)) by (apply Z.pow_pos_nonneg; lia).
  replace (Zdigits2 (Zpos m) - 1 + e + 2200) with ((Zdigits2 (Zpos m) - 1) + (e + 2200)) by lia.
  replace (Zdigits2 (Zpos m) + e + 2200) with (Zdigits2 (Zpos m) + (e + 2200)) by lia.
  rewrite (Z.pow_add_r 2 (Zdigits2 (Zpos m) - 1) (e + 2200)) by lia.
  rewrite (Z.pow_add_r 2 (Zdigits2 (Zpos m)) (e + 2200)) by lia.
  split.
  - apply Z.mul_le_mono_nonneg_r; lia.
  - apply Z.mul_lt_mono_pos_r; lia.
Qed.

(** Rounding below a bound: an input with enough digits that lies below
    a representable bound rounds to a valid float that is not above the
    bound. *)
Lemma bra_le mx ex lx mB eB :
  0 < mx -> -2200 <= ex ->
  ex <= fexp (Zdigits2 mx + ex) ->
  canonical mB eB -> eB <= 971 ->
  mx * 2 ^ (ex + 2200) < Zpos mB * 2 ^ (eB + 2200) ->
  valid (bra false mx ex lx)
  /\ scaled (bra false mx ex lx) <= Zpos mB * 2 ^ (eB + 2200).
Proof.
  intros Hmx Hex Hk HcB HeB Hlt.
  destruct (binary_round_aux_spec false mx ex lx ltac:(lia)) as [m1 [Hm1 ->]].
  cbv zeta in Hm1.
  pose proof (canonical_digits _ _ HcB) as [HdB HeB'].
  set (e1 := fexp (Zdigits2 mx + ex)) in *.
  assert (Hshift : shift_of mx ex = e1 - ex) by (unfold shift_of; fold e1; lia).
  rewrite Hshift in *.
  set (k := e1 - ex) in *.
  assert (Hk0 : 0 <= k) by (unfold k; lia).
  replace (ex + k) with e1 in * by (unfold k; lia).
  assert (He1 : -1074 <= e1) by (unfold e1; rewrite fexp_eq; lia).
  (* the bound lies on the grid of e1 *)
  assert (Hmag : Zdigits2 mx + ex <= Zdigits2 (Zpos mB) + eB).
  { destruct mx as [|p|p]; try lia.
    pose proof (scaled_bounds p ex Hex) as [Hlo _].
    pose proof (scaled_bounds mB eB ltac:(lia)) as [_ Hhi].
    assert (H2 : 2 ^ (Zdigits2 (Zpos p) - 1 + ex + 2200) < 2 ^ (Zdigits2 (Zpos mB) + eB + 2200)) by lia.
    apply pow2_lt_inv in H2; [lia|].
    assert (1 <= Zdigits2 (Zpos p)) by (apply Zdigits2_ge1; lia). lia. }
  assert (HeB1 : e1 <= eB).
  { unfold e1. rewrite HcB. apply fexp_mono. exact Hmag. }
  set (K := Zpos mB * 2 ^ (eB - e1)).
  assert (HK : Zpos mB * 2 ^ (eB + 2200) = K * 2 ^ (e1 + 2200)).
  { unfold K. rewrite <- Z.mul_assoc, <- Z.pow_add_r by lia. f_equal. f_equal. lia. }
  assert (Hfl : mx / 2 ^ k < K).
  { apply Z.div_lt_upper_bound; [apply Z.pow_pos_nonneg; lia|].
    rewrite HK in Hlt.
    replace (ex + 2200) with ((e1 + 2200) - k) in Hlt by (unfold k; lia).
    assert (Hp : 2 ^ (e1 + 2200) = 2 ^ (e1 + 2200 - k) * 2 ^ k).
    { rewrite <- Z.pow_add_r by (unfold k; lia). f_equal. lia. }
    rewrite Hp in Hlt.
    assert (0 < 2 ^ (e1 + 2200 - k)) by (apply Z.pow_pos_nonneg; unfold k; lia).
    nia. }
  assert (Hm1K : m1 <= K) by lia.
  assert (Hfl0 : 0 <= mx / 2 ^ k) by (apply Z.div_pos; [lia|apply Z.pow_pos_nonneg; lia]).
  pose proof (Zdigits2_div_pow mx k ltac:(lia) Hk0) as Hdfl.
  assert (Hdmx : 1 <= Zdigits2 mx) by (apply Zdigits2_ge1; lia).
  assert (Hdfl53 : Zdigits2 (mx / 2 ^ k) <= 53).
  { rewrite Hdfl. unfold k, e1. rewrite fexp_eq. lia. }
  assert (Hfl53 : mx / 2 ^ k < 2 ^ 53).
  { destruct (Z.eq_dec (mx / 2 ^ k) 0) as [->|Hn]; [reflexivity|].
    pose proof (Zdigits2_bounds (mx / 2 ^ k) ltac:(lia)) as [_ Hhi].
    eapply Z.lt_le_trans; [exact Hhi|]. apply Z.pow_le_mono_r; lia. }
  assert (Hm1b : 0 <= m1 <= 2 ^ 53) by lia.
  unfold pack.
  set (k2 := shift_of m1 e1).
  destruct (Z.eq_dec m1 (2 ^ 53)) as [Htop|Hntop].
  - (* the mantissa has grown to 2^53 *)
    assert (Hk2 : k2 = 1).
    { unfold k2, shift_of. rewrite Htop. change (Zdigits2 (2 ^ 53)) with 54.
      rewrite fexp_eq. lia. }
    rewrite Hk2, Htop. change (2 ^ 53 / 2 ^ 1) with (Zpos 4503599627370496).
    cbv beta iota.
    assert (He1B : e1 + 1 <= eB).
    { destruct (Z_lt_le_dec e1 eB) as [|Hge]; [lia|]. exfalso.
      assert (eB = e1) by lia. subst eB. unfold K in Hm1K.
      rewrite Z.sub_diag, Z.pow_0_r, Z.mul_1_r in Hm1K.
      pose proof (Zdigits2_bounds (Zpos mB) ltac:(lia)) as [_ Hhi].
      assert (2 ^ Zdigits2 (Zpos mB) <= 2 ^ 53) by (apply Z.pow_le_mono_r; lia).
      lia. }
    destruct (Z.leb_spec (e1 + 1) (1024 - 53)) as [Hle|Hgt]; [|lia].
    cbn [valid scaled]. split.
    + split; [reflexivity|]. split; [|lia].
      unfold canonical. change (Zdigits2 (Zpos 4503599627370496)) with 53.
      rewrite fexp_eq. lia.
    + rewrite HK. rewrite Htop in Hm1K.
      replace (e1 + 1 + 2200) with (1 + (e1 + 2200)) by lia.
      rewrite Z.pow_add_r by lia. change (2 ^ 1) with 2.
      change (2 ^ 53) with 9007199254740992 in Hm1K.
      assert (0 < 2 ^ (e1 + 2200)) by (apply Z.pow_pos_nonneg; lia).
      nia.
  - assert (Hm1lt : m1 < 2 ^ 53) by lia.
    assert (Hdm1 : Zdigits2 m1 <= 53) by (apply Zdigits2_lt_pow; lia).
    assert (Hdm1' : Zdigits2 (mx / 2 ^ k) <= Zdigits2 m1) by (apply Zdigits2_le; lia).
    assert (Hk2 : k2 = 0).
    { unfold k2, shift_of. rewrite fexp_eq. lia. }
    rewrite Hk2, Z.pow_0_r, Z.div_1_r, Z.add_0_r.
    destruct m1 as [|p|p]; [cbn; split; [reflexivity|]|  |lia].
    + apply Z.mul_nonneg_nonneg; [lia|]. apply Z.pow_nonneg. lia.
    + destruct (Z.leb_spec e1 (1024 - 53)) as [Hle|Hgt]; [|lia].
      cbn [valid scaled]. split.
      * split; [reflexivity|]. split; [|lia].
        unfold canonical. rewrite fexp_eq.
        rewrite Hdfl in Hdm1'. unfold k, e1 in *. rewrite fexp_eq in *. lia.
      * rewrite HK.
        assert (0 < 2 ^ (e1 + 2200)) by (apply Z.pow_pos_nonneg; lia).
        nia.
Qed.

Lemma canonical_le_lex m e m' e' :
  canonical m e -> canonical m' e' ->
  Zpos m * 2 ^ (e + 2200) <= Zpos m' * 2 ^ (e' + 2200) ->
  e < e' \/ (e = e' /\ Zpos m <= Zpos m').
Proof.
  intros Hc Hc' Hle.
  pose proof (canonical_digits _ _ Hc) as [Hd He].
  pose proof (canonical_digits _ _ Hc') as [Hd' He'].
  destruct (Z.lt_trichotomy e e') as [Hlt|[Heq|Hgt]]; [left; exact Hlt| |].
  - right. split; [exact Heq|]. subst e'.
    assert (0 < 2 ^ (e + 2200)) by (apply Z.pow_pos_nonneg; lia).
    nia.
  - exfalso.
    assert (Hd53 : Zdigits2 (Zpos m) = 53).
    { unfold canonical in Hc. rewrite fexp_eq in Hc. lia. }
    pose proof (scaled_bounds m e ltac:(lia)) as [Hlo _].
    pose proof (scaled_bounds m' e' ltac:(lia)) as [_ Hhi].
    rewrite Hd53 in Hlo.
    assert (Hp : 2 ^ (Zdigits2 (Zpos m') + e' + 2200) <= 2 ^ (53 - 1 + e + 2200))
      by (apply Z.pow_le_mono_r; lia).
    lia.
Qed.

(** On valid floats the comparison of the floats is the comparison of
    their values. *)
Lemma valid_le x y :
  valid x -> valid y -> scaled x <= scaled y ->
  ltb y x = false /\ leb x y = true.
Proof.
  destruct x as [sx|sx| |sx mx ex], y as [sy|sy| |sy my ey];
    cbn [valid scaled]; intros Hx Hy Hle; try contradiction.
  - subst. split; reflexivity.
  - destruct Hy as [-> _]. split; reflexivity.
  - exfalso. assert (0 < 2 ^ (ex + 2200)).
    { apply Z.pow_pos_nonneg; [lia|]. destruct Hx as [_ [Hc _]].
      apply canonical_digits in Hc. lia. }
    nia.
  - destruct Hx as [-> [Hcx _]], Hy as [-> [Hcy _]].
    destruct (canonical_le_lex _ _ _ _ Hcx Hcy Hle) as [Hlt|[-> Hm]].
    + unfold ltb, leb, SFltb, SFleb. cbn [SFcompare].
      rewrite (proj2 (Z.compare_gt_iff ey ex) Hlt), (proj2 (Z.compare_lt_iff ex ey) Hlt).
      split; reflexivity.
    + unfold ltb, leb, SFltb, SFleb. cbn [SFcompare].
      rewrite Z.compare_refl, !Pos.compare_cont_spec. cbn [Pos.switch_Eq].
      destruct (Pos.compare_spec my mx) as [E|E|E];
        destruct (Pos.compare_spec mx my) as [E'|E'|E']; try (split; reflexivity);
        exfalso; clear - Hm E E';
        try (apply Pos2Z.pos_lt_pos in E); try (apply Pos2Z.pos_lt_pos in E');
        try (apply (f_equal Zpos) in E); try (apply (f_equal Zpos) in E'); lia.
Qed.

Lemma valid_eq x y : valid x -> valid y -> scaled x = scaled y -> x = y.
Proof.
  destruct x as [sx|sx| |sx mx ex], y as [sy|sy| |sy my ey];
    cbn [valid scaled]; intros Hx Hy Heq; try contradiction.
  - subst. reflexivity.
  - exfalso. assert (0 < 2 ^ (ey + 2200)).
    { apply Z.pow_pos_nonneg; [lia|]. destruct Hy as [_ [Hc _]].
      apply canonical_digits in Hc. lia. }
    nia.
  - exfalso. assert (0 < 2 ^ (ex + 2200)).
    { apply Z.pow_pos_nonneg; [lia|]. destruct Hx as [_ [Hc _]].
      apply canonical_digits in Hc. lia. }
    nia.
  - destruct Hx as [-> [Hcx _]], Hy as [-> [Hcy _]].
    destruct (canonical_le_lex _ _ _ _ Hcx Hcy ltac:(lia)) as [Hlt|[-> Hm]];
      destruct (canonical_le_lex _ _ _ _ Hcy Hcx ltac:(lia)) as [Hlt'|[E' Hm']];
      try lia.
    f_equal. apply Pos2Z.inj. lia.
Qed.

Lemma valid_nonneg x : valid x -> 0 <= scaled x.
Proof.
  destruct x as [sx|sx| |sx mx ex]; cbn [valid scaled]; lia.
Qed.

Lemma binary_round_le mx ex mB eB :
  -2200 <= ex -> canonical mB eB -> eB <= 971 ->
  Zpos mx * 2 ^ (ex + 2200) < Zpos mB * 2 ^ (eB + 2200) ->
  valid (binary_round 53 1024 false mx ex)
  /\ scaled (binary_round 53 1024 false mx ex) <= Zpos mB * 2 ^ (eB + 2200).
Proof.
  intros Hex HcB HeB Hlt. unfold binary_round.
  pose proof (shl_align_spec mx ex (fexp (Zpos (digits2_pos mx) + ex))) as Hs.
  destruct (shl_align mx ex (fexp (Zpos (digits2_pos mx) + ex))) as [mz ez].
  destruct Hs as [Hd [Hez Hmz]].
  change (Zpos (digits2_pos mx)) with (Zdigits2 (Zpos mx)) in *.
  assert (Hf : -1074 <= fexp (Zdigits2 (Zpos mx) + ex)) by (rewrite fexp_eq; lia).
  apply bra_le; try assumption; try lia.
  - rewrite Hd. lia.
  - rewrite Hmz, <- Z.mul_assoc, <- Z.pow_add_r by lia.
    replace (ex - ez + (ez + 2200)) with (ex + 2200) by lia. exact Hlt.
Qed.

(** Addition below a bound. *)
Lemma add_le x y mB eB :
  valid x -> valid y -> canonical mB eB -> eB <= 971 ->
  scaled x + scaled y < Zpos mB * 2 ^ (eB + 2200) ->
  valid (x + y)%F /\ scaled (x + y)%F <= Zpos mB * 2 ^ (eB + 2200).
Proof.
  intros Hx Hy HcB HeB Hlt.
  pose proof (valid_nonneg x Hx) as Hx0. pose proof (valid_nonneg y Hy) as Hy0.
  destruct x as [sx|sx| |sx mx ex], y as [sy|sy| |sy my ey];
    cbn [valid] in Hx, Hy; try contradiction.
  - subst. cbn. split; [reflexivity|]. cbn in Hlt. lia.
  - subst sx. cbn [add SFadd]. split; [exact Hy|]. cbn [scaled] in *. lia.
  - subst sy. cbn [add SFadd]. split; [exact Hx|]. cbn [scaled] in *. lia.
  - destruct Hx as [-> [Hcx Hex]], Hy as [-> [Hcy Hey]].
    pose proof (canonical_digits _ _ Hcx) as [_ Hex'].
    pose proof (canonical_digits _ _ Hcy) as [_ Hey'].
    unfold add, SFadd, prec, emax. cbn [cond_Zopp].
    pose proof (shl_align_spec mx ex (Z.min ex ey)) as Hsx.
    pose proof (shl_align_spec my ey (Z.min ex ey)) as Hsy.
    destruct (shl_align mx ex (Z.min ex ey)) as [mx' ex'].
    destruct (shl_align my ey (Z.min ex ey)) as [my' ey'].
    destruct Hsx as [_ [Hex1 Hmx]], Hsy as [_ [Hey1 Hmy]]. cbn [fst].
    change (Zpos mx' + Zpos my') with (Zpos (mx' + my')). cbn [binary_normalize].
    apply binary_round_le; try assumption; try lia.
    cbn [scaled] in Hlt.
    set (ez := Z.min ex ey) in *.
    rewrite Pos2Z.inj_add, Hmx, Hmy.
    replace ex' with ez in * by lia. replace ey' with ez in * by lia.
    rewrite Z.mul_add_distr_r, <- !Z.mul_assoc, <- !Z.pow_add_r by lia.
    replace (ex - ez + (ez + 2200)) with (ex + 2200) by lia.
    replace (ey - ez + (ez + 2200)) with (ey + 2200) by lia.
    exact Hlt.
Qed.

(** Subtraction of a smaller number. *)
Lemma sub_le x y :
  valid x -> valid y -> scaled y <= scaled x ->
  valid (x - y)%F /\ scaled (x - y)%F <= scaled x.
Proof.
  intros Hx Hy Hle.
  pose proof (valid_nonneg x Hx) as Hx0. pose proof (valid_nonneg y Hy) as Hy0.
  destruct x as [sx|sx| |sx mx ex], y as [sy|sy| |sy my ey];
    cbn [valid] in Hx, Hy; try contradiction.
  - subst. cbn. split; [reflexivity|lia].
  - exfalso. cbn [scaled] in *.
    destruct Hy as [_ [Hc _]]. apply canonical_digits in Hc.
    assert (0 < 2 ^ (ey + 2200)) by (apply Z.pow_pos_nonneg; lia). nia.
  - cbn [sub SFsub]. split; [exact Hx|lia].
  - destruct Hx as [-> [Hcx Hex]], Hy as [-> [Hcy Hey]].
    pose proof (canonical_digits _ _ Hcx) as [_ Hex'].
    pose proof (canonical_digits _ _ Hcy) as [_ Hey'].
    unfold sub, SFsub, prec, emax. cbn [cond_Zopp].
    pose proof (shl_align_spec mx ex (Z.min ex ey)) as Hsx.
    pose proof (shl_align_spec my ey (Z.min ex ey)) as Hsy.
    destruct (shl_align mx ex (Z.min ex ey)) as [mx' ex'].
    destruct (shl_align my ey (Z.min ex ey)) as [my' ey'].
    destruct Hsx as [_ [Hex1 Hmx]], Hsy as [_ [Hey1 Hmy]]. cbn [fst].
    set (ez := Z.min ex ey) in *.
    replace ex' with ez in * by lia. replace ey' with ez in * by lia.
    cbn [scaled] in Hle |- *.
    assert (Hp : 0 < 2 ^ (ez + 2200)) by (apply Z.pow_pos_nonneg; lia).
    assert (Hsx' : Zpos mx * 2 ^ (ex + 2200) = Zpos mx' * 2 ^ (ez + 2200)).
    { rewrite Hmx, <- Z.mul_assoc, <- Z.pow_add_r by lia. f_equal. f_equal. lia. }
    assert (Hsy' : Zpos my * 2 ^ (ey + 2200) = Zpos my' * 2 ^ (ez + 2200)).
    { rewrite Hmy, <- Z.mul_assoc, <- Z.pow_add_r by lia. f_equal. f_equal. lia. }
    assert (Hm : Zpos my' <= Zpos mx') by nia.
    destruct (Zpos mx' - Zpos my') as [|D|D] eqn:HD; [| |lia].
    + cbn. split; [reflexivity|]. nia.
    + cbn [binary_normalize].
      apply binary_round_le; try assumption; lia.
Qed.

Lemma Zdigits2_mul_ge a b :
  0 < a -> 0 < b -> Zdigits2 a + Zdigits2 b - 1 <= Zdigits2 (a * b).
Proof.
  intros Ha Hb.
  pose proof (Zdigits2_bounds a Ha) as [Hla _].
  pose proof (Zdigits2_bounds b Hb) as [Hlb _].
  pose proof (Zdigits2_ge1 a Ha). pose proof (Zdigits2_ge1 b Hb).
  assert (Hp : 2 ^ (Zdigits2 a - 1 + (Zdigits2 b - 1)) <= a * b).
  { rewrite Z.pow_add_r by lia.
    assert (0 < 2 ^ (Zdigits2 a - 1)) by (apply Z.pow_pos_nonneg; lia).
    assert (0 < 2 ^ (Zdigits2 b - 1)) by (apply Z.pow_pos_nonneg; lia).
    nia. }
  pose proof (Zdigits2_ge_pow (a * b) (Zdigits2 a - 1 + (Zdigits2 b - 1)) ltac:(lia) Hp).
  lia.
Qed.

(** Multiplication below a bound. *)
Lemma mul_le x y mB eB :
  valid x -> valid y -> canonical mB eB -> eB <= 971 ->
  scaled x * scaled y < Zpos mB * 2 ^ (eB + 2200) * 2 ^ 2200 ->
  valid (x * y)%F /\ scaled (x * y)%F <= Zpos mB * 2 ^ (eB + 2200).
Proof.
  intros Hx Hy HcB HeB Hlt.
  assert (HB : 0 <= Zpos mB * 2 ^ (eB + 2200)).
  { apply Z.mul_nonneg_nonneg; [lia|apply Z.pow_nonneg; lia]. }
  destruct x as [sx|sx| |sx mx ex], y as [sy|sy| |sy my ey];
    cbn [valid] in Hx, Hy; try contradiction.
  - subst. cbn. split; [reflexivity|exact HB].
  - subst. destruct Hy as [-> _]. cbn. split; [reflexivity|exact HB].
  - subst. destruct Hx as [-> _]. cbn. split; [reflexivity|exact HB].
  - destruct Hx as [-> [Hcx Hex]], Hy as [-> [Hcy Hey]].
    pose proof (canonical_digits _ _ Hcx) as [Hdx Hex'].
    pose proof (canonical_digits _ _ Hcy) as [Hdy Hey'].
    unfold mul, SFmul, prec, emax. cbn [xorb].
    rewrite Pos2Z.inj_mul.
    apply bra_le; try assumption; try lia.
    + pose proof (Zdigits2_mul_ge (Zpos mx) (Zpos my) ltac:(lia) ltac:(lia)) as Hd.
      pose proof (Zdigits2_ge1 (Zpos mx) ltac:(lia)).
      pose proof (Zdigits2_ge1 (Zpos my) ltac:(lia)).
      unfold canonical in Hcx, Hcy. rewrite fexp_eq in *. lia.
    + cbn [scaled] in Hlt.
      assert (Hp : 2 ^ (ex + 2200) * 2 ^ (ey + 2200) = 2 ^ (ex + ey + 2200) * 2 ^ 2200).
      { rewrite <- !Z.pow_add_r by lia. f_equal. lia. }
      assert (H0 : 0 < 2 ^ 2200) by (apply Z.pow_pos_nonneg; lia).
      set (P := 2 ^ 2200) in *. clearbody P.
      set (Q := 2 ^ (ex + ey + 2200)) in *.
      set (A := 2 ^ (ex + 2200)) in *. set (C := 2 ^ (ey + 2200)) in *.
      clearbody Q A C.
      assert (E : Zpos mx * A * (Zpos my * C) = Zpos mx * Zpos my * Q * P).
      { transitivity (Zpos mx * Zpos my * (A * C)); [ring|rewrite Hp; ring]. }
      rewrite E in Hlt. apply Z.mul_lt_mono_pos_r in Hlt; [exact Hlt|exact H0].
Qed.

Lemma bra_zero_input lx :
  bra false 0 (-1074) lx = S754_zero false
  \/ bra false 0 (-1074) lx = S754_finite false 1 (-1074).
Proof. destruct lx as [|[]]; vm_compute; auto. Qed.

(** The unit of the scaled values of the constants. *)
Lemma scaled_unit m e :
  -52 <= e ->
  scaled (S754_finite false m e) = Zpos m * 2 ^ (e + 52) * 2 ^ 2148.
Proof.
  intros He. cbn [scaled]. rewrite <- Z.mul_assoc, <- Z.pow_add_r by lia.
  f_equal. f_equal. lia.
Qed.

Lemma scaled_one : scaled one = 4503599627370496 * 2 ^ 2148.
Proof. unfold one. rewrite scaled_unit by lia. reflexivity. Qed.

Lemma valid_one : valid one.
Proof. cbn. unfold canonical. rewrite fexp_eq. cbn. lia. Qed.

(** A proper fraction rounds to at most one. *)
Lemma div_lt_one p q :
  Zpos p < Zpos q ->
  valid (div (exact (Zpos p)) (exact (Zpos q)))
  /\ scaled (div (exact (Zpos p)) (exact (Zpos q))) <= scaled one.
Proof.
  intros Hpq. unfold div, exact, SFdiv, prec, emax. cbn [xorb].
  pose proof (div_core_quot p q) as Hc.
  destruct (SFdiv_core_binary 53 1024 (Zpos p) 0 (Zpos q) 0) as [[mz ez] lz].
  destruct Hc as [He Hm].
  set (E := Zdigits2 (Zpos p) - Zdigits2 (Zpos q)) in *.
  assert (Hez : -1074 <= ez <= 0) by (rewrite He, fexp_eq; lia).
  assert (Hp2 : 0 < 2 ^ (- ez)) by (apply Z.pow_pos_nonneg; lia).
  pose proof (Zdigits2_bounds (Zpos p) ltac:(lia)) as [Hplo Hphi].
  pose proof (Zdigits2_bounds (Zpos q) ltac:(lia)) as [Hqlo Hqhi].
  pose proof (Zdigits2_ge1 (Zpos p) ltac:(lia)) as Hdp.
  pose proof (Zdigits2_ge1 (Zpos q) ltac:(lia)) as Hdq.
  assert (Hmz0 : 0 <= mz).
  { subst mz. apply Z.div_pos; [|lia]. apply Z.mul_nonneg_nonneg; lia. }
  assert (Hmzlt : mz < 2 ^ (- ez)).
  { subst mz. apply Z.div_lt_upper_bound; [lia|]. nia. }
  (* above the subnormal exponent the quotient has all its digits *)
  assert (Hbig : -1074 < ez -> 2 ^ 52 <= mz).
  { intros Hgt. assert (Hez' : ez <= E - 53) by (rewrite He, fexp_eq in *; lia).
    subst mz. apply Z.div_le_lower_bound; [lia|].
    assert (H1 : 2 ^ (Zdigits2 (Zpos q) + 52) <= Zpos p * 2 ^ (- ez)).
    { assert (H2 : 2 ^ (Zdigits2 (Zpos q) + 52)
                   <= 2 ^ (Zdigits2 (Zpos p) - 1) * 2 ^ (- ez)).
      { rewrite <- Z.pow_add_r by lia. apply Z.pow_le_mono_r; [lia|]. unfold E in *. lia. }
      etransitivity; [exact H2|]. apply Z.mul_le_mono_nonneg_r; lia. }
    etransitivity; [|exact H1].
    rewrite Z.pow_add_r by lia.
    apply Z.mul_le_mono_nonneg_r; [apply Z.pow_nonneg|]; lia. }
  assert (Hsone : scaled one = Zpos 4503599627370496 * 2 ^ (-52 + 2200)) by reflexivity.
  destruct (Z.eq_dec mz 0) as [Hz|Hnz].
  - assert (Hsub : ez = -1074).
    { destruct (Z.eq_dec ez (-1074)) as [|Hne]; [assumption|].
      specialize (Hbig ltac:(lia)).
      assert (0 < 2 ^ 52) by (apply Z.pow_pos_nonneg; lia). lia. }
    rewrite Hsub, Hz.
    destruct (bra_zero_input lz) as [-> | ->].
    + split; [reflexivity|]. rewrite scaled_one. cbn [scaled]. lia.
    + split.
      * cbn. split; [reflexivity|]. split; [|lia]. unfold canonical. rewrite fexp_eq. cbn. lia.
      * rewrite Hsone. cbn [scaled]. rewrite Z.mul_1_l.
        etransitivity; [apply (Z.pow_le_mono_r 2 _ (-52 + 2200)); lia|].
        assert (0 < 2 ^ (-52 + 2200)) by (apply Z.pow_pos_nonneg; lia). lia.
  - rewrite Hsone. apply bra_le; try lia.
    + destruct (Z.eq_dec ez (-1074)) as [->|Hne]; [rewrite fexp_eq; lia|].
      specialize (Hbig ltac:(lia)).
      pose proof (Zdigits2_ge_pow mz 52 ltac:(lia) Hbig). rewrite fexp_eq. lia.
    + unfold canonical. rewrite fexp_eq. cbn. lia.
    + assert (Hp : 2 ^ (- ez) * 2 ^ (ez + 2200) = 2 ^ 2200).
      { rewrite <- Z.pow_add_r by lia. f_equal. lia. }
      assert (Hq : Zpos 4503599627370496 * 2 ^ (-52 + 2200) = 2 ^ 2200).
      { change (Zpos 4503599627370496) with (2 ^ 52).
        rewrite <- Z.pow_add_r by lia. reflexivity. }
      rewrite Hq, <- Hp. apply Z.mul_lt_mono_pos_r; [apply Z.pow_pos_nonneg; lia|exact Hmzlt].
Qed.

Lemma int_truediv_valid a b :
  0 <= a <= b -> 0 < b ->
  exists q, int_truediv a b = Ok q /\ valid q /\ scaled q <= scaled one.
Proof.
  intros Hab Hb. unfold int_truediv.
  destruct (Z.eqb_spec b 0) as [|_]; [lia|].
  destruct (Z.eq_dec a 0) as [->|Ha0].
  - destruct b as [|q|q]; try lia. exists zero. split; [reflexivity|].
    split; [reflexivity|]. rewrite scaled_one. cbn [scaled zero]. lia.
  - destruct (Z.eq_dec a b) as [->|Hne].
    + rewrite div_exact_same by lia. exists one. split; [reflexivity|].
      split; [apply valid_one|lia].
    + destruct a as [|p|p], b as [|q|q]; try lia.
      destruct (div_lt_one p q ltac:(lia)) as [Hv Hs].
      destruct (div (exact (Zpos p)) (exact (Zpos q))) as [s|s| |s m e] eqn:Hd;
        try (cbn in Hv; contradiction).
      * eexists. split; [reflexivity|]. split; assumption.
      * eexists. split; [reflexivity|]. split; assumption.
Qed.

Lemma valid_const m e :
  Zdigits2 (Zpos m) = 53 -> -1074 <= e <= 971 -> valid (S754_finite false m e).
Proof.
  intros Hd He. cbn [valid]. split; [reflexivity|]. split; [|lia].
  unfold canonical. rewrite fexp_eq. lia.
Qed.

Lemma valid_two : valid two.
Proof. apply valid_const; [reflexivity|lia]. Qed.
Lemma valid_three : valid three.
Proof. apply valid_const; [reflexivity|lia]. Qed.
Lemma valid_five : valid five.
Proof. apply valid_const; [reflexivity|lia]. Qed.
Lemma valid_eight : valid eight.
Proof. apply valid_const; [reflexivity|lia]. Qed.
Lemma valid_ten : valid ten.
Proof. apply valid_const; [reflexivity|lia]. Qed.
Lemma valid_two_and_half : valid two_and_half.
Proof. apply valid_const; [reflexivity|lia]. Qed.

Lemma scaled_two : scaled two = 9007199254740992 * 2 ^ 2148.
Proof. unfold two. rewrite scaled_unit by lia. reflexivity. Qed.
Lemma scaled_three : scaled three = 13510798882111488 * 2 ^ 2148.
Proof. unfold three. rewrite scaled_unit by lia. reflexivity. Qed.
Lemma scaled_five : scaled five = 22517998136852480 * 2 ^ 2148.
Proof. unfold five. rewrite scaled_unit by lia. reflexivity. Qed.
Lemma scaled_eight : scaled eight = 36028797018963968 * 2 ^ 2148.
Proof. unfold eight. rewrite scaled_unit by lia. reflexivity. Qed.
Lemma scaled_ten : scaled ten = 45035996273704960 * 2 ^ 2148.
Proof. unfold ten. rewrite scaled_unit by lia. reflexivity. Qed.
Lemma scaled_two_and_half : scaled two_and_half = 11258999068426240 * 2 ^ 2148.
Proof. unfold two_and_half. rewrite scaled_unit by lia. reflexivity. Qed.

Lemma scaled_one_pow : scaled one = 2 ^ 2200.
Proof.
  unfold one. cbn [scaled]. change (Zpos 4503599627370496) with (2 ^ 52).
  rewrite <- Z.pow_add_r by lia. reflexivity.
Qed.

(** A constant times a number of at most one is at most the constant. *)
Lemma mul_const_le c y :
  valid c -> (c * one)%F = c -> valid y -> scaled y <= scaled one ->
  valid (c * y)%F /\ scaled (c * y)%F <= scaled c.
Proof.
  intros Hc Hc1 Hy Hle.
  destruct (Z.eq_dec (scaled y) (scaled one)) as [E|E].
  - rewrite (valid_eq y one Hy valid_one E), Hc1. split; [exact Hc|lia].
  - destruct c as [s|s| |s mc ec]; cbn [valid] in Hc; try contradiction.
    + subst s. destruct y as [sy|sy| |sy my ey]; cbn [valid] in Hy; try contradiction.
      * subst. cbn. split; [reflexivity|lia].
      * destruct Hy as [-> _]. cbn. split; [reflexivity|lia].
    + destruct Hc as [-> [Hcc Hec]].
      apply (mul_le (S754_finite false mc ec) y mc ec); try assumption.
      * cbn [valid]. repeat split; assumption.
      * rewrite <- scaled_one_pow. change (Zpos mc * 2 ^ (ec + 2200))
          with (scaled (S754_finite false mc ec)).
        assert (0 < scaled (S754_finite false mc ec)).
        { cbn [scaled]. apply canonical_digits in Hcc.
          assert (0 < 2 ^ (ec + 2200)) by (apply Z.pow_pos_nonneg; lia). nia. }
        apply Z.mul_lt_mono_pos_l; [assumption|lia].
Qed.

Lemma mul_const_le_r c y :
  valid c -> (one * c)%F = c -> valid y -> scaled y <= scaled one ->
  valid (y * c)%F /\ scaled (y * c)%F <= scaled c.
Proof.
  intros Hc Hc1 Hy Hle.
  destruct (Z.eq_dec (scaled y) (scaled one)) as [E|E].
  - rewrite (valid_eq y one Hy valid_one E), Hc1. split; [exact Hc|lia].
  - destruct c as [s|s| |s mc ec]; cbn [valid] in Hc; try contradiction.
    + subst s. destruct y as [sy|sy| |sy my ey]; cbn [valid] in Hy; try contradiction.
      * subst. cbn. split; [reflexivity|lia].
      * destruct Hy as [-> _]. cbn. split; [reflexivity|lia].
    + destruct Hc as [-> [Hcc Hec]].
      apply (mul_le y (S754_finite false mc ec) mc ec); try assumption.
      * cbn [valid]. repeat split; assumption.
      * rewrite <- scaled_one_pow. change (Zpos mc * 2 ^ (ec + 2200))
          with (scaled (S754_finite false mc ec)).
        assert (0 < scaled (S754_finite false mc ec)).
        { cbn [scaled]. apply canonical_digits in Hcc.
          assert (0 < 2 ^ (ec + 2200)) by (apply Z.pow_pos_nonneg; lia). nia. }
        rewrite (Z.mul_comm (scaled y)).
        apply Z.mul_lt_mono_pos_l; [assumption|lia].
Qed.

(** The sum of two numbers of at most [bx] and [by] is at most the
    float [bx + by] when that sum is exact. *)
Lemma add_const_le x y bx by' mB eB :
  valid x -> valid y -> valid bx -> valid by' ->
  scaled x <= scaled bx -> scaled y <= scaled by' ->
  (bx + by')%F = S754_finite false mB eB ->
  canonical mB eB -> eB <= 971 ->
  scaled bx + scaled by' = Zpos mB * 2 ^ (eB + 2200) ->
  valid (x + y)%F /\ scaled (x + y)%F <= Zpos mB * 2 ^ (eB + 2200).
Proof.
  intros Hx Hy Hbx Hby Hlx Hly Hsum HcB HeB Hs.
  destruct (Z.eq_dec (scaled x) (scaled bx)) as [Ex|Ex];
    [destruct (Z.eq_dec (scaled y) (scaled by')) as [Ey|Ey]|].
  - rewrite (valid_eq x bx Hx Hbx Ex), (valid_eq y by' Hy Hby Ey), Hsum.
    cbn [valid scaled]. split; [|lia]. repeat split; assumption.
  - apply add_le; try assumption. lia.
  - apply add_le; try assumption. lia.
Qed.

Lemma py_max_zero_valid x mB :
  valid x -> scaled x <= mB -> valid (py_max zero x) /\ scaled (py_max zero x) <= mB.
Proof.
  intros Hx Hle. unfold py_max. destruct (ltb zero x).
  - split; assumption.
  - split; [reflexivity|]. pose proof (valid_nonneg x Hx). cbn [scaled zero]. lia.
Qed.

Lemma budget_component_valid a b :
  well_formed a -> well_formed b ->
  exists c, budget_component a b = Ok c /\ valid c /\ scaled c <= scaled three.
Proof.
  unfold well_formed. intros Ha Hb.
  assert (H3 : 0 <= scaled three) by (rewrite scaled_three; lia).
  unfold budget_component.
  destruct (int_truthy (budget a) && int_truthy (budget b));
    [|exists zero; split; [reflexivity|split; [reflexivity|exact H3]]].
  destruct (Z.ltb_spec 0 (Z.max (default 0 (budget a)) (default 0 (budget b))))
    as [Hmax|_]; [|exists zero; split; [reflexivity|split; [reflexivity|exact H3]]].
  destruct (int_truediv_valid
              (Z.abs (default 0 (budget a) - default 0 (budget b)))
              (Z.max (default 0 (budget a)) (default 0 (budget b))))
    as [d [-> [Hd Hd1]]]; [|exact Hmax|].
  { destruct (budget a), (budget b); simpl in *; lia. }
  cbn [bind].
  destruct (sub_le one d valid_one Hd Hd1) as [Hs Hs1].
  destruct (mul_const_le three (one - d)%F valid_three eq_refl Hs Hs1) as [Hm Hm3].
  destruct (py_max_zero_valid _ _ Hm Hm3) as [Hp Hp3].
  eexists. split; [reflexivity|]. split; assumption.
Qed.

Lemma lifestyle_component_valid a b :
  exists c, lifestyle_component a b = Ok c /\ valid c /\ scaled c <= scaled two.
Proof.
  assert (H2 : 0 <= scaled two) by (rewrite scaled_two; lia).
  unfold lifestyle_component.
  destruct (set_truthy (lifestyle_set a) && set_truthy (lifestyle_set b));
    [|exists zero; split; [reflexivity|split; [reflexivity|exact H2]]].
  destruct (set_truthy (lifestyle_set a ∪ lifestyle_set b)) eqn:Hu;
    [|exists zero; split; [reflexivity|split; [reflexivity|exact H2]]].
  apply set_truthy_true in Hu.
  destruct (int_truediv_valid (len (lifestyle_set a ∩ lifestyle_set b))
              (len (lifestyle_set a ∪ lifestyle_set b)))
    as [q [-> [Hq Hq1]]].
  - split; [apply len_nonneg|apply len_inter_le_union].
  - apply len_pos, Hu.
  - cbn [bind].
    destruct (mul_const_le_r two q valid_two eq_refl Hq Hq1) as [Hm Hm2].
    eexists. split; [reflexivity|]. split; assumption.
Qed.

Lemma location_component_cases a b :
  location_component a b = zero
  \/ location_component a b = two_and_half
  \/ location_component a b = five.
Proof.
  destruct (location_component_values a b) as [H0 [H1 H2]]. cbv zeta in *.
  pose proof (len_nonneg (locations_set a ∩ locations_set b)) as Hn.
  destruct (Z.eq_dec (len (locations_set a ∩ locations_set b)) 0) as [E0|N0];
    [left; exact (H0 E0)|].
  destruct (Z.eq_dec (len (locations_set a ∩ locations_set b)) 1) as [E1|N1];
    [right; left; exact (H1 E1)|].
  right. right. apply H2. lia.
Qed.

Lemma location_component_valid a b :
  valid (location_component a b)
  /\ scaled (location_component a b) <= scaled five.
Proof.
  destruct (location_component_cases a b) as [-> |[-> | ->]].
  - split; [reflexivity|]. rewrite scaled_five. cbn [scaled zero]. lia.
  - split; [apply valid_two_and_half|]. rewrite scaled_five, scaled_two_and_half. lia.
  - split; [apply valid_five|lia].
Qed.

(** The sum of the three components is a valid float of at most ten. *)
Lemma components_sum_valid a b c2 c3 :
  valid c2 -> scaled c2 <= scaled three ->
  valid c3 -> scaled c3 <= scaled two ->
  valid (location_component a b + c2 + c3)%F
  /\ scaled (location_component a b + c2 + c3)%F <= scaled ten.
Proof.
  intros H2 H23 H3 H32.
  destruct (location_component_valid a b) as [H1 H15].
  destruct (add_const_le (location_component a b) c2 five three
              4503599627370496 (-49) H1 H2 valid_five valid_three H15 H23)
    as [H12 H128].
  - reflexivity.
  - unfold canonical. rewrite fexp_eq. cbn. lia.
  - lia.
  - change (Zpos 4503599627370496 * 2 ^ (-49 + 2200)) with (scaled eight).
    rewrite scaled_five, scaled_three, scaled_eight. lia.
  - change (Zpos 4503599627370496 * 2 ^ (-49 + 2200)) with (scaled eight) in H128.
    assert (Hten : scaled ten = Zpos 5629499534213120 * 2 ^ (-49 + 2200)) by reflexivity.
    rewrite Hten.
    apply (add_const_le _ c3 eight two 5629499534213120 (-49) H12 H3 valid_eight valid_two
             H128 H32).
    + reflexivity.
    + unfold canonical. rewrite fexp_eq. cbn. lia.
    + lia.
    + rewrite <- Hten, scaled_eight, scaled_two, scaled_ten. lia.
Qed.

(** X28.  Each component stays in its range.  For profiles with budgets
    that are not negative, the location component is 0, 2.5 or 5.0, the
    budget component lies between 0 and 3.0, and the lifestyle component
    between 0 and 2.0, in binary64 arithmetic with its rounding. *)
Theorem component_ranges (a b : User) :
  well_formed a -> well_formed b ->
  exists c2 c3,
    budget_component a b = Ok c2
    /\ lifestyle_component a b = Ok c3
    /\ (location_component a b = zero \/ location_component a b = two_and_half
        \/ location_component a b = five)
    /\ leb zero c2 = true /\ leb c2 three = true
    /\ leb zero c3 = true /\ leb c3 two = true.
Proof.
  intros Ha Hb.
  destruct (budget_component_valid a b Ha Hb) as [c2 [Hc2 [Hv2 Hs2]]].
  destruct (lifestyle_component_valid a b) as [c3 [Hc3 [Hv3 Hs3]]].
  exists c2, c3. split; [exact Hc2|]. split; [exact Hc3|].
  split; [apply location_component_cases|].
  pose proof (valid_nonneg c2 Hv2). pose proof (valid_nonneg c3 Hv3).
  split; [apply (valid_le zero c2); [reflexivity|exact Hv2|exact H]|].
  split; [apply (valid_le c2 three Hv2 valid_three Hs2)|].
  split; [apply (valid_le zero c3); [reflexivity|exact Hv3|exact H0]|].
  apply (valid_le c3 two Hv3 valid_two Hs3).
Qed.

(** X29.  The clamp to 10 never changes anything: for profiles with
    budgets that are not negative, the rounded sum of the three components
    is at most 10.0, so [min(score, 10)] is the sum itself and the score is
    the sum rounded to one decimal. *)
Theorem clamp_never_active (a b : User) :
  well_formed a -> well_formed b ->
  exists c2 c3,
    budget_component a b = Ok c2
    /\ lifestyle_component a b = Ok c3
    /\ leb (location_component a b + c2 + c3)%F ten = true
    /\ py_min (location_component a b + c2 + c3)%F ten
       = (location_component a b + c2 + c3)%F
    /\ calculate_compatibility a b = Ok (round1 (location_component a b + c2 + c3)%F).
Proof.
  intros Ha Hb.
  destruct (budget_component_valid a b Ha Hb) as [c2 [Hc2 [Hv2 Hs2]]].
  destruct (lifestyle_component_valid a b) as [c3 [Hc3 [Hv3 Hs3]]].
  destruct (components_sum_valid a b c2 c3 Hv2 Hs2 Hv3 Hs3) as [Hv Hs].
  destruct (valid_le _ ten Hv valid_ten Hs) as [Hlt Hle].
  exists c2, c3. split; [exact Hc2|]. split; [exact Hc3|]. split; [exact Hle|].
  assert (Hmin : py_min (location_component a b + c2 + c3)%F ten
                 = (location_component a b + c2 + c3)%F).
  { unfold py_min. rewrite Hlt. reflexivity. }
  split; [exact Hmin|].
  rewrite calculate_compatibility_components, Hc2, Hc3. cbn [bind]. rewrite Hmin.
  reflexivity.
Qed.

Lemma component_ranges_witness :
  well_formed alice /\ well_formed bob
  /\ exists c2 c3,
    budget_component alice bob = Ok c2
    /\ lifestyle_component alice bob = Ok c3
    /\ (location_component alice bob = zero \/ location_component alice bob = two_and_half
        \/ location_component alice bob = five)
    /\ leb zero c2 = true /\ leb c2 three = true
    /\ leb zero c3 = true /\ leb c3 two = true.
Proof.
  assert (Ha : well_formed alice) by (unfold well_formed; simpl; lia).
  assert (Hb : well_formed bob) by (unfold well_formed; simpl; lia).
  split; [exact Ha|]. split; [exact Hb|].
  exact (component_ranges alice bob Ha Hb).
Defined.

Lemma clamp_never_active_witness :
  well_formed alice /\ well_formed alice_upper
  /\ exists c2 c3,
    budget_component alice alice_upper = Ok c2
    /\ lifestyle_component alice alice_upper = Ok c3
    /\ leb (location_component alice alice_upper + c2 + c3)%F ten = true
    /\ py_min (location_component alice alice_upper + c2 + c3)%F ten
       = (location_component alice alice_upper + c2 + c3)%F
    /\ calculate_compatibility alice alice_upper
       = Ok (round1 (location_component alice alice_upper + c2 + c3)%F).
Proof.
  assert (Ha : well_formed alice) by (unfold well_formed; simpl; lia).
  assert (Hb : well_formed alice_upper) by (unfold well_formed; simpl; lia).
  split; [exact Ha|]. split; [exact Hb|].
  exact (clamp_never_active alice alice_upper Ha Hb).
Defined.

(** * The final order of the roommate list *)

Lemma StronglySorted_fmap {A B : Type} (f : A -> B) (R : B -> B -> Prop) (l : list A) :
  StronglySorted R (f <$> l) -> StronglySorted (fun a b => R (f a) (f b)) l.
Proof.
  induction l as [|x l IH]; cbn [fmap list_fmap]; intros H; [constructor|].
  apply StronglySorted_inv in H as [Hs Hx]. constructor; [apply IH, Hs|].
  rewrite Forall_fmap in Hx. exact Hx.
Qed.

Lemma StronglySorted_filter {A : Type} (R : A -> A -> Prop) (P : A -> Prop)
    `{!forall x, Decision (P x)} (l : list A) :
  StronglySorted R l -> StronglySorted R (filter P l).
Proof.
  induction 1 as [|x l Hs IH Hx]; [constructor|].
  rewrite filter_cons. destruct (decide (P x)); [|exact IH].
  constructor; [exact IH|]. apply Forall_forall. intros y Hy.
  apply list_elem_of_filter in Hy as [_ Hy]. rewrite Forall_forall in Hx. apply Hx, Hy.
Qed.

Lemma StronglySorted_by_key {A K : Type} `{EqDecision K} (key : A -> K)
    (R : A -> A -> Prop) (l : list A) :
  (forall v, StronglySorted R (filter (fun a => key a = v) l)) ->
  StronglySorted (fun a b => key a = key b -> R a b) l.
Proof.
  induction l as [|x l IH]; intros H; [constructor|]. constructor.
  - apply IH. intros v. specialize (H v). rewrite filter_cons in H.
    destruct (decide (key x = v)); [|exact H].
    apply StronglySorted_inv in H as [H _]. exact H.
  - specialize (H (key x)). rewrite filter_cons in H.
    destruct (decide (key x = key x)) as [_|Hn]; [|contradiction].
    apply StronglySorted_inv in H as [_ H]. rewrite Forall_forall in H |- *.
    intros y Hy E. apply H. apply list_elem_of_filter. split; [symmetry; exact E|exact Hy].
Qed.

Lemma StronglySorted_and {A : Type} (R1 R2 : A -> A -> Prop) (l : list A) :
  StronglySorted R1 l -> StronglySorted R2 l ->
  StronglySorted (fun a b => R1 a b /\ R2 a b) l.
Proof.
  induction 1 as [|x l Hs IH Hx]; intros H2; [constructor|].
  apply StronglySorted_inv in H2 as [H2 Hx2]. constructor; [apply IH, H2|].
  rewrite Forall_forall in Hx, Hx2 |- *. intros y Hy. split; [apply Hx|apply Hx2]; exact Hy.
Qed.

(** X30.  The list that a logged-in visitor gets is ordered by score,
    highest first, and among candidates of one score by creation time,
    newest first: the stable sort by score keeps the order of the
    query. *)
Theorem browse_order (table : list User) (cu : User) (location : string)
    (min_budget max_budget : option Z) (out : list Roommate) :
  browse_roommates table (Some cu) location min_budget max_budget = Ok out ->
  StronglySorted
    (fun r1 r2 =>
       ltb (score r1) (score r2) = false
       /\ (score r1 = score r2 -> created_at (user r2) <= created_at (user r1)))
    out.
Proof.
  unfold browse_roommates. intros H.
  destruct (rank_some _ _ _ H) as [scored [Hs ->]].
  pose proof (score_users_shaped _ _ _ Hs) as Hsh.
  pose proof (score_users_users _ _ _ Hs) as Hu.
  apply StronglySorted_and.
  - apply (sort_desc_sorted score ltb (shaped false) ltb_asym ltb_negtrans), Hsh.
  - apply (StronglySorted_by_key score (fun r1 r2 => created_at (user r2) <= created_at (user r1))).
    intros v. rewrite (sort_desc_keep score ltb (shaped false) ltb_asym v scored Hsh).
    apply StronglySorted_filter.
    apply (StronglySorted_fmap user (fun u1 u2 => created_at u2 <= created_at u1)).
    rewrite Hu. apply sort_desc_Z_sorted.
Qed.

Lemma browse_order_witness :
  browse_roommates [cand0; cand1; cand2; cand3; alice] (Some alice) EmptyString None None
  = Ok [mkRoommate cand2 (tenths 71); mkRoommate cand1 (tenths 71);
        mkRoommate cand0 (tenths 32); mkRoommate cand3 (tenths 0)]
  /\ StronglySorted
       (fun r1 r2 =>
          ltb (score r1) (score r2) = false
          /\ (score r1 = score r2 -> created_at (user r2) <= created_at (user r1)))
       [mkRoommate cand2 (tenths 71); mkRoommate cand1 (tenths 71);
        mkRoommate cand0 (tenths 32); mkRoommate cand3 (tenths 0)].
Proof.
  assert (H : browse_roommates [cand0; cand1; cand2; cand3; alice] (Some alice)
                EmptyString None None
              = Ok [mkRoommate cand2 (tenths 71); mkRoommate cand1 (tenths 71);
                    mkRoommate cand0 (tenths 32); mkRoommate cand3 (tenths 0)])
    by (vm_compute; reflexivity).
  split; [exact H|].
  exact (browse_order [cand0; cand1; cand2; cand3; alice] alice EmptyString None None _ H).
Defined.
